(** * FGU character sheet generator: the extraction helpers of [server.js]

    A shallow embedding of the helper functions of [src/server.js]
    ([safeGet], [escapeHtml], [formatModifier], [getProficiencyBonus]), of the
    extraction steps of [generateCharacterHTML] and of the file name
    derivation of the [/generate] route, with the properties the design
    document states about them. The functions are first written over
    trees held by value; a second part writes [safeGet] and the steps of
    [generateCharacterHTML] over a store of shared objects, to state what
    the code leaves unchanged.

    Conventions of the embedding.
    - A JavaScript string is a [string]: one [ascii] per code unit, so the
      embedding covers the strings whose code units lie in U+0000..U+00FF.
    - A JavaScript number is an integer [VNum n] or [VNaN]: the code only
      produces numbers with [parseInt], sums and [Math.floor], which stay
      integral (and exact below 2^53).
    - Objects list their own enumerable properties in property order, with
      unique keys; arrays have no holes.
    - What the runtime supplies and the repository does not define (the
      members reached through prototypes, the conversion of an object to a
      string, the collation behind [localeCompare]) is a [Host]. *)

From Stdlib Require Import String Ascii List ZArith Lia Bool Arith.
From Stdlib Require Import Numbers.DecimalString Numbers.DecimalPos.
From Stdlib Require Import Sorting.Sorted Sorting.Permutation.
Import ListNotations.

Local Open Scope string_scope.
Local Open Scope Z_scope.

(** ** Values *)

Set Warnings "-register-all".

(** Numbers: the integral ones and NaN. The numbers of the code are
    doubles: they hold the integers between -2^53 and 2^53 exactly, round
    the larger ones and have the infinities. The model is the code on the
    integers of that range; a statement that rests on exact arithmetic
    carries the range as a hypothesis ([safe_integer]). *)
Inductive number : Type :=
| Int (n : Z)
| NaN.

Inductive value : Type :=
| VUndefined
| VNull
| VBool (b : bool)
| VNum (x : number)
| VStr (s : string)
| VArr (elems : list value)
| VObj (props : list (string * value))
| VFun (name : string).

(** Completion of a JavaScript computation: a value or a thrown exception. *)
Inductive completion (A : Type) : Type :=
| Ok (a : A)
| Throw (error : string).

Arguments Ok {A} a.
Arguments Throw {A} error.

Definition bind {A B : Type} (m : completion A) (f : A -> completion B) : completion B :=
  match m with
  | Ok a => f a
  | Throw e => Throw e
  end.

Notation "x <- m ;; f" := (bind m (fun x => f))
  (at level 61, m at next level, right associativity).
Notation "' pat <- m ;; f" := (bind m (fun x => match x with pat => f end))
  (at level 61, pat pattern, m at next level, right associativity).

Definition TypeError : string := "TypeError".

(** The kinds of value that have a prototype chain. *)
Inductive kind : Type :=
| KArray | KObject | KFunction | KString | KNumber | KBoolean.

(** The runtime behind the code. *)
Class Host : Type := {
  (** [inherited k key]: the member [key] found on the prototype chain of a
      value of kind [k], if any. *)
  inherited : kind -> string -> option value;
  (** [String(o)] for a plain object or a function [o]; [None] when the
      conversion throws (an object without [toString], as the XML parser
      creates them). *)
  objectToString : value -> option string;
  (** [a.localeCompare(b)] in the default locale. *)
  localeCompare : string -> string -> Z
}.

(** ** Primitive operations *)

(** [!!v]: every value is truthy except undefined, null, false, 0, NaN and
    the empty string. *)
Definition truthy (v : value) : bool :=
  match v with
  | VUndefined | VNull => false
  | VBool b => b
  | VNum (Int n) => negb (n =? 0)
  | VNum NaN => false
  | VStr s => negb (String.eqb s "")
  | VArr _ | VObj _ | VFun _ => true
  end.

(** [typeof v === 'object'] *)
Definition typeof_object (v : value) : bool :=
  match v with
  | VNull | VArr _ | VObj _ => true
  | _ => false
  end.

Definition isArray (v : value) : bool :=
  match v with
  | VArr _ => true
  | _ => false
  end.

Definition kind_of (v : value) : option kind :=
  match v with
  | VUndefined | VNull => None
  | VBool _ => Some KBoolean
  | VNum _ => Some KNumber
  | VStr _ => Some KString
  | VArr _ => Some KArray
  | VObj _ => Some KObject
  | VFun _ => Some KFunction
  end.

(** [a || b] *)
Definition js_or (a b : value) : value := if truthy a then a else b.

Definition is_digit (c : ascii) : bool :=
  let n := nat_of_ascii c in ((48 <=? n) && (n <=? 57))%nat.

Definition digit_val (c : ascii) : nat := (nat_of_ascii c - 48)%nat.

Fixpoint all_digits (s : string) : bool :=
  match s with
  | EmptyString => true
  | String c s' => is_digit c && all_digits s'
  end.

Fixpoint digits_to_nat (acc : nat) (s : string) : nat :=
  match s with
  | EmptyString => acc
  | String c s' => digits_to_nat (10 * acc + digit_val c)%nat s'
  end.

Fixpoint digits_to_Z (acc : Z) (s : string) : Z :=
  match s with
  | EmptyString => acc
  | String c s' => digits_to_Z (10 * acc + Z.of_nat (digit_val c)) s'
  end.

(** A property key that is an array index: the canonical decimal numeral of a
    natural number below 2^32 - 1 ("0", "7", "12"; not "07", "+1" or ""). *)
Definition array_index (key : string) : option nat :=
  match key with
  | EmptyString => None
  | String c rest =>
      if all_digits key
      then if (Ascii.eqb c "0" && negb (String.eqb rest ""))%bool then None
           else if digits_to_Z 0 key <? 4294967295 then Some (digits_to_nat 0 key)
           else None
      else None
  end.

Fixpoint assoc (key : string) (props : list (string * value)) : option value :=
  match props with
  | [] => None
  | (k, v) :: rest => if String.eqb k key then Some v else assoc key rest
  end.

(** The own property [key] of an array, an object or a string. *)
Definition own_property (v : value) (key : string) : option value :=
  match v with
  | VArr elems =>
      if String.eqb key "length" then Some (VNum (Int (Z.of_nat (List.length elems))))
      else match array_index key with
           | Some i => nth_error elems i
           | None => None
           end
  | VObj props => assoc key props
  | VStr s =>
      if String.eqb key "length" then Some (VNum (Int (Z.of_nat (String.length s))))
      else match array_index key with
           | Some i => match String.get i s with
                       | Some c => Some (VStr (String c EmptyString))
                       | None => None
                       end
           | None => None
           end
  | _ => None
  end.

Section WithHost.
Context {host : Host}.

(** Own or inherited property lookup. *)
Definition lookup_property (v : value) (key : string) : option value :=
  match own_property v key with
  | Some x => Some x
  | None => match kind_of v with
            | Some k => inherited k key
            | None => None
            end
  end.

Definition has_property (v : value) (key : string) : bool :=
  match lookup_property v key with
  | Some _ => true
  | None => false
  end.

(** [key in v]: a TypeError unless [v] is an object. *)
Definition js_in (key : string) (v : value) : completion bool :=
  match v with
  | VArr _ | VObj _ | VFun _ => Ok (has_property v key)
  | _ => Throw TypeError
  end.

(** [v[key]]: a TypeError on undefined and null, undefined for a missing key. *)
Definition js_get (v : value) (key : string) : completion value :=
  match v with
  | VUndefined | VNull => Throw TypeError
  | _ => Ok (match lookup_property v key with Some x => x | None => VUndefined end)
  end.

(** ** [safeGet] *)

(** [path.split('.')] *)
Fixpoint split_on (sep : ascii) (s : string) : list string :=
  match s with
  | EmptyString => [EmptyString]
  | String c s' =>
      if Ascii.eqb c sep then EmptyString :: split_on sep s'
      else match split_on sep s' with
           | [] => [String c EmptyString]
           | piece :: pieces => String c piece :: pieces
           end
  end.

(** [while (Array.isArray(result) && result.length === 1) result = result[0]] *)
Fixpoint unwrap (result : value) : value :=
  match result with
  | VArr [inner] => unwrap inner
  | _ => result
  end.

(** The part of [safeGet] after the loop over the keys. *)
Definition safeGet_finish (result0 defaultValue : value) : completion value :=
  let result := unwrap result0 in
  if truthy result && typeof_object result then
    has_ <- js_in "_" result ;;
    if has_ then js_get result "_"
    else
      has_t <- js_in "$t" result ;;
      if has_t then js_get result "$t"
      else Ok (js_or result defaultValue)
  else Ok (js_or result defaultValue).

(** The loop over the keys, followed by the rest of the function; the
    [else] branch returns from [safeGet]. *)
Fixpoint safeGet_keys (keys : list string) (result defaultValue : value) : completion value :=
  match keys with
  | [] => safeGet_finish result defaultValue
  | key :: keys' =>
      if truthy result && typeof_object result then
        found <- js_in key result ;;
        if found then
          next <- js_get result key ;;
          safeGet_keys keys' next defaultValue
        else Ok defaultValue
      else Ok defaultValue
  end.

Definition safeGet (obj : value) (path : string) (defaultValue : value) : completion value :=
  safeGet_keys (split_on "." path) obj defaultValue.

End WithHost.

(** The order of the code units. *)
Fixpoint compare_units (a b : string) : Z :=
  match a, b with
  | EmptyString, EmptyString => 0
  | EmptyString, String _ _ => -1
  | String _ _, EmptyString => 1
  | String x a', String y b' =>
      match Nat.compare (nat_of_ascii x) (nat_of_ascii y) with
      | Lt => -1
      | Gt => 1
      | Eq => compare_units a' b'
      end
  end.

(** A host without prototype members, whose objects convert to
    "[object Object]" and whose collation is the order of the code units.
    It is used to run the code on concrete inputs. *)
Definition plain_host : Host := {|
  inherited := fun _ _ => None;
  objectToString := fun _ => Some "[object Object]";
  localeCompare := compare_units
|}.

(** [n] nested one-element arrays around [s]. *)
Fixpoint wrap (n : nat) (s : value) : value :=
  match n with
  | O => s
  | S n' => VArr [wrap n' s]
  end.

Definition is_scalar (v : value) : bool :=
  match v with
  | VArr _ | VObj _ | VFun _ => false
  | _ => true
  end.

(** A mapping or a sequence. *)
Definition is_container (v : value) : bool :=
  match v with
  | VArr _ | VObj _ => true
  | _ => false
  end.

Section PathSpec.
Context {host : Host}.

(** The walk of the code fails at a segment: at some step the current value
    is not an array or object, or the [in] of the code does not find the
    key in it. That test also finds what is no entry of the tree (the
    length of an array, the members that are inherited); the absence of a
    segment from the tree itself is [missing_at]. *)
Inductive absent_at : value -> list string -> Prop :=
| absent_here v key keys :
    is_container v = false \/ has_property v key = false ->
    absent_at v (key :: keys)
| absent_below v key keys next :
    is_container v = true ->
    lookup_property v key = Some next ->
    absent_at next keys ->
    absent_at v (key :: keys).

End PathSpec.

(** The entry of the tree under [key]: the value of a mapping under that
    key, the element of a sequence at that index. *)
Definition tree_member (v : value) (key : string) : option value :=
  match v with
  | VObj props => assoc key props
  | VArr elems =>
      match array_index key with
      | Some i => nth_error elems i
      | None => None
      end
  | _ => None
  end.

(** A segment of the path is absent at its step of the walk: the current
    value is not a mapping or sequence that contains the key. *)
Inductive missing_at : value -> list string -> Prop :=
| missing_here v key keys :
    tree_member v key = None ->
    missing_at v (key :: keys)
| missing_below v key keys next :
    tree_member v key = Some next ->
    missing_at next keys ->
    missing_at v (key :: keys).


(** ** Strings *)

(** The double quote character. *)
Definition dq : ascii := "034"%char.

(** Template text is written with a backquote where the source has a double
    quote (a template literal cannot hold a bare backquote). *)
Fixpoint q (text : string) : string :=
  match text with
  | EmptyString => EmptyString
  | String c rest => String (if Ascii.eqb c "`" then dq else c) (q rest)
  end.

(** [s.replace(/c/g, by)] for a single character [c]. *)
Fixpoint replace_char (c : ascii) (by_ : string) (s : string) : string :=
  match s with
  | EmptyString => EmptyString
  | String x rest =>
      if Ascii.eqb x c then by_ ++ replace_char c by_ rest
      else String x (replace_char c by_ rest)
  end.

Fixpoint filter_string (keep : ascii -> bool) (s : string) : string :=
  match s with
  | EmptyString => EmptyString
  | String x rest =>
      if keep x then String x (filter_string keep rest) else filter_string keep rest
  end.

(** [s.startsWith(p)] *)
Fixpoint startsWith (p s : string) : bool :=
  match p, s with
  | EmptyString, _ => true
  | String a p', String b s' => Ascii.eqb a b && startsWith p' s'
  | String _ _, EmptyString => false
  end.

(** [s.includes(p)] *)
Fixpoint includes (p s : string) : bool :=
  startsWith p s ||
  match s with
  | EmptyString => false
  | String _ s' => includes p s'
  end.

Definition between (lo hi : nat) (c : ascii) : bool :=
  let n := nat_of_ascii c in ((lo <=? n) && (n <=? hi))%nat.

(** [s.toLowerCase()] on code units below U+0100: A-Z and the capital
    letters U+00C0..U+00DE (U+00D7, the multiplication sign, apart). *)
Definition lower_unit (c : ascii) : ascii :=
  let n := nat_of_ascii c in
  if between 65 90 c || (between 192 222 c && negb (n =? 215)%nat)
  then ascii_of_nat (n + 32)
  else c.

Fixpoint toLowerCase (s : string) : string :=
  match s with
  | EmptyString => EmptyString
  | String c rest => String (lower_unit c) (toLowerCase rest)
  end.

(** White space and line terminators below U+0100: TAB, LF, VT, FF, CR,
    space and the no-break space. *)
Definition is_space (c : ascii) : bool :=
  let n := nat_of_ascii c in
  (between 9 13 c || (n =? 32) || (n =? 160))%nat.

Fixpoint trimStart (s : string) : string :=
  match s with
  | EmptyString => EmptyString
  | String c rest => if is_space c then trimStart rest else s
  end.

Fixpoint trimEnd (s : string) : string :=
  match s with
  | EmptyString => EmptyString
  | String c rest =>
      match trimEnd rest with
      | EmptyString => if is_space c then EmptyString else String c EmptyString
      | kept => String c kept
      end
  end.

(** [s.trim()] *)
Definition trim (s : string) : string := trimEnd (trimStart s).

(** [pieces.join(sep)] *)
Fixpoint join (sep : string) (pieces : list string) : string :=
  match pieces with
  | [] => EmptyString
  | [piece] => piece
  | piece :: rest => piece ++ sep ++ join sep rest
  end.

(** ** Numbers *)

(** The decimal numeral of an integer, as [String(n)] prints it below 10^21
    (from there on the code prints an exponent). *)
Definition string_of_Z (n : Z) : string :=
  DecimalString.NilZero.string_of_int (Z.to_int n).

Definition string_of_number (x : number) : string :=
  match x with
  | Int n => string_of_Z n
  | NaN => "NaN"
  end.

Definition num_add (a b : number) : number :=
  match a, b with
  | Int x, Int y => Int (x + y)
  | _, _ => NaN
  end.

Definition num_sub (a b : number) : number :=
  match a, b with
  | Int x, Int y => Int (x - y)
  | _, _ => NaN
  end.

(** [Math.floor(a / d)] for a positive integer [d]. *)
Definition floor_div (a : number) (d : Z) : number :=
  match a with
  | Int x => Int (x / d)
  | NaN => NaN
  end.

(** [a >= 0] *)
Definition num_ge0 (a : number) : bool :=
  match a with
  | Int x => 0 <=? x
  | NaN => false
  end.

(** The value of a digit in radix [radix], if it is one. *)
Definition radix_digit (radix : Z) (c : ascii) : option Z :=
  let n := Z.of_nat (nat_of_ascii c) in
  let d := if between 48 57 c then Some (n - 48)
           else if between 97 122 c then Some (n - 87)
           else if between 65 90 c then Some (n - 55)
           else None in
  match d with
  | Some v => if v <? radix then Some v else None
  | None => None
  end.

(** The longest prefix of digits, accumulated; [None] when it is empty. *)
Fixpoint parse_digits (radix : Z) (acc : option Z) (s : string) : option Z :=
  match s with
  | EmptyString => acc
  | String c rest =>
      match radix_digit radix c with
      | Some d => parse_digits radix (Some (match acc with Some a => a * radix + d | None => d end)) rest
      | None => acc
      end
  end.

(** [parseInt(s)] on a string, without a radix argument: leading white space
    is skipped, then a sign, then a [0x] or [0X] prefix selects radix 16;
    [None] is NaN. The integer is the exact one: it is the result of the
    code when it is between -2^53 and 2^53 (the code rounds a larger one to
    a double, and to an infinity from some 309 digits on). *)
Definition parseInt_string (s : string) : option Z :=
  let s1 := trimStart s in
  let '(sign, s2) :=
    match s1 with
    | String "-" rest => (-1, rest)
    | String "+" rest => (1, rest)
    | _ => (1, s1)
    end in
  let '(radix, s3) :=
    match s2 with
    | String "0" (String "x" rest) => (16, rest)
    | String "0" (String "X" rest) => (16, rest)
    | _ => (10, s2)
    end in
  match parse_digits radix None s3 with
  | Some n => Some (sign * n)
  | None => None
  end.

Section Conversions.
Context {host : Host}.

(** [String(v)], also the conversion of an interpolated [${v}]. An array
    joins the strings of its elements with commas, undefined and null
    elements counting as empty. *)
Fixpoint toString (v : value) : completion string :=
  match v with
  | VUndefined => Ok "undefined"
  | VNull => Ok "null"
  | VBool true => Ok "true"
  | VBool false => Ok "false"
  | VNum x => Ok (string_of_number x)
  | VStr s => Ok s
  | VArr elems =>
      (fix items (l : list value) : completion string :=
         match l with
         | [] => Ok EmptyString
         | e :: rest =>
             first <- match e with
                      | VUndefined | VNull => Ok EmptyString
                      | _ => toString e
                      end ;;
             match rest with
             | [] => Ok first
             | _ => others <- items rest ;; Ok (first ++ "," ++ others)
             end
         end) elems
  | VObj _ | VFun _ =>
      match objectToString v with
      | Some s => Ok s
      | None => Throw TypeError
      end
  end.

(** [parseInt(v)] *)
Definition parseInt (v : value) : completion number :=
  s <- toString v ;;
  Ok (match parseInt_string s with
      | Some n => Int n
      | None => NaN
      end).

(** ** The helpers of [server.js] *)

Definition escapeHtml (text : value) : completion string :=
  if negb (truthy text) then Ok EmptyString
  else
    s <- toString text ;;
    Ok (replace_char "'" "&#039;"
       (replace_char dq "&quot;"
       (replace_char ">" "&gt;"
       (replace_char "<" "&lt;"
       (replace_char "&" "&amp;" s))))).

(** The [try] block converts and formats; the [catch] block returns the
    argument. *)
Definition formatModifier (value_ : value) : value :=
  match parseInt value_ with
  | Ok val =>
      if num_ge0 val then VStr ("+" ++ string_of_number val)
      else VStr (string_of_number val)
  | Throw _ => value_
  end.

Definition getProficiencyBonus (level : value) : number :=
  match parseInt level with
  | Ok lvl => num_add (Int 2) (floor_div (num_sub lvl (Int 1)) 4)
  | Throw _ => Int 2
  end.

End Conversions.

(** ** The extraction steps of [generateCharacterHTML] *)

(** [list.forEach] with a body that updates the variables [S] it closes
    over; an exception ends the loop. *)
Fixpoint forEach {A S : Type} (l : list A) (body : S -> A -> completion S) (s : S) : completion S :=
  match l with
  | [] => Ok s
  | a :: rest => s' <- body s a ;; forEach rest body s'
  end.

(** The index keys "0", "1", ... of [n] elements. *)
Definition index_keys (n : nat) : list string :=
  map (fun i => string_of_Z (Z.of_nat i)) (seq 0 n).

(** [Object.keys(v)] *)
Definition object_keys (v : value) : completion (list string) :=
  match v with
  | VUndefined | VNull => Throw TypeError
  | VObj props => Ok (map fst props)
  | VArr elems => Ok (index_keys (List.length elems))
  | VStr s => Ok (index_keys (String.length s))
  | _ => Ok []
  end.

(** [v === s] for a string literal [s]. *)
Definition is_string (s : string) (v : value) : bool :=
  match v with
  | VStr x => String.eqb x s
  | _ => false
  end.

(** [a || b] on numbers. *)
Definition num_or (a b : number) : number :=
  if truthy (VNum a) then a else b.

Record classInfo : Type := {
  cls_name : value;
  cls_level : value;
  cls_specialization : value
}.

Record ability : Type := {
  score : value;
  bonus : value;
  save : value;
  saveprof : bool
}.

Record skill : Type := {
  sk_name : value;
  sk_total : value;
  sk_prof : bool;
  sk_stat : value
}.

Record spell : Type := {
  sp_name : value;
  sp_level : value;
  sp_prepared : value;
  sp_school : value;
  sp_description : string
}.

Definition abilityNames : list string :=
  ["strength"; "dexterity"; "constitution"; "intelligence"; "wisdom"; "charisma"].

(** A line feed, and the separator of paragraphs. *)
Definition nl : string := String "010"%char EmptyString.
Definition blank_line : string := nl ++ nl.

Section Extraction.
Context {host : Host}.

(** [container[key][0]], the entry under an [id-] key. *)
Definition entry_of (container : value) (key : string) : completion value :=
  entries <- js_get container key ;;
  js_get entries "0".

(** Lines 92-109: the classes and the total level. *)
Definition classes_body (classesData : value) (st : number * list classInfo) (key : string)
  : completion (number * list classInfo) :=
  let '(totalLevel, classesInfo) := st in
  if startsWith "id-" key then
    cls <- entry_of classesData key ;;
    className <- safeGet cls "name.0" (VStr "") ;;
    classLevel <- safeGet cls "level.0" (VStr "") ;;
    classSpec <- safeGet cls "specialization.0" (VStr "") ;;
    parsed <- parseInt classLevel ;;
    let levelNum := num_or parsed (Int 0) in
    let totalLevel' := num_add totalLevel levelNum in
    if truthy className
    then Ok (totalLevel',
             (classesInfo ++ [{| cls_name := className; cls_level := classLevel;
                                 cls_specialization := classSpec |}])%list)
    else Ok (totalLevel', classesInfo)
  else Ok st.

Definition extract_classes (char : value) : completion (number * list classInfo) :=
  classesData <- safeGet char "classes.0" (VObj []) ;;
  keys <- object_keys classesData ;;
  forEach keys (classes_body classesData) (Int 0, []).

(** Lines 114-127: the abilities present in the tree, by name. *)
Definition abilities_body (char : value) (abilities : list (string * ability)) (abilName : string)
  : completion (list (string * ability)) :=
  abil <- safeGet char ("abilities.0." ++ abilName ++ ".0") (VStr "") ;;
  if truthy abil then
    score_ <- safeGet abil "score.0" (VStr "") ;;
    bonus_ <- safeGet abil "bonus.0" (VStr "") ;;
    save_ <- safeGet abil "save.0" (VStr "") ;;
    saveprof_ <- safeGet abil "saveprof.0" (VStr "") ;;
    Ok (abilities ++ [(abilName, {| score := score_; bonus := bonus_; save := save_;
                                    saveprof := is_string "1" saveprof_ |})])%list
  else Ok abilities.

Definition extract_abilities (char : value) : completion (list (string * ability)) :=
  forEach abilityNames (abilities_body char) [].

Fixpoint ability_named (name : string) (abilities : list (string * ability)) : option ability :=
  match abilities with
  | [] => None
  | (k, a) :: rest => if String.eqb k name then Some a else ability_named name rest
  end.

(** Lines 134-141: the branches on the lower-cased class name. *)
Definition pick_ability (spellcastingAbility : option string) (name : string) : option string :=
  let className := toLowerCase name in
  if includes "wizard" className then Some "intelligence"
  else if includes "druid" className || includes "cleric" className
          || includes "ranger" className then Some "wisdom"
  else if includes "paladin" className || includes "sorcerer" className
          || includes "bard" className || includes "warlock" className
  then Some "charisma"
  else spellcastingAbility.

(** Lines 133-142: one class of the loop that picks the spellcasting ability.
    [toLowerCase] is a method of strings only. *)
Definition spellcasting_body (spellcastingAbility : option string) (cls : classInfo)
  : completion (option string) :=
  match cls_name cls with
  | VStr name => Ok (pick_ability spellcastingAbility name)
  | _ => Throw TypeError
  end.

Definition resolve_spellcastingAbility (classesInfo : list classInfo) : completion (option string) :=
  forEach classesInfo spellcasting_body None.

(** Lines 144-146. *)
Definition resolve_spellcastingMod (spellcastingAbility : option string)
    (abilities : list (string * ability)) : completion number :=
  match spellcastingAbility with
  | Some name =>
      match ability_named name abilities with
      | Some a => parsed <- parseInt (bonus a) ;; Ok (num_or parsed (Int 0))
      | None => Ok (Int 0)
      end
  | None => Ok (Int 0)
  end.

Record spellcasting : Type := {
  profBonus : number;
  spellcastingAbility : option string;
  spellcastingMod : number;
  spellSaveDC : number;
  spellAttackBonus : number
}.

(** Lines 92-150 for the spellcasting figures. *)
Definition spellcasting_of (classesInfo : list classInfo) (totalLevel : number)
    (abilities : list (string * ability)) : completion spellcasting :=
  let profBonus_ := getProficiencyBonus (VNum totalLevel) in
  ability_ <- resolve_spellcastingAbility classesInfo ;;
  mod_ <- resolve_spellcastingMod ability_ abilities ;;
  Ok {| profBonus := profBonus_;
        spellcastingAbility := ability_;
        spellcastingMod := mod_;
        spellSaveDC := num_add (num_add (Int 8) profBonus_) mod_;
        spellAttackBonus := num_add profBonus_ mod_ |}.

Definition extract_spellcasting (char : value) : completion spellcasting :=
  '(totalLevel, classesInfo) <- extract_classes char ;;
  abilities <- extract_abilities char ;;
  spellcasting_of classesInfo totalLevel abilities.

(** ** Sorting *)

(** [Array.prototype.sort] with a comparison function. The engine sorts
    stably; insertion in array order, each new element placed before the
    first one it compares below, is the stable sort, and an exception of the
    comparison function ends it. *)
Fixpoint insert_sorted {A : Type} (compare : A -> A -> completion number) (x : A) (sorted : list A)
  : completion (list A) :=
  match sorted with
  | [] => Ok [x]
  | y :: rest =>
      order <- compare x y ;;
      match order with
      | Int c =>
          if c <? 0 then Ok (x :: sorted)
          else (rest' <- insert_sorted compare x rest ;; Ok (y :: rest'))
      | NaN => rest' <- insert_sorted compare x rest ;; Ok (y :: rest')
      end
  end.

Definition array_sort {A : Type} (compare : A -> A -> completion number) (l : list A)
  : completion (list A) :=
  forEach l (fun sorted x => insert_sorted compare x sorted) [].

(** [a.localeCompare(b)]: a method of strings; the argument is converted to
    a string. *)
Definition js_localeCompare (a b : value) : completion number :=
  match a with
  | VStr x => y <- toString b ;; Ok (Int (localeCompare x y))
  | _ => Throw TypeError
  end.

(** Lines 176-189: the skills. *)
Definition skills_body (skillListData : value) (skills : list skill) (key : string)
  : completion (list skill) :=
  if startsWith "id-" key then
    skill_ <- entry_of skillListData key ;;
    name_ <- safeGet skill_ "name.0" (VStr "") ;;
    total_ <- safeGet skill_ "total.0" (VStr "") ;;
    prof_ <- safeGet skill_ "prof.0" (VStr "") ;;
    stat_ <- safeGet skill_ "stat.0" (VStr "") ;;
    Ok (skills ++ [{| sk_name := name_; sk_total := total_;
                      sk_prof := is_string "1" prof_; sk_stat := stat_ |}])%list
  else Ok skills.

Definition compare_skills (a b : skill) : completion number :=
  js_localeCompare (js_or (sk_name a) (VStr "")) (js_or (sk_name b) (VStr "")).

Definition collect_skills (char : value) : completion (list skill) :=
  skillListData <- safeGet char "skilllist.0" (VObj []) ;;
  keys <- object_keys skillListData ;;
  forEach keys (skills_body skillListData) [].

Definition extract_skills (char : value) : completion (list skill) :=
  skills <- collect_skills char ;;
  array_sort compare_skills skills.

(** Lines 323-360: the spells. *)

(** [group.includes('Spells')]: a method of strings (substring) and of
    arrays (membership). *)
Definition js_includes (v : value) (needle : string) : completion bool :=
  match v with
  | VStr s => Ok (includes needle s)
  | VArr elems => Ok (existsb (is_string needle) elems)
  | _ => Throw TypeError
  end.

(** [s.trim()] as a method call. *)
Definition js_trim (v : value) : completion string :=
  match v with
  | VStr s => Ok (trim s)
  | _ => Throw TypeError
  end.

(** The callback of [descObj.p.map]. *)
Definition paragraph_text (p : value) : completion string :=
  match p with
  | VStr s => Ok (trim s)
  | _ =>
      if truthy p then
        text <- js_get p "_" ;;
        if truthy text then js_trim text else Ok EmptyString
      else Ok EmptyString
  end.

Fixpoint map_completion {A B : Type} (f : A -> completion B) (l : list A) : completion (list B) :=
  match l with
  | [] => Ok []
  | a :: rest => b <- f a ;; bs <- map_completion f rest ;; Ok (b :: bs)
  end.

(** [descObj.p.map(callback).filter(Boolean).join('\n\n')]; [map] is a
    method of arrays. *)
Definition paragraphs_with (callback : value -> completion string) (ps : value)
  : completion string :=
  match ps with
  | VArr elems =>
      texts <- map_completion callback elems ;;
      Ok (join blank_line (filter (fun t => negb (String.eqb t "")) texts))
  | _ => Throw TypeError
  end.

Definition paragraphs_text (ps : value) : completion string :=
  paragraphs_with paragraph_text ps.

(** The callback of the inventory, lines 255-265: a paragraph may start
    with a bold fragment. *)
Definition inventory_paragraph_text (p : value) : completion string :=
  match p with
  | VStr s => Ok (trim s)
  | _ =>
      if truthy p then
        text <- js_get p "_" ;;
        if truthy text then js_trim text
        else
          b <- js_get p "b" ;;
          if truthy b then
            boldText <- js_get b "0" ;;
            if truthy boldText then
              bold <- toString boldText ;;
              Ok (bold ++ EmptyString)
            else Ok EmptyString
          else Ok EmptyString
      else Ok EmptyString
  end.

Definition spell_description (power : value) : completion string :=
  d <- js_get power "description" ;;
  descObj <- (if truthy d then js_get d "0" else Ok VNull) ;;
  if truthy descObj then
    ps <- js_get descObj "p" ;;
    if truthy ps then paragraphs_text ps else Ok EmptyString
  else Ok EmptyString.

Definition spells_body (powersData : value) (spells : list spell) (key : string)
  : completion (list spell) :=
  if startsWith "id-" key then
    power <- entry_of powersData key ;;
    group <- safeGet power "group.0" (VStr "") ;;
    level <- safeGet power "level.0" (VStr "") ;;
    school <- safeGet power "school.0" (VStr "") ;;
    in_group <- js_includes group "Spells" ;;
    if (in_group || truthy school) && truthy level then
      description <- spell_description power ;;
      name_ <- safeGet power "name.0" (VStr "") ;;
      prepared_ <- safeGet power "prepared.0" (VStr "0") ;;
      Ok (spells ++ [{| sp_name := name_; sp_level := level; sp_prepared := prepared_;
                        sp_school := school; sp_description := description |}])%list
    else Ok spells
  else Ok spells.

Definition compare_spells (a b : spell) : completion number :=
  aParsed <- parseInt (sp_level a) ;;
  let aLevel := num_or aParsed (Int 99) in
  bParsed <- parseInt (sp_level b) ;;
  let bLevel := num_or bParsed (Int 99) in
  match aLevel, bLevel with
  | Int x, Int y =>
      if negb (x =? y) then Ok (Int (x - y))
      else js_localeCompare (sp_name a) (sp_name b)
  | _, _ => Ok NaN
  end.

Definition collect_spells (char : value) : completion (list spell) :=
  powersData <- safeGet char "powers.0" (VObj []) ;;
  keys <- object_keys powersData ;;
  forEach keys (spells_body powersData) [].

Definition extract_spells (char : value) : completion (list spell) :=
  spells <- collect_spells char ;;
  array_sort compare_spells spells.

End Extraction.

(** ** Rendering of the hit points and the combat figures *)

Section Rendering.
Context {host : Host}.

(** Lines 750-801: the hit points and the combat figures, one template
    literal; each [${...}] is converted to a string in turn. *)
Definition render_vitals (hpTotal hpWounds hpTemp ac initiative speed : value)
    (profBonus meleeAttackBonus : number) : completion string :=
  s1 <- escapeHtml hpTotal ;;
  s2 <- toString hpWounds ;;
  s3 <- toString hpTemp ;;
  s4 <- escapeHtml ac ;;
  s5 <- toString (formatModifier initiative) ;;
  s6 <- escapeHtml speed ;;
  s7 <- toString (formatModifier (VNum profBonus)) ;;
  s8 <- toString (formatModifier (VNum meleeAttackBonus)) ;;
  Ok (q "                        </div>
                    </div>
                </div>
                
                <div style=`display: grid; grid-template-columns: 1fr 1fr; gap: 15px;`>
                    <div class=`section`>
                        <h2>Hit Points</h2>
                        <div class=`hp-box`>
                            <div class=`hp-total`>"
      ++ s1 ++
      q "</div>
                            <div class=`hp-current`>Current HP</div>
                            <div class=`hp-details`>
                                <div style=`display: flex; align-items: center; gap: 10px;`>
                                    <span>Wounds:</span>
                                    <input type=`text` value=`"
      ++ s2 ++
      q "` style=`width: 60px; padding: 4px; border: 1px solid #8b6914; text-align: center;`>
                                </div>
                                <div style=`display: flex; align-items: center; gap: 10px;`>
                                    <span>Temp:</span>
                                    <input type=`text` value=`"
      ++ s3 ++
      q "` style=`width: 60px; padding: 4px; border: 1px solid #8b6914; text-align: center;`>
                                </div>
                            </div>
                        </div>
                    </div>
                    
                    <div class=`section`>
                        <h2>Combat Stats</h2>
                        <div style=`text-align: center; padding: 15px;`>
                            <div style=`margin-bottom: 15px;`>
                                <strong>Armor Class:</strong>
                                <div style=`font-size: 1.8em; font-weight: bold; color: #8b6914;`>"
      ++ s4 ++
      q "</div>
                            </div>
                            <div style=`margin-bottom: 15px;`>
                                <strong>Initiative:</strong>
                                <div style=`font-size: 1.5em; font-weight: bold; color: #8b6914;`>"
      ++ s5 ++
      q "</div>
                            </div>
                            <div style=`margin-bottom: 15px;`>
                                <strong>Speed:</strong>
                                <div style=`font-size: 1.5em; font-weight: bold; color: #8b6914;`>"
      ++ s6 ++
      q " ft</div>
                            </div>
                            <div style=`margin-bottom: 15px;`>
                                <strong>Proficiency Bonus:</strong>
                                <div style=`font-size: 1.5em; font-weight: bold; color: #8b6914;`>"
      ++ s7 ++
      q "</div>
                            </div>
                            <div>
                                <strong>Melee Attack Bonus:</strong>
                                <div style=`font-size: 1.5em; font-weight: bold; color: #8b6914;`>"
      ++ s8 ++
      q "</div>
                            </div>
                        </div>
                    </div>
                    
                    <div class=`section`>
                        <h2>Features</h2>
                        <ul class=`features-list`>").

(** The variables that the template reads, as lines 153-173 compute them. *)
Record vitals : Type := {
  hpTotal : value;
  hpWounds : value;
  hpTemp : value;
  ac : value;
  speed : value;
  initiative : value;
  meleeAttackBonus : number
}.

(** [abilities.x?.bonus] *)
Definition bonus_of (name : string) (abilities : list (string * ability)) : value :=
  match ability_named name abilities with
  | Some a => bonus a
  | None => VUndefined
  end.

Definition extract_vitals (char : value) (abilities : list (string * ability))
    (profBonus_ : number) : completion vitals :=
  strMod <- parseInt (js_or (bonus_of "strength" abilities) (VNum (Int 0))) ;;
  dexMod <- parseInt (js_or (bonus_of "dexterity" abilities) (VNum (Int 0))) ;;
  let meleeAttackBonus_ := num_add strMod profBonus_ in
  hp <- safeGet char "hp.0" (VObj []) ;;
  hpTotal_ <- safeGet hp "total.0" (VStr "0") ;;
  hpWounds_ <- safeGet hp "wounds.0" (VStr "0") ;;
  hpTemp_ <- safeGet hp "temporary.0" (VStr "0") ;;
  ac_ <- safeGet char "defenses.0.ac.0.total.0" (VStr "10") ;;
  speed_ <- safeGet char "speed.0.total.0" (VStr "30") ;;
  initiative0 <- safeGet char "initiative.0.total.0" (VStr "") ;;
  let initiative_ :=
    match ability_named "dexterity" abilities with
    | Some dex => if negb (truthy initiative0) then bonus dex else initiative0
    | None => initiative0
    end in
  Ok {| hpTotal := hpTotal_; hpWounds := hpWounds_; hpTemp := hpTemp_; ac := ac_;
        speed := speed_; initiative := initiative_;
        meleeAttackBonus := meleeAttackBonus_ |}.

(** The hit points and combat figures of a character, from the tree to the
    markup: lines 82-173, then the template of lines 750-801. The steps
    in between (skills, features, feats, inventory, coins, spells and the
    markup before this template) feed other templates. *)
Definition vitals_html (characterData : value) : completion string :=
  char <- safeGet characterData "character" (VObj []) ;;
  '(totalLevel, classesInfo) <- extract_classes char ;;
  abilities <- extract_abilities char ;;
  figures <- spellcasting_of classesInfo totalLevel abilities ;;
  v <- extract_vitals char abilities (profBonus figures) ;;
  render_vitals (hpTotal v) (hpWounds v) (hpTemp v) (ac v) (initiative v) (speed v)
    (profBonus figures) (meleeAttackBonus v).

(** ** The file name of the [/generate] route *)

Definition default_filename : string := "character_sheet.html".

(** The class [a-zA-Z0-9 _-] of the regular expression. *)
Definition filename_unit (c : ascii) : bool :=
  between 97 122 c || between 65 90 c || between 48 57 c
  || Ascii.eqb c " " || Ascii.eqb c "_" || Ascii.eqb c "-".

(** Lines 1084-1096; an exception leaves the default in place. *)
Definition suggested_filename (result : value) : string :=
  let attempt :=
    found <- safeGet result "root.character.0.name.0" (VStr "") ;;
    let charName := js_or found (VStr "") in
    if truthy charName then
      s <- toString charName ;;
      let cleanName := trim (filter_string filename_unit s) in
      if truthy (VStr cleanName) then Ok (cleanName ++ ".html")
      else Ok default_filename
    else Ok default_filename in
  match attempt with
  | Ok filename => filename
  | Throw _ => default_filename
  end.

End Rendering.

(** The parsed document of a character with the given name, as the XML
    parser shapes it. *)
Definition document_named (name : string) : value :=
  VObj [("root", VObj [("character", VArr [VObj [("name", VArr [VStr name])]])])].

Fixpoint drop_spaces (s : string) : string :=
  match s with
  | String " " rest => drop_spaces rest
  | _ => s
  end.

Fixpoint string_rev (s : string) : string :=
  match s with
  | EmptyString => EmptyString
  | String c rest => string_rev rest ++ String c EmptyString
  end.

(** The file name as the design document words it: the characters outside
    the allowed set removed, the spaces around the rest removed, ".html"
    appended, and a fixed name when nothing is left. *)
Definition spec_filename (name : string) : string :=
  let stripped := filter_string filename_unit name in
  let stem := string_rev (drop_spaces (string_rev (drop_spaces stripped))) in
  if String.eqb stem "" then default_filename else stem ++ ".html".

(** The path has more than one segment. *)
Fixpoint has_dot (s : string) : bool :=
  match s with
  | EmptyString => false
  | String c rest => Ascii.eqb c "." || has_dot rest
  end.

(** The name "Mira O'Brien!!" with a diaeresis on the i (U+00EF). *)
Definition mira_name : string := "M" ++ String "239"%char "ra O'Brien!!".

Fixpoint string_forallb (p : ascii -> bool) (s : string) : bool :=
  match s with
  | EmptyString => true
  | String c rest => p c && string_forallb p rest
  end.

(** ** Escaped text *)

(** The five characters that [escapeHtml] replaces. *)
Definition html_special (c : ascii) : bool :=
  Ascii.eqb c "&" || Ascii.eqb c "<" || Ascii.eqb c ">" || Ascii.eqb c dq || Ascii.eqb c "'".

Definition entities : list string := ["&amp;"; "&lt;"; "&gt;"; "&quot;"; "&#039;"].

(** Text in which the five characters occur only as part of an entity. *)
Inductive escaped : string -> Prop :=
| escaped_empty : escaped EmptyString
| escaped_unit c s : html_special c = false -> escaped s -> escaped (String c s)
| escaped_entity e s : In e entities -> escaped s -> escaped (e ++ s).

(** The replacements of [escapeHtml], in its order. *)
Definition escape_units (s : string) : string :=
  replace_char "'" "&#039;"
    (replace_char dq "&quot;"
    (replace_char ">" "&gt;"
    (replace_char "<" "&lt;"
    (replace_char "&" "&amp;" s)))).

(** What one character becomes. *)
Definition entity_of (c : ascii) : string :=
  if Ascii.eqb c "&" then "&amp;"
  else if Ascii.eqb c "<" then "&lt;"
  else if Ascii.eqb c ">" then "&gt;"
  else if Ascii.eqb c dq then "&quot;"
  else if Ascii.eqb c "'" then "&#039;"
  else String c EmptyString.

Definition leaf (text : string) : value := VArr [VStr text].

(** A wounds entry that closes the attribute it is written into. *)
Definition wounds_payload : string := String dq "><script>alert(1)</script>".

Definition wounded_character : value :=
  VObj [("character",
         VArr [VObj [("hp", VArr [VObj [("total", leaf "27");
                                        ("wounds", leaf wounds_payload)]])]])].

(** ** The spellcasting ability, as the design document words it *)

(** A class name contains the keyword, whatever the case of its letters. *)
Definition mentions (keyword name : string) : bool :=
  includes keyword (toLowerCase name).

Definition spec_ability_of_class (name : string) : option string :=
  if mentions "wizard" name then Some "intelligence"
  else if mentions "druid" name || mentions "cleric" name || mentions "ranger" name
  then Some "wisdom"
  else if mentions "paladin" name || mentions "sorcerer" name
          || mentions "bard" name || mentions "warlock" name
  then Some "charisma"
  else None.

(** The ability of the last class of the list that has one. *)
Fixpoint spec_spellcastingAbility (names : list string) : option string :=
  match names with
  | [] => None
  | name :: rest =>
      match spec_spellcastingAbility rest with
      | Some a => Some a
      | None => spec_ability_of_class name
      end
  end.

Definition class_named (name level : string) : classInfo :=
  {| cls_name := VStr name; cls_level := VStr level; cls_specialization := VStr "" |}.

(** ** Sorted output *)

(** What the sort relies on: the collation is a total preorder, and the
    empty string comes first in it. *)
Class Collation (host : Host) : Prop := {
  collation_flip : forall a b, 0 <= localeCompare a b -> localeCompare b a <= 0;
  collation_trans : forall a b c,
      localeCompare a b <= 0 -> localeCompare b c <= 0 -> localeCompare a c <= 0;
  collation_empty : forall s, localeCompare "" s <= 0
}.

(** The name a skill is sorted by: [a.name || ''] when that is a string. *)
Definition skill_key (a : skill) : string :=
  match js_or (sk_name a) (VStr "") with
  | VStr s => s
  | _ => EmptyString
  end.

(** The name of the skill is text, or missing. *)
Definition text_named (a : skill) : bool :=
  match js_or (sk_name a) (VStr "") with
  | VStr _ => true
  | _ => false
  end.

Section SkillOrder.
Context {host : Host}.

Definition skill_le (a b : skill) : Prop :=
  localeCompare (skill_key a) (skill_key b) <= 0.

End SkillOrder.

Definition skill_entry (name total prof stat : string) : value :=
  VArr [VObj [("name", leaf name); ("total", leaf total); ("prof", leaf prof);
              ("stat", leaf stat)]].

(** A character with the skills Stealth and Acrobatics, in that order. *)
Definition character_with_two_skills : value :=
  VObj [("skilllist",
         VArr [VObj [("id-00001", skill_entry "Stealth" "5" "1" "dexterity");
                     ("id-00002", skill_entry "Acrobatics" "3" "0" "dexterity")]])].

(** The order of the default collation of the runtime on words of unaccented
    Latin letters: the letters are compared without their case first; of
    two words that differ in case only, the one with the lower case at the
    first difference comes first. *)
Definition collate_letters (a b : string) : Z :=
  if compare_units (toLowerCase a) (toLowerCase b) =? 0 then - compare_units a b
  else compare_units (toLowerCase a) (toLowerCase b).

(** A host with that collation. *)
Definition letters_host : Host := {|
  inherited := fun _ _ => None;
  objectToString := fun _ => Some "[object Object]";
  localeCompare := collate_letters
|}.

(** A character with the skills Banana and apple, in that order. *)
Definition character_with_Banana_apple : value :=
  VObj [("skilllist",
         VArr [VObj [("id-00001", skill_entry "Banana" "1" "0" "strength");
                     ("id-00002", skill_entry "apple" "2" "0" "strength")]])].

Definition skill_of (name total stat : string) : skill :=
  {| sk_name := VStr name; sk_total := VStr total; sk_prof := false; sk_stat := VStr stat |}.

Definition power_entry (name level : string) : value :=
  VArr [VObj [("name", leaf name); ("level", leaf level); ("group", leaf "Spells")]].

(** A character with the spells Z of level 1, A of level 0 and A of level 1,
    in that order. *)
Definition character_with_three_spells : value :=
  VObj [("powers",
         VArr [VObj [("id-00001", power_entry "Z" "1");
                     ("id-00002", power_entry "A" "0");
                     ("id-00003", power_entry "A" "1")]])].

Definition spell_of (name level : string) : spell :=
  {| sp_name := VStr name; sp_level := VStr level; sp_prepared := VStr "0";
     sp_school := VStr ""; sp_description := "" |}.

(** * The store: objects that can be shared and changed

    The functions above compute on trees held by value. To state what
    the code changes, the same steps are written here over a store of
    arrays and objects held by reference: the parsed tree is a part of the
    store, an array or object literal allocates a new cell, and [push], a
    property assignment and [sort] write the cell they are applied to. The
    construction of the markup, a local string, is left out: what the
    rendering does to objects (the grouping of the spells by level) is kept. *)

Module Store.

Inductive rvalue : Type :=
| Const (v : value)   (** a primitive, or an object of the runtime *)
| Ref (l : nat).      (** the array or object at an address of the store *)

Inductive cell : Type :=
| Arr (elems : list rvalue)
| Obj (props : list (string * rvalue)).

Definition store : Type := list cell.

(** A computation reads and writes the store and returns or throws. *)
Definition M (A : Type) : Type := store -> completion (A * store).

Definition ret {A : Type} (a : A) : M A := fun st => Ok (a, st).

Definition mbind {A B : Type} (m : M A) (f : A -> M B) : M B :=
  fun st => match m st with
            | Ok (a, st') => f a st'
            | Throw e => Throw e
            end.

Definition lift {A : Type} (c : completion A) : M A :=
  fun st => match c with
            | Ok a => Ok (a, st)
            | Throw e => Throw e
            end.

Definition throw {A : Type} (e : string) : M A := fun _ => Throw e.

Notation "x <~ m ;; f" := (mbind m (fun x => f))
  (at level 61, m at next level, right associativity).

Definition load (l : nat) : M cell :=
  fun st => match nth_error st l with
            | Some c => Ok (c, st)
            | None => Throw "dangling reference"
            end.

(** A literal [[]] or [{...}]: a new cell, at an address not in use. *)
Definition alloc (c : cell) : M rvalue :=
  fun st => Ok (Ref (List.length st), (st ++ [c])%list).

Fixpoint replace_nth {A : Type} (n : nat) (a : A) (l : list A) : list A :=
  match l, n with
  | [], _ => []
  | _ :: rest, O => a :: rest
  | x :: rest, S n' => x :: replace_nth n' a rest
  end.

Definition write (l : nat) (c : cell) : M unit :=
  fun st => if (l <? List.length st)%nat then Ok (tt, replace_nth l c st)
            else Throw "dangling reference".

Fixpoint forEach {A S : Type} (l : list A) (body : S -> A -> M S) (s : S) : M S :=
  match l with
  | [] => ret s
  | a :: rest => s' <~ body s a ;; forEach rest body s'
  end.

Definition truthy_ref (x : rvalue) : bool :=
  match x with
  | Const v => truthy v
  | Ref _ => true
  end.

Definition typeof_object_ref (x : rvalue) : bool :=
  match x with
  | Const v => typeof_object v
  | Ref _ => true
  end.

Definition or_ref (a b : rvalue) : rvalue := if truthy_ref a then a else b.

Definition is_string_ref (s : string) (x : rvalue) : bool :=
  match x with
  | Const v => is_string s v
  | Ref _ => false
  end.

Fixpoint assoc_ref (key : string) (props : list (string * rvalue)) : option rvalue :=
  match props with
  | [] => None
  | (k, x) :: rest => if String.eqb k key then Some x else assoc_ref key rest
  end.

(** [key] comes before [k] in the order of the properties: the index keys
    first, in ascending order, then the other keys as they were added. *)
Definition key_before (key k : string) : bool :=
  match array_index key, array_index k with
  | Some i, Some j => (i <? j)%nat
  | Some _, None => true
  | None, _ => false
  end.

(** [props] with [key] set to [x]: in place when the key exists, at its
    place in the order of the properties otherwise. *)
Fixpoint set_assoc (key : string) (x : rvalue) (props : list (string * rvalue))
  : list (string * rvalue) :=
  match props with
  | [] => [(key, x)]
  | (k, y) :: rest =>
      if String.eqb k key then (k, x) :: rest
      else if key_before key k then (key, x) :: (k, y) :: rest
      else (k, y) :: set_assoc key x rest
  end.

Definition own (c : cell) (key : string) : option rvalue :=
  match c with
  | Arr elems =>
      if String.eqb key "length" then Some (Const (VNum (Int (Z.of_nat (List.length elems)))))
      else match array_index key with
           | Some i => nth_error elems i
           | None => None
           end
  | Obj props => assoc_ref key props
  end.

Fixpoint all_some {A : Type} (l : list (option A)) : option (list A) :=
  match l with
  | [] => Some []
  | Some a :: rest => option_map (cons a) (all_some rest)
  | None :: _ => None
  end.

(** The tree below a value, if it is one: [None] when following the
    references takes more than [fuel] steps or leaves the store. *)
Fixpoint reify (fuel : nat) (st : store) (x : rvalue) : option value :=
  match x with
  | Const v => Some v
  | Ref l =>
      match fuel with
      | O => None
      | S fuel' =>
          match nth_error st l with
          | Some (Arr elems) =>
              option_map VArr (all_some (map (reify fuel' st) elems))
          | Some (Obj props) =>
              option_map VObj
                (all_some (map (fun kx => option_map (pair (fst kx)) (reify fuel' st (snd kx)))
                               props))
          | None => None
          end
      end
  end.

(** The value of [x] for a computation that only looks at it (a conversion
    to a string, a comparison). A tree of the store is not deeper than the
    store is large. *)
Definition read (x : rvalue) : M value :=
  fun st => match reify (S (List.length st)) st x with
            | Some v => Ok (v, st)
            | None => Throw "cyclic value"
            end.

Section WithHost.
Context {host : Host}.

Definition lookup (c : cell) (key : string) : option rvalue :=
  match own c key with
  | Some x => Some x
  | None => option_map Const (inherited (match c with Arr _ => KArray | Obj _ => KObject end) key)
  end.

(** [key in x] *)
Definition has (key : string) (x : rvalue) : M bool :=
  match x with
  | Ref l => c <~ load l ;; ret (match lookup c key with Some _ => true | None => false end)
  | Const v => lift (js_in key v)
  end.

(** [x[key]] *)
Definition get (x : rvalue) (key : string) : M rvalue :=
  match x with
  | Ref l => c <~ load l ;; ret (match lookup c key with Some y => y | None => Const VUndefined end)
  | Const v => y <~ lift (js_get v key) ;; ret (Const y)
  end.

(** [Object.keys(x)] *)
Definition keys (x : rvalue) : M (list string) :=
  match x with
  | Ref l =>
      c <~ load l ;;
      ret (match c with
           | Arr elems => index_keys (List.length elems)
           | Obj props => map fst props
           end)
  | Const v => lift (object_keys v)
  end.

(** The elements of an array, for [forEach] and [sort]. *)
Definition elements (x : rvalue) : M (list rvalue) :=
  match x with
  | Ref l => c <~ load l ;; match c with
                            | Arr elems => ret elems
                            | Obj _ => throw TypeError
                            end
  | Const _ => throw TypeError
  end.

(** [target.push(x)] *)
Definition push (target x : rvalue) : M unit :=
  match target with
  | Ref l => c <~ load l ;; match c with
                            | Arr elems => write l (Arr (elems ++ [x]))
                            | Obj _ => throw TypeError
                            end
  | Const _ => throw TypeError
  end.

(** [target[key] = x], for a target that is an object (the code assigns to
    the properties of its own object literals only). *)
Definition assign (target : rvalue) (key : string) (x : rvalue) : M unit :=
  match target with
  | Ref l => c <~ load l ;; match c with
                            | Obj props => write l (Obj (set_assoc key x props))
                            | Arr _ => throw "assignment to an array"
                            end
  | Const _ => throw TypeError
  end.

(** ** [safeGet] *)

(** The [while] loop of [safeGet]; it has no end on an array that holds
    itself, which the fuel stands for. *)
Fixpoint unwrap_loop (fuel : nat) (result : rvalue) : M rvalue :=
  match result with
  | Const v => ret (Const (unwrap v))
  | Ref l =>
      match fuel with
      | O => throw "endless loop"
      | S fuel' =>
          c <~ load l ;;
          match c with
          | Arr [inner] => unwrap_loop fuel' inner
          | _ => ret result
          end
      end
  end.

Definition safeGet_finish (result0 defaultValue : rvalue) : M rvalue :=
  result <~ (fun st => unwrap_loop (S (List.length st)) result0 st) ;;
  if truthy_ref result && typeof_object_ref result then
    has_ <~ has "_" result ;;
    if has_ then get result "_"
    else
      has_t <~ has "$t" result ;;
      if has_t then get result "$t"
      else ret (or_ref result defaultValue)
  else ret (or_ref result defaultValue).

Fixpoint safeGet_keys (path_keys : list string) (result defaultValue : rvalue) : M rvalue :=
  match path_keys with
  | [] => safeGet_finish result defaultValue
  | key :: rest =>
      if truthy_ref result && typeof_object_ref result then
        found <~ has key result ;;
        if found then
          next <~ get result key ;;
          safeGet_keys rest next defaultValue
        else ret defaultValue
      else ret defaultValue
  end.

Definition safeGet (obj : rvalue) (path : string) (defaultValue : rvalue) : M rvalue :=
  safeGet_keys (split_on "." path) obj defaultValue.

End WithHost.

(** ** [generateCharacterHTML] on the store *)

Section Generate.
Context {host : Host}.

Definition str (s : string) : rvalue := Const (VStr s).

Definition entry_of (container : rvalue) (key : string) : M rvalue :=
  entries <~ get container key ;;
  get entries "0".

Definition parseInt_ref (x : rvalue) : M number :=
  v <~ read x ;; lift (parseInt v).

Definition toString_ref (x : rvalue) : M string :=
  v <~ read x ;; lift (toString v).

(** [safeGet(obj, path, {})]: the default is a new object. *)
Definition safeGet_object (obj : rvalue) (path : string) : M rvalue :=
  empty <~ alloc (Obj []) ;;
  safeGet obj path empty.

(** [a.localeCompare(b)] *)
Definition localeCompare_ref (a b : rvalue) : M number :=
  match a with
  | Const (VStr x) => y <~ toString_ref b ;; ret (Int (localeCompare x y))
  | _ => throw TypeError
  end.

Fixpoint insert_sorted (compare : rvalue -> rvalue -> M number) (x : rvalue)
    (sorted : list rvalue) : M (list rvalue) :=
  match sorted with
  | [] => ret [x]
  | y :: rest =>
      order <~ compare x y ;;
      match order with
      | Int c =>
          if c <? 0 then ret (x :: sorted)
          else (rest' <~ insert_sorted compare x rest ;; ret (y :: rest'))
      | NaN => rest' <~ insert_sorted compare x rest ;; ret (y :: rest')
      end
  end.

(** [target.sort(compare)]: the array is sorted in place. *)
Definition sort (target : rvalue) (compare : rvalue -> rvalue -> M number) : M unit :=
  elems <~ elements target ;;
  sorted <~ forEach elems (fun acc x => insert_sorted compare x acc) [] ;;
  match target with
  | Ref l => write l (Arr sorted)
  | Const _ => throw TypeError
  end.

(** Lines 97-109. *)
Definition classes_body (classesInfo classesData : rvalue) (totalLevel : number) (key : string)
  : M number :=
  if startsWith "id-" key then
    cls <~ entry_of classesData key ;;
    className <~ safeGet cls "name.0" (str "") ;;
    classLevel <~ safeGet cls "level.0" (str "") ;;
    classSpec <~ safeGet cls "specialization.0" (str "") ;;
    parsed <~ parseInt_ref classLevel ;;
    let totalLevel' := num_add totalLevel (num_or parsed (Int 0)) in
    if truthy_ref className then
      info <~ alloc (Obj [("name", className); ("level", classLevel);
                          ("specialization", classSpec)]) ;;
      _ <~ push classesInfo info ;;
      ret totalLevel'
    else ret totalLevel'
  else ret totalLevel.

(** Lines 117-127. *)
Definition abilities_body (char abilities : rvalue) (_ : unit) (abilName : string) : M unit :=
  abil <~ safeGet char ("abilities.0." ++ abilName ++ ".0") (str "") ;;
  if truthy_ref abil then
    score_ <~ safeGet abil "score.0" (str "") ;;
    bonus_ <~ safeGet abil "bonus.0" (str "") ;;
    save_ <~ safeGet abil "save.0" (str "") ;;
    saveprof_ <~ safeGet abil "saveprof.0" (str "") ;;
    record <~ alloc (Obj [("score", score_); ("bonus", bonus_); ("save", save_);
                          ("saveprof", Const (VBool (is_string_ref "1" saveprof_)))]) ;;
    assign abilities abilName record
  else ret tt.

(** Lines 133-142. *)
Definition spellcasting_body (spellcastingAbility : option string) (cls : rvalue)
  : M (option string) :=
  name <~ get cls "name" ;;
  match name with
  | Const (VStr s) => ret (pick_ability spellcastingAbility s)
  | _ => throw TypeError
  end.

(** Lines 144-146. *)
Definition spellcastingMod_of (spellcastingAbility : option string) (abilities : rvalue)
  : M number :=
  match spellcastingAbility with
  | Some name =>
      stored <~ get abilities name ;;
      if truthy_ref stored then
        stored_bonus <~ get stored "bonus" ;;
        parsed <~ parseInt_ref stored_bonus ;;
        ret (num_or parsed (Int 0))
      else ret (Int 0)
  | None => ret (Int 0)
  end.

(** [abilities.x?.bonus] *)
Definition optional_bonus (abilities : rvalue) (name : string) : M rvalue :=
  a <~ get abilities name ;;
  match a with
  | Const VUndefined | Const VNull => ret (Const VUndefined)
  | _ => get a "bonus"
  end.

(** Lines 178-188. *)
Definition skills_body (skills skillListData : rvalue) (_ : unit) (key : string) : M unit :=
  if startsWith "id-" key then
    skill_ <~ entry_of skillListData key ;;
    name_ <~ safeGet skill_ "name.0" (str "") ;;
    total_ <~ safeGet skill_ "total.0" (str "") ;;
    prof_ <~ safeGet skill_ "prof.0" (str "") ;;
    stat_ <~ safeGet skill_ "stat.0" (str "") ;;
    record <~ alloc (Obj [("name", name_); ("total", total_);
                          ("prof", Const (VBool (is_string_ref "1" prof_)));
                          ("stat", stat_)]) ;;
    push skills record
  else ret tt.

Definition compare_skills (a b : rvalue) : M number :=
  aName <~ get a "name" ;;
  bName <~ get b "name" ;;
  localeCompare_ref (or_ref aName (str "")) (or_ref bName (str "")).

(** The description of an entry: [entry.field ? entry.field[0] : null],
    then the paragraphs under [p]. *)
Definition description_of (entry : rvalue) (field : string)
    (callback : value -> completion string) : M string :=
  d <~ get entry field ;;
  textObj <~ (if truthy_ref d then get d "0" else ret (Const VNull)) ;;
  if truthy_ref textObj then
    ps <~ get textObj "p" ;;
    if truthy_ref ps then (v <~ read ps ;; lift (paragraphs_with callback v))
    else ret EmptyString
  else ret EmptyString.

(** Lines 194-215. *)
Definition features_body (features featureListData : rvalue) (_ : unit) (key : string) : M unit :=
  if startsWith "id-" key then
    feature <~ entry_of featureListData key ;;
    description <~ description_of feature "text" paragraph_text ;;
    name_ <~ safeGet feature "name.0" (str "") ;;
    level_ <~ safeGet feature "level.0" (str "") ;;
    record <~ alloc (Obj [("name", name_); ("level", level_);
                          ("description", str description)]) ;;
    push features record
  else ret tt.

(** Lines 220-242. *)
Definition feats_body (feats featListData : rvalue) (_ : unit) (key : string) : M unit :=
  if startsWith "id-" key then
    feat <~ entry_of featListData key ;;
    description <~ description_of feat "text" paragraph_text ;;
    name_ <~ safeGet feat "name.0" (str "") ;;
    category_ <~ safeGet feat "category.0" (str "") ;;
    level_ <~ safeGet feat "level.0" (str "") ;;
    record <~ alloc (Obj [("name", name_); ("category", category_); ("level", level_);
                          ("description", str description)]) ;;
    push feats record
  else ret tt.

(** Lines 247-275. *)
Definition inventory_body (inventory invListData : rvalue) (_ : unit) (key : string) : M unit :=
  if startsWith "id-" key then
    item <~ entry_of invListData key ;;
    description <~ description_of item "description" inventory_paragraph_text ;;
    name_ <~ safeGet item "name.0" (str "") ;;
    count_ <~ safeGet item "count.0" (str "1") ;;
    cost_ <~ safeGet item "cost.0" (str "") ;;
    record <~ alloc (Obj [("name", name_); ("count", count_); ("cost", cost_);
                          ("description", str description)]) ;;
    push inventory record
  else ret tt.

(** Lines 280-289. *)
Definition coins_body (coins coinsData : rvalue) (_ : unit) (key : string) : M unit :=
  if startsWith "id-" key then
    coin <~ entry_of coinsData key ;;
    coinName <~ safeGet coin "name.0" (str "") ;;
    coinAmount <~ safeGet coin "amount.0" (str "0") ;;
    if truthy_ref coinName then
      property <~ toString_ref coinName ;;
      assign coins property coinAmount
    else ret tt
  else ret tt.

(** Lines 294-304, for one [i]. *)
Definition spellSlots_body (spellSlots powermeta : rvalue) (_ : unit) (i : nat) : M unit :=
  let slotKey := "spellslots" ++ string_of_Z (Z.of_nat i) in
  entries <~ get powermeta slotKey ;;
  slot <~ (if truthy_ref entries then get entries "0" else ret entries) ;;
  if truthy_ref slot then
    maxSlots <~ safeGet slot "max.0" (str "0") ;;
    usedSlots <~ safeGet slot "used.0" (str "0") ;;
    if negb (is_string_ref "0" maxSlots) then
      record <~ alloc (Obj [("max", maxSlots); ("used", usedSlots)]) ;;
      assign spellSlots (string_of_Z (Z.of_nat i)) record
    else ret tt
  else ret tt.

(** Lines 309-321: the variable [sorceryPoints]. *)
Definition sorceryPoints_body (powersData : rvalue) (sorceryPoints : rvalue) (key : string)
  : M rvalue :=
  if startsWith "id-" key then
    power <~ entry_of powersData key ;;
    powerName <~ safeGet power "name.0" (str "") ;;
    if is_string_ref "Sorcery Points" powerName then
      max <~ safeGet power "prepared.0" (str "0") ;;
      used <~ safeGet power "locked.0" (str "0") ;;
      if negb (is_string_ref "0" max) then alloc (Obj [("max", max); ("used", used)])
      else ret sorceryPoints
    else ret sorceryPoints
  else ret sorceryPoints.

(** [group.includes('Spells')] *)
Definition includes_ref (x : rvalue) (needle : string) : M bool :=
  match x with
  | Const v => lift (js_includes v needle)
  | Ref _ =>
      elems <~ elements x ;;
      ret (existsb (is_string_ref needle) elems)
  end.

(** Lines 325-354. *)
Definition spells_body (spells powersData : rvalue) (_ : unit) (key : string) : M unit :=
  if startsWith "id-" key then
    power <~ entry_of powersData key ;;
    group <~ safeGet power "group.0" (str "") ;;
    level <~ safeGet power "level.0" (str "") ;;
    school <~ safeGet power "school.0" (str "") ;;
    in_group <~ includes_ref group "Spells" ;;
    if (in_group || truthy_ref school) && truthy_ref level then
      description <~ description_of power "description" paragraph_text ;;
      name_ <~ safeGet power "name.0" (str "") ;;
      prepared_ <~ safeGet power "prepared.0" (str "0") ;;
      record <~ alloc (Obj [("name", name_); ("level", level); ("prepared", prepared_);
                            ("school", school); ("description", str description)]) ;;
      push spells record
    else ret tt
  else ret tt.

Definition compare_spells (a b : rvalue) : M number :=
  aLevelText <~ get a "level" ;;
  aParsed <~ parseInt_ref aLevelText ;;
  bLevelText <~ get b "level" ;;
  bParsed <~ parseInt_ref bLevelText ;;
  match num_or aParsed (Int 99), num_or bParsed (Int 99) with
  | Int x, Int y =>
      if negb (x =? y) then ret (Int (x - y))
      else (aName <~ get a "name" ;; bName <~ get b "name" ;; localeCompare_ref aName bName)
  | _, _ => ret NaN
  end.

(** Lines 922 and 993-997: the comparison functions of the two sorted key
    lists of the rendering. *)
Definition compare_slot_levels (a b : rvalue) : M number :=
  aParsed <~ parseInt_ref a ;;
  bParsed <~ parseInt_ref b ;;
  ret (num_sub aParsed bParsed).

Definition compare_spell_levels (a b : rvalue) : M number :=
  if is_string_ref "Cantrip" a then ret (Int (-1))
  else if is_string_ref "Cantrip" b then ret (Int 1)
  else compare_slot_levels a b.

(** Lines 987-991: one spell of the grouping by level. *)
Definition spellsByLevel_body (spellsByLevel : rvalue) (_ : unit) (spell_ : rvalue) : M unit :=
  spellLevel <~ get spell_ "level" ;;
  let level := if truthy_ref spellLevel && negb (is_string_ref "0" spellLevel)
               then spellLevel else str "Cantrip" in
  property <~ toString_ref level ;;
  existing <~ get spellsByLevel property ;;
  _ <~ (if negb (truthy_ref existing)
        then (bucket <~ alloc (Arr []) ;; assign spellsByLevel property bucket)
        else ret tt) ;;
  bucket <~ get spellsByLevel property ;;
  push bucket spell_.

(** The objects that the function has built when it returns. *)
Record view : Type := {
  v_classesInfo : rvalue;
  v_abilities : rvalue;
  v_skills : rvalue;
  v_features : rvalue;
  v_feats : rvalue;
  v_inventory : rvalue;
  v_coins : rvalue;
  v_spellSlots : rvalue;
  v_sorceryPoints : rvalue;
  v_spells : rvalue;
  v_spellsByLevel : rvalue
}.

(** The list [xs] under its keys, as [Object.keys] returns it. *)
Definition key_array (xs : list string) : M rvalue := alloc (Arr (map str xs)).

Definition generateCharacterHTML (characterData : rvalue) : M view :=
  char <~ safeGet_object characterData "character" ;;
  name <~ safeGet char "name.0" (str "") ;;
  race <~ safeGet char "race.0" (str "") ;;
  subrace <~ safeGet char "subrace.0" (str "") ;;
  alignment <~ safeGet char "alignment.0" (str "") ;;
  background <~ safeGet char "background.0" (str "") ;;
  (* classes and total level *)
  classesInfo <~ alloc (Arr []) ;;
  classesData <~ safeGet_object char "classes.0" ;;
  classKeys <~ keys classesData ;;
  totalLevel <~ forEach classKeys (classes_body classesInfo classesData) (Int 0) ;;
  let profBonus_ := getProficiencyBonus (VNum totalLevel) in
  (* abilities *)
  abilities <~ alloc (Obj []) ;;
  _ <~ alloc (Arr (map str abilityNames)) ;;
  _ <~ forEach abilityNames (abilities_body char abilities) tt ;;
  (* spellcasting *)
  classes <~ elements classesInfo ;;
  spellcastingAbility_ <~ forEach classes spellcasting_body None ;;
  spellcastingMod_ <~ spellcastingMod_of spellcastingAbility_ abilities ;;
  strBonus <~ optional_bonus abilities "strength" ;;
  strMod <~ parseInt_ref (or_ref strBonus (Const (VNum (Int 0)))) ;;
  dexBonus <~ optional_bonus abilities "dexterity" ;;
  dexMod <~ parseInt_ref (or_ref dexBonus (Const (VNum (Int 0)))) ;;
  (* hit points, armor class, speed, initiative *)
  hp <~ safeGet_object char "hp.0" ;;
  hpTotal_ <~ safeGet hp "total.0" (str "0") ;;
  hpWounds_ <~ safeGet hp "wounds.0" (str "0") ;;
  hpTemp_ <~ safeGet hp "temporary.0" (str "0") ;;
  ac_ <~ safeGet char "defenses.0.ac.0.total.0" (str "10") ;;
  speed_ <~ safeGet char "speed.0.total.0" (str "30") ;;
  initiative0 <~ safeGet char "initiative.0.total.0" (str "") ;;
  dexterity <~ get abilities "dexterity" ;;
  initiative_ <~ (if negb (truthy_ref initiative0) && truthy_ref dexterity
                  then get dexterity "bonus" else ret initiative0) ;;
  (* skills *)
  skills <~ alloc (Arr []) ;;
  skillListData <~ safeGet_object char "skilllist.0" ;;
  skillKeys <~ keys skillListData ;;
  _ <~ forEach skillKeys (skills_body skills skillListData) tt ;;
  _ <~ sort skills compare_skills ;;
  (* features, feats, inventory *)
  features <~ alloc (Arr []) ;;
  featureListData <~ safeGet_object char "featurelist.0" ;;
  featureKeys <~ keys featureListData ;;
  _ <~ forEach featureKeys (features_body features featureListData) tt ;;
  feats <~ alloc (Arr []) ;;
  featListData <~ safeGet_object char "featlist.0" ;;
  featKeys <~ keys featListData ;;
  _ <~ forEach featKeys (feats_body feats featListData) tt ;;
  inventory <~ alloc (Arr []) ;;
  invListData <~ safeGet_object char "inventorylist.0" ;;
  invKeys <~ keys invListData ;;
  _ <~ forEach invKeys (inventory_body inventory invListData) tt ;;
  (* coins *)
  coins <~ alloc (Obj []) ;;
  coinsData <~ safeGet_object char "coins.0" ;;
  coinKeys <~ keys coinsData ;;
  _ <~ forEach coinKeys (coins_body coins coinsData) tt ;;
  (* spell slots *)
  spellSlots <~ alloc (Obj []) ;;
  powermeta <~ safeGet_object char "powermeta.0" ;;
  _ <~ forEach (seq 1 9) (spellSlots_body spellSlots powermeta) tt ;;
  (* sorcery points and spells *)
  powersData <~ safeGet_object char "powers.0" ;;
  powerKeys <~ keys powersData ;;
  sorceryPoints <~ forEach powerKeys (sorceryPoints_body powersData) (Const VNull) ;;
  spells <~ alloc (Arr []) ;;
  powerKeys' <~ keys powersData ;;
  _ <~ forEach powerKeys' (spells_body spells powersData) tt ;;
  _ <~ sort spells compare_spells ;;
  (* the rendering: the sorted levels of the spell slots *)
  slotKeys <~ keys spellSlots ;;
  _ <~ (match slotKeys with
        | [] => ret tt
        | _ => levels <~ key_array slotKeys ;; sort levels compare_slot_levels
        end) ;;
  (* the rendering: the spells grouped by level *)
  spellList <~ elements spells ;;
  spellsByLevel <~
    (match spellList with
     | [] => ret (Const VUndefined)
     | _ =>
         grouped <~ alloc (Obj []) ;;
         _ <~ forEach spellList (spellsByLevel_body grouped) tt ;;
         levelKeys <~ keys grouped ;;
         levelOrder <~ key_array levelKeys ;;
         _ <~ sort levelOrder compare_spell_levels ;;
         ret grouped
     end) ;;
  ret {| v_classesInfo := classesInfo; v_abilities := abilities; v_skills := skills;
         v_features := features; v_feats := feats; v_inventory := inventory;
         v_coins := coins; v_spellSlots := spellSlots; v_sorceryPoints := sorceryPoints;
         v_spells := spells; v_spellsByLevel := spellsByLevel |}.

End Generate.


(** ** What a computation leaves unchanged *)

(** A computation that leaves the store as it is. *)
Definition readonly {A : Type} (m : M A) : Prop :=
  forall st a st', m st = Ok (a, st') -> st' = st.

(** A computation that leaves the first [n] cells of the store as they
    are: it writes only cells allocated after them. *)
Definition preserves (n : nat) {A : Type} (m : M A) : Prop :=
  forall st a st', (n <= List.length st)%nat -> m st = Ok (a, st') ->
                   (n <= List.length st')%nat /\ firstn n st' = firstn n st.

Definition fresh_values (n : nat) (props : list (string * rvalue)) : Prop :=
  Forall (fun kx => match snd kx with
                    | Ref l => (n <= l)%nat
                    | Const _ => True
                    end) props.

(** The cell at [l] is an object whose properties hold no reference to the
    first [n] cells. *)
Definition holds_fresh (n l : nat) (st : store) : Prop :=
  exists props, nth_error st l = Some (Obj props) /\ fresh_values n props.

Definition preserves_with (n : nat) (inv : store -> Prop) {A : Type} (m : M A) : Prop :=
  forall st a st', (n <= List.length st)%nat -> inv st -> m st = Ok (a, st') ->
                   (n <= List.length st')%nat /\ firstn n st' = firstn n st /\ inv st'.

(** The tree [v] put into the store, as the parser leaves it there: a cell
    for every array and object, children first. *)
Fixpoint intern (v : value) : M rvalue :=
  match v with
  | VArr elems =>
      refs <~ (fix items (l : list value) : M (list rvalue) :=
                 match l with
                 | [] => ret []
                 | e :: rest => r <~ intern e ;; rs <~ items rest ;; ret (r :: rs)
                 end) elems ;;
      alloc (Arr refs)
  | VObj props =>
      refs <~ (fix fields (l : list (string * value)) : M (list (string * rvalue)) :=
                 match l with
                 | [] => ret []
                 | (k, e) :: rest => r <~ intern e ;; rs <~ fields rest ;; ret ((k, r) :: rs)
                 end) props ;;
      alloc (Obj refs)
  | _ => ret (Const v)
  end.

End Store.

(** A character with a class, an ability, two skills, a coin, a spell slot
    and two spells. *)
Definition sample_character : value :=
  VObj [("character",
    VArr [VObj [
      ("name", leaf "Mira");
      ("classes", VArr [VObj [("id-00001",
         VArr [VObj [("name", leaf "Warlock"); ("level", leaf "5")]])]]);
      ("abilities", VArr [VObj [("charisma",
         VArr [VObj [("score", leaf "16"); ("bonus", leaf "3"); ("save", leaf "5");
                     ("saveprof", leaf "1")]])]]);
      ("hp", VArr [VObj [("total", leaf "27"); ("wounds", leaf "4")]]);
      ("skilllist", VArr [VObj [("id-00001", skill_entry "Stealth" "5" "1" "dexterity");
                                ("id-00002", skill_entry "Acrobatics" "3" "0" "dexterity")]]);
      ("coins", VArr [VObj [("id-00001",
         VArr [VObj [("name", leaf "GP"); ("amount", leaf "12")]])]]);
      ("powermeta", VArr [VObj [("spellslots1",
         VArr [VObj [("max", leaf "2"); ("used", leaf "1")]])]]);
      ("powers", VArr [VObj [("id-00001", power_entry "Hex" "1");
                             ("id-00002", power_entry "Eldritch Blast" "0")]])
    ]])].

(** The name of the sample character, read on the tree held by value. *)
Definition sample_name_by_value : completion value :=
  safeGet (host := plain_host) sample_character "character.0.name.0" (VStr "").

(** * Further code of [server.js] *)

(** The integers that the numbers of the code hold exactly and print digit
    by digit ([Number.isSafeInteger]). *)
Definition safe_integer (n : Z) : Prop := - 2 ^ 53 < n < 2 ^ 53.

(** The first and the last code unit of a string. *)
Definition first_unit (s : string) : option ascii :=
  match s with
  | EmptyString => None
  | String c _ => Some c
  end.

Fixpoint last_unit (s : string) : option ascii :=
  match s with
  | EmptyString => None
  | String c rest =>
      match last_unit rest with
      | Some d => Some d
      | None => Some c
      end
  end.

(** Neither end of the string is white space. *)
Definition trimmed (s : string) : bool :=
  match first_unit s, last_unit s with
  | Some a, Some b => negb (is_space a) && negb (is_space b)
  | _, _ => true
  end.

(** ** The upload filter (lines 13-19) *)

(** [s.endsWith(suffix)]: the end of [s] of the length of [suffix] is
    [suffix]. *)
Fixpoint endsWith (suffix s : string) : bool :=
  String.eqb s suffix ||
  match s with
  | EmptyString => false
  | String _ rest => endsWith suffix rest
  end.

(** [fileFilter]: the callback is given [true], or the error. *)
Definition fileFilter (originalname : string) : completion bool :=
  if endsWith ".xml" (toLowerCase originalname) then Ok true
  else Throw "Only XML files are allowed".

(** ** Orders of extracted entries *)

(** [xs] is [ys] with some elements left out. *)
Inductive subseq {A : Type} : list A -> list A -> Prop :=
| subseq_nil : subseq [] []
| subseq_skip x xs ys : subseq xs ys -> subseq xs (x :: ys)
| subseq_take x xs ys : subseq xs ys -> subseq (x :: xs) (x :: ys).

(** What the loop over the classes keeps after [i] keys whose levels are at
    most [bound]: the total level is an integer of at most [i] times
    [bound], and the listed classes have names. *)
Definition classes_within (bound : Z) (i : nat) (st : number * list classInfo) : Prop :=
  (exists n, fst st = Int n /\ Z.abs n <= Z.of_nat i * bound)
  /\ Forall (fun c => truthy (cls_name c) = true) (snd st).

Section Bounds.
Context {host : Host}.

(** Lines 99, 101 and 103 for one key: the level of the class, as the loop
    reads and parses it. *)
Definition class_level (classesData : value) (key : string) : completion number :=
  cls <- entry_of classesData key ;;
  classLevel <- safeGet cls "level.0" (VStr "") ;;
  parseInt classLevel.

(** The class levels of the character that are integers are at most
    [bound], and the classes are few enough for the sum of their levels to
    be a safe integer. *)
Definition levels_within (bound : Z) (char : value) : Prop :=
  0 <= bound
  /\ forall classesData keys,
       safeGet char "classes.0" (VObj []) = Ok classesData ->
       object_keys classesData = Ok keys ->
       Z.of_nat (List.length keys) * bound < 2 ^ 53
       /\ Forall (fun key =>
                    startsWith "id-" key = true ->
                    forall k, class_level classesData key = Ok (Int k) -> Z.abs k <= bound)
            keys.

(** The ability bonuses of the character that are integers are below
    2^52. *)
Definition bonuses_within (char : value) : Prop :=
  forall abilities name a k,
    extract_abilities char = Ok abilities ->
    ability_named name abilities = Some a ->
    parseInt (bonus a) = Ok (Int k) ->
    Z.abs k < 2 ^ 52.

(** Lines 117 and 118: the test of the loop over the ability names. *)
Definition has_ability (char : value) (abilName : string) : bool :=
  match safeGet char ("abilities.0." ++ abilName ++ ".0") (VStr "") with
  | Ok abil => truthy abil
  | Throw _ => false
  end.

(** Lines 119-124: the stored record of an ability, read from its
    element. *)
Definition ability_of (abil : value) (a : ability) : Prop :=
  safeGet abil "score.0" (VStr "") = Ok (score a)
  /\ safeGet abil "bonus.0" (VStr "") = Ok (bonus a)
  /\ safeGet abil "save.0" (VStr "") = Ok (save a)
  /\ (exists saveprof_, safeGet abil "saveprof.0" (VStr "") = Ok saveprof_
                        /\ saveprof a = is_string "1" saveprof_).

End Bounds.


(** ** The order of the spells, as the comparison function has it *)




Section SpellOrder.
Context {host : Host}.



End SpellOrder.

(** ** The spell slots and the sorcery points *)

(** [{ max, used }] *)
Record slotInfo : Type := {
  slot_max : value;
  slot_used : value
}.

(** [s.repeat(n)] *)
Fixpoint repeat_text (s : string) (n : nat) : string :=
  match n with
  | O => EmptyString
  | S k => s ++ repeat_text s k
  end.

(** [i < x] for a counter [i]: false when [x] is NaN. *)
Definition num_lt (i : Z) (x : number) : bool :=
  match x with
  | Int n => i <? n
  | NaN => false
  end.

(** The number of turns of [for (let i = 0; i < x; i++)]. *)
Definition iterations (x : number) : nat :=
  match x with
  | Int n => Z.to_nat n
  | NaN => O
  end.

(** One check box of lines 933 and 954, after its indentation. *)
Definition checkbox (indent : string) (checked : bool) : string :=
  indent ++ q "<input type=`checkbox` " ++ (if checked then "checked" else "") ++ ">" ++ nl.

(** The turns [i], [i + 1], ... of the loops of lines 931-934 and 952-955:
    each adds a check box, checked while [i < used]. *)
Fixpoint bubbles_from (indent : string) (used : number) (turns : nat) (i : Z) (html : string)
  : string :=
  match turns with
  | O => html
  | S k => bubbles_from indent used k (i + 1) (html ++ checkbox indent (num_lt i used))
  end.

Definition bubbles (indent : string) (max used : number) (html : string) : string :=
  bubbles_from indent used (iterations max) 0 html.

Definition slot_indent : string := "                        ".
Definition sorcery_indent : string := "                    ".

Section Slots.
Context {host : Host}.

(** Lines 294-304, for one [i]: the slots of a level are kept unless their
    maximum is the text 0. *)
Definition spellSlots_body (powermeta : value) (spellSlots : list (nat * slotInfo)) (i : nat)
  : completion (list (nat * slotInfo)) :=
  let slotKey := "spellslots" ++ string_of_Z (Z.of_nat i) in
  entries <- js_get powermeta slotKey ;;
  slot <- (if truthy entries then js_get entries "0" else Ok entries) ;;
  if truthy slot then
    maxSlots <- safeGet slot "max.0" (VStr "0") ;;
    usedSlots <- safeGet slot "used.0" (VStr "0") ;;
    if negb (is_string "0" maxSlots)
    then Ok (spellSlots ++ [(i, {| slot_max := maxSlots; slot_used := usedSlots |})])%list
    else Ok spellSlots
  else Ok spellSlots.

(** Lines 291-304: the object [spellSlots], as the list of its entries. *)
Definition extract_spellSlots (char : value) : completion (list (nat * slotInfo)) :=
  powermeta <- safeGet char "powermeta.0" (VObj []) ;;
  forEach (seq 1 9) (spellSlots_body powermeta) [].

(** Lines 309-321: the variable [sorceryPoints], [None] for [null]. *)
Definition sorceryPoints_body (powersData : value) (sorceryPoints : option slotInfo)
    (key : string) : completion (option slotInfo) :=
  if startsWith "id-" key then
    power <- entry_of powersData key ;;
    powerName <- safeGet power "name.0" (VStr "") ;;
    if is_string "Sorcery Points" powerName then
      max <- safeGet power "prepared.0" (VStr "0") ;;
      used <- safeGet power "locked.0" (VStr "0") ;;
      if negb (is_string "0" max) then Ok (Some {| slot_max := max; slot_used := used |})
      else Ok sorceryPoints
    else Ok sorceryPoints
  else Ok sorceryPoints.

Definition extract_sorceryPoints (char : value) : completion (option slotInfo) :=
  powersData <- safeGet char "powers.0" (VObj []) ;;
  keys <- object_keys powersData ;;
  forEach keys (sorceryPoints_body powersData) None.

(** The property key of the level [i]. *)
Definition level_key (i : nat) : string := string_of_Z (Z.of_nat i).

(** [spellSlots[level]] *)
Fixpoint slot_of (level : string) (spellSlots : list (nat * slotInfo)) : option slotInfo :=
  match spellSlots with
  | [] => None
  | (i, slot) :: rest => if String.eqb (level_key i) level then Some slot else slot_of level rest
  end.

(** Line 922: [(a, b) => parseInt(a) - parseInt(b)] *)
Definition compare_slot_levels (a b : string) : completion number :=
  aParsed <- parseInt (VStr a) ;;
  bParsed <- parseInt (VStr b) ;;
  Ok (num_sub aParsed bParsed).

(** Lines 922-936: the block of one level. *)
Definition render_slot_level (spellSlots : list (nat * slotInfo)) (html : string)
    (level : string) : completion string :=
  match slot_of level spellSlots with
  | None => Throw TypeError
  | Some slot =>
      maxSlots <- parseInt (slot_max slot) ;;
      usedSlots <- parseInt (js_or (slot_used slot) (VStr "0")) ;;
      let html1 := html ++ q "                <div class=`spell-slot-level`>
                    <strong>Level " ++ level ++ q ":</strong>
                    <div class=`spell-slot-bubbles`>" in
      let html2 := bubbles slot_indent maxSlots usedSlots html1 in
      Ok (html2 ++ "                    </div>
                </div>
")
  end.

(** Lines 918-939. *)
Definition render_spellSlots (spellSlots : list (nat * slotInfo)) (html : string)
  : completion string :=
  match spellSlots with
  | [] => Ok html
  | _ =>
      let html1 := html ++ q "            <div class=`section`>
                <h2>Spell Slots</h2>" in
      levels <- array_sort compare_slot_levels (map (fun e => level_key (fst e)) spellSlots) ;;
      html2 <- forEach levels (render_slot_level spellSlots) html1 ;;
      Ok (html2 ++ "            </div>
")
  end.

(** Lines 943-959. *)
Definition render_sorceryPoints (sorceryPoints : option slotInfo) (html : string)
  : completion string :=
  match sorceryPoints with
  | None => Ok html
  | Some points =>
      maxPoints <- parseInt (slot_max points) ;;
      usedPoints <- parseInt (slot_used points) ;;
      let html1 := html ++ q "            <div class=`section`>
                <h2>Sorcery Points</h2>
                <div class=`spell-slot-bubbles` style=`padding: 10px;`>" in
      let html2 := bubbles sorcery_indent maxPoints usedPoints html1 in
      Ok (html2 ++ "                </div>
            </div>
")
  end.

End Slots.

(** The number of checked boxes among those of [max]: those of [used], and
    no more than there are boxes. *)
Definition checked_count (max used : number) : nat :=
  Nat.min (iterations used) (iterations max).

(** A character with four slots of level 1, one used, none of level 2 and
    two of level 3. *)
Definition slots_entry (max used : string) : value :=
  VArr [VObj [("max", leaf max); ("used", leaf used)]].

Definition character_with_slots : value :=
  VObj [("powermeta",
         VArr [VObj [("spellslots1", slots_entry "4" "1");
                     ("spellslots2", slots_entry "0" "0");
                     ("spellslots3", slots_entry "2" "0")]])].

(** ** The spells by level (lines 986-997) *)

(** [props[key]] on the own properties of an object built by the code. *)
Fixpoint get_key {B : Type} (key : string) (props : list (string * B)) : option B :=
  match props with
  | [] => None
  | (k, x) :: rest => if String.eqb k key then Some x else get_key key rest
  end.

(** [props[key] = x]: in place when the key exists, at its place in the
    order of the properties otherwise (the index keys first, in ascending
    order, then the other keys as they were added). *)
Fixpoint set_key {B : Type} (key : string) (x : B) (props : list (string * B))
  : list (string * B) :=
  match props with
  | [] => [(key, x)]
  | (k, y) :: rest =>
      if String.eqb k key then (k, x) :: rest
      else if Store.key_before key k then (key, x) :: (k, y) :: rest
      else (k, y) :: set_key key x rest
  end.

Section Grouping.
Context {host : Host}.

(** Line 988: the level a spell is listed under, as a property key. *)
Definition level_label (s : spell) : completion string :=
  toString (if truthy (sp_level s) && negb (is_string "0" (sp_level s))
            then sp_level s else VStr "Cantrip").

(** Lines 987-991, for one spell. A member that the object inherits under
    the key of the level stands in the way of the array of the level: it
    has no [push]. *)
Definition spellsByLevel_body (spellsByLevel : list (string * list spell)) (s : spell)
  : completion (list (string * list spell)) :=
  level <- level_label s ;;
  match get_key level spellsByLevel with
  | Some bucket => Ok (set_key level (bucket ++ [s])%list spellsByLevel)
  | None =>
      match inherited KObject level with
      | Some member =>
          if truthy member then Throw TypeError
          else Ok (set_key level [s] spellsByLevel)
      | None => Ok (set_key level [s] spellsByLevel)
      end
  end.

Definition group_spells (spells : list spell) : completion (list (string * list spell)) :=
  forEach spells spellsByLevel_body [].

(** Lines 993-997. *)
Definition compare_spell_levels (a b : string) : completion number :=
  if String.eqb a "Cantrip" then Ok (Int (-1))
  else if String.eqb b "Cantrip" then Ok (Int 1)
  else compare_slot_levels a b.

Definition levelOrder (spellsByLevel : list (string * list spell)) : completion (list string) :=
  array_sort compare_spell_levels (map fst spellsByLevel).

(** The spell is listed under [level]. *)
Definition has_label (level : string) (s : spell) : bool :=
  match level_label s with
  | Ok l => String.eqb l level
  | Throw _ => false
  end.

End Grouping.

(** The level of the spell is text that [parseInt] reads as an integer. *)
Definition leveled (s : spell) : bool :=
  match sp_level s with
  | VStr l => match parseInt_string l with
              | Some _ => true
              | None => false
              end
  | _ => false
  end.



(** ** The paragraphs of a tooltip (lines 807-808, 838-839 and 875-876) *)

Definition lf : ascii := "010"%char.

(** [s.split('\n\n')]: the pieces between the blank lines, found from the
    left. *)
Fixpoint split_blank (s : string) : list string :=
  match s with
  | EmptyString => [EmptyString]
  | String a rest =>
      match rest with
      | String b rest' =>
          if Ascii.eqb a lf && Ascii.eqb b lf then EmptyString :: split_blank rest'
          else match split_blank rest with
               | piece :: pieces => String a piece :: pieces
               | [] => [String a EmptyString]
               end
      | EmptyString => [String a EmptyString]
      end
  end.

(** [description.split('\n\n').filter(Boolean)] *)
Definition tooltip_paragraphs (description : string) : list string :=
  filter (fun p => negb (String.eqb p "")) (split_blank description).

Section Tooltip.
Context {host : Host}.

(** [paragraphs.map(p => `<p>${escapeHtml(p)}</p>`).join('')] *)
Definition tooltipContent (description : string) : completion string :=
  items <- map_completion (fun p => text <- escapeHtml (VStr p) ;; Ok ("<p>" ++ text ++ "</p>"))
             (tooltip_paragraphs description) ;;
  Ok (join "" items).

End Tooltip.

(** A warlock of level 5 with the charisma bonus 3. *)
Definition warlock_character : value :=
  VObj [("classes", VArr [VObj [("id-00001",
           VArr [VObj [("name", leaf "Warlock"); ("level", leaf "5")]])]]);
        ("abilities", VArr [VObj [("charisma",
           VArr [VObj [("score", leaf "16"); ("bonus", leaf "3")]])]])].

(** ** A path read in two steps *)

Section Walk.
Context {host : Host}.

(** The walk of the keys from [v] finds every key and ends at [r]. *)
Inductive reaches : value -> list string -> value -> Prop :=
| reaches_here v : reaches v [] v
| reaches_below v key keys next r :
    is_container v = true ->
    lookup_property v key = Some next ->
    reaches next keys r ->
    reaches v (key :: keys) r.

(** A mapping without the text markers [_] and [$t]. *)
Definition plain_mapping (v : value) : bool :=
  match v with
  | VObj _ => negb (has_property v "_") && negb (has_property v "$t")
  | _ => false
  end.

End Walk.

Definition hp_record : value := VObj [("total", leaf "27"); ("wounds", leaf "4")].
(** * Properties *)

Section SafeGetFacts.
Context {host : Host}.

Lemma container_walks v : is_container v = true -> truthy v && typeof_object v = true.
Proof. destruct v; simpl; congruence. Qed.

Lemma walks_container v : truthy v && typeof_object v = true -> is_container v = true.
Proof. destruct v; simpl; try congruence; rewrite ?andb_false_r; congruence. Qed.

Lemma js_in_container v key : is_container v = true -> js_in key v = Ok (has_property v key).
Proof. destruct v; simpl; congruence. Qed.

Lemma js_get_container v key :
  is_container v = true ->
  js_get v key = Ok (match lookup_property v key with Some x => x | None => VUndefined end).
Proof. destruct v; simpl; congruence. Qed.

Lemma safeGet_finish_returns result d : exists v, safeGet_finish result d = Ok v.
Proof.
  unfold safeGet_finish.
  destruct (truthy (unwrap result) && typeof_object (unwrap result)) eqn:G.
  - apply walks_container in G.
    rewrite !(js_in_container _ _ G). simpl.
    destruct (has_property (unwrap result) "_").
    + rewrite (js_get_container _ _ G). eauto.
    + destruct (has_property (unwrap result) "$t").
      * rewrite (js_get_container _ _ G). eauto.
      * eauto.
  - eauto.
Qed.

Lemma safeGet_keys_returns keys : forall result d, exists v, safeGet_keys keys result d = Ok v.
Proof.
  induction keys as [|key keys IH]; intros result d; simpl.
  - apply safeGet_finish_returns.
  - destruct (truthy result && typeof_object result) eqn:G; [|eauto].
    apply walks_container in G.
    rewrite (js_in_container _ _ G). simpl.
    destruct (has_property result key); [|eauto].
    rewrite (js_get_container _ _ G). simpl. apply IH.
Qed.

Lemma safeGet_keys_absent v keys d : absent_at v keys -> safeGet_keys keys v d = Ok d.
Proof.
  induction 1 as [v key keys [Hc|Hp] | v key keys next Hc Hl _ IH]; simpl.
  - destruct (truthy v && typeof_object v) eqn:G; [|reflexivity].
    apply walks_container in G. congruence.
  - destruct (truthy v && typeof_object v) eqn:G; [|reflexivity].
    apply walks_container in G.
    rewrite (js_in_container _ _ G). simpl. now rewrite Hp.
  - rewrite (container_walks _ Hc), (js_in_container _ _ Hc). simpl.
    unfold has_property. rewrite Hl.
    rewrite (js_get_container _ _ Hc), Hl. simpl. exact IH.
Qed.

(** A segment that is absent from the tree fails the walk of the code,
    when no key of the path is the length of a sequence or the name of an
    inherited member. *)
Lemma missing_absent v keys :
  missing_at v keys ->
  Forall (fun key => key <> "length" /\ forall k, inherited k key = None) keys ->
  absent_at v keys.
Proof.
  induction 1 as [v key keys Hm | v key keys next Hm _ IH]; intros Hk;
    inversion Hk as [|? ? [Hlen Hinh] Hk']; subst.
  - apply absent_here.
    destruct v as [| | | | |elems|props|]; try (left; reflexivity); right;
      unfold has_property, lookup_property; cbn [own_property kind_of tree_member] in *.
    + destruct (String.eqb_spec key "length"); [contradiction|].
      destruct (array_index key); rewrite ?Hm; now rewrite Hinh.
    + now rewrite Hm, Hinh.
  - destruct v as [| | | | |elems|props|]; try discriminate;
      (eapply absent_below; [reflexivity| |exact (IH Hk')]);
      unfold lookup_property; cbn [own_property tree_member] in *.
    + destruct (String.eqb_spec key "length"); [contradiction|].
      destruct (array_index key); [now rewrite Hm | discriminate].
    + now rewrite Hm.
Qed.


End SafeGetFacts.

(** ** Reading back a wrapped scalar *)

Section UnwrapFacts.
Context {host : Host}.

Lemma split_on_single key : has_dot key = false -> split_on "." key = [key].
Proof.
  induction key as [|c key IH]; simpl; [reflexivity|].
  destruct (Ascii.eqb c "."); simpl; [discriminate|].
  intros H. now rewrite (IH H).
Qed.

Lemma unwrap_wrap n s : unwrap (wrap n s) = unwrap s.
Proof. induction n as [|n IH]; simpl; [reflexivity | exact IH]. Qed.

Lemma unwrap_scalar s : is_scalar s = true -> unwrap s = s.
Proof. destruct s; simpl; congruence. Qed.

Lemma scalar_not_walked s : is_scalar s = true -> truthy s && typeof_object s = false.
Proof. destruct s; simpl; try congruence; now rewrite andb_false_r. Qed.

Lemma safeGet_finish_wrapped n s d :
  is_scalar s = true -> safeGet_finish (wrap n s) d = Ok (js_or s d).
Proof.
  intros Hs. unfold safeGet_finish.
  rewrite unwrap_wrap, (unwrap_scalar _ Hs), (scalar_not_walked _ Hs). reflexivity.
Qed.

(** C4, as the code has it: a scalar wrapped in one or more nested
    one-element sequences and stored under a key is read back through that
    key as the scalar itself when it is truthy, and as the supplied default
    when it is falsy (undefined, null, false, 0, NaN or the empty string). *)
Theorem safeGet_reads_back_wrapped_scalar
    (s : value) (n : nat) (props : list (string * value)) (key : string) (defaultValue : value) :
  is_scalar s = true ->
  has_dot key = false ->
  assoc key props = Some (wrap (S n) s) ->
  safeGet (VObj props) key defaultValue = Ok (if truthy s then s else defaultValue).
Proof.
  intros Hs Hk Hp. unfold safeGet. rewrite (split_on_single _ Hk).
  cbn [safeGet_keys truthy typeof_object andb js_in bind].
  unfold has_property, lookup_property. cbn [own_property]. rewrite Hp.
  cbn [js_get bind]. unfold lookup_property. cbn [own_property]. rewrite Hp.
  now rewrite safeGet_finish_wrapped.
Qed.

End UnwrapFacts.

(** The statement of C4 for every scalar fails: an empty leaf read with the
    default "0", as the hit points are, comes back as "0"; and the number 0
    read with the default of the function, the empty string, comes back as
    the empty string. *)
Lemma safeGet_wrapped_falsy_scalar_lost :
  is_scalar (VStr "") = true
  /\ safeGet (host := plain_host) (VObj [("total", wrap 1 (VStr ""))]) "total" (VStr "0")
     = Ok (VStr "0")
  /\ VStr "0" <> VStr ""
  /\ is_scalar (VNum (Int 0)) = true
  /\ safeGet (host := plain_host) (VObj [("total", wrap 2 (VNum (Int 0)))]) "total" (VStr "")
     = Ok (VStr "")
  /\ VStr "" <> VNum (Int 0).
Proof. repeat split; try reflexivity; discriminate. Qed.

Lemma safeGet_reads_back_wrapped_scalar_witness :
  is_scalar (VStr "Mira") = true
  /\ has_dot "name" = false
  /\ assoc "name" [("name", wrap 3 (VStr "Mira"))] = Some (wrap 3 (VStr "Mira"))
  /\ safeGet (host := plain_host) (VObj [("name", wrap 3 (VStr "Mira"))]) "name" (VStr "")
     = Ok (VStr "Mira").
Proof.
  split; [reflexivity|]. split; [reflexivity|]. split; [reflexivity|].
  exact (safeGet_reads_back_wrapped_scalar (host := plain_host)
           (VStr "Mira") 2 [("name", wrap 3 (VStr "Mira"))] "name" (VStr "")
           eq_refl eq_refl eq_refl).
Defined.



(** ** [formatModifier] and [getProficiencyBonus] *)

Section ModifierFacts.
Context {host : Host}.

Lemma string_of_Z_negative n : n < 0 -> exists digits, string_of_Z n = String "-" digits.
Proof.
  destruct n as [|p|p]; try lia. intros _.
  unfold string_of_Z. simpl. eauto.
Qed.

(** A value that parses to a number at or above zero is rendered with a
    leading plus sign. *)
Lemma formatModifier_nonnegative v n :
  parseInt v = Ok (Int n) -> 0 <= n -> formatModifier v = VStr ("+" ++ string_of_Z n).
Proof.
  intros Hp Hn. unfold formatModifier. rewrite Hp. simpl.
  destruct (0 <=? n) eqn:E; [reflexivity | apply Z.leb_gt in E; lia].
Qed.

(** A value that parses to a negative number is rendered as its numeral,
    which starts with the minus sign. *)
Lemma formatModifier_negative v n :
  parseInt v = Ok (Int n) -> n < 0 ->
  formatModifier v = VStr (string_of_Z n) /\ exists digits, string_of_Z n = String "-" digits.
Proof.
  intros Hp Hn. unfold formatModifier. rewrite Hp. simpl.
  destruct (0 <=? n) eqn:E; [apply Z.leb_le in E; lia|].
  split; [reflexivity | now apply string_of_Z_negative].
Qed.

(** A string without a leading numeral parses to NaN, which neither branch
    of the [try] block returns unchanged: the text "NaN" is rendered. *)
Lemma formatModifier_not_a_number s :
  parseInt_string s = None -> formatModifier (VStr s) = VStr "NaN".
Proof.
  intros Hp. unfold formatModifier, parseInt. simpl. now rewrite Hp.
Qed.

(** The [catch] block is reached only when the conversion to a string
    throws; then the argument is returned. *)
Lemma formatModifier_catch v e : toString v = Throw e -> formatModifier v = v.
Proof. intros H. unfold formatModifier, parseInt. now rewrite H. Qed.

(** C5 at the inputs "abc" and "" (the value of a skill without a total):
    neither parses as an integer, and [formatModifier] returns the text
    "NaN" instead of the input. *)
Theorem formatModifier_of_text_is_NaN :
  parseInt_string "abc" = None
  /\ formatModifier (VStr "abc") = VStr "NaN"
  /\ formatModifier (VStr "abc") <> VStr "abc"
  /\ parseInt_string "" = None
  /\ formatModifier (VStr "") = VStr "NaN"
  /\ formatModifier (VStr "") <> VStr "".
Proof.
  split; [reflexivity|].
  rewrite (formatModifier_not_a_number "abc" eq_refl).
  split; [reflexivity|]. split; [discriminate|].
  split; [reflexivity|].
  rewrite (formatModifier_not_a_number "" eq_refl).
  split; [reflexivity | discriminate].
Qed.

(** The bonus of a level that parses as an integer. *)
Lemma getProficiencyBonus_formula level n :
  parseInt level = Ok (Int n) -> getProficiencyBonus level = Int (2 + (n - 1) / 4).
Proof. intros Hp. unfold getProficiencyBonus. now rewrite Hp. Qed.

Lemma getProficiencyBonus_table :
  getProficiencyBonus (VNum (Int 1)) = Int 2
  /\ getProficiencyBonus (VNum (Int 4)) = Int 2
  /\ getProficiencyBonus (VNum (Int 5)) = Int 3
  /\ getProficiencyBonus (VNum (Int 9)) = Int 4
  /\ getProficiencyBonus (VNum (Int 17)) = Int 6
  /\ getProficiencyBonus (VNum (Int 20)) = Int 6.
Proof. repeat split. Qed.

(** The [catch] block, which returns 2, is reached only when the conversion
    to a string throws. *)
Lemma getProficiencyBonus_catch level e :
  toString level = Throw e -> getProficiencyBonus level = Int 2.
Proof. intros H. unfold getProficiencyBonus, parseInt. now rewrite H. Qed.

Lemma getProficiencyBonus_not_a_number s :
  parseInt_string s = None -> getProficiencyBonus (VStr s) = NaN.
Proof.
  intros Hp. unfold getProficiencyBonus, parseInt. simpl. now rewrite Hp.
Qed.

(** C6 at the level "abc": the level does not parse as an integer, and the
    bonus is NaN, not 2. *)
Theorem getProficiencyBonus_of_text_is_NaN :
  parseInt_string "abc" = None
  /\ getProficiencyBonus (VStr "abc") = NaN
  /\ getProficiencyBonus (VStr "abc") <> Int 2.
Proof.
  split; [reflexivity|].
  rewrite (getProficiencyBonus_not_a_number "abc" eq_refl).
  split; [reflexivity | discriminate].
Qed.

End ModifierFacts.

(** ** The suggested file name *)

Section FilenameFacts.
Context {host : Host}.

Lemma filter_string_forallb p s : string_forallb p (filter_string p s) = true.
Proof.
  induction s as [|c s IH]; simpl; [reflexivity|].
  destruct (p c) eqn:E; simpl; [now rewrite E|exact IH].
Qed.

Lemma filename_space c : filename_unit c = true -> is_space c = Ascii.eqb c " ".
Proof.
  unfold filename_unit, is_space, between.
  destruct (Ascii.eqb_spec c " ") as [->|Hne]; [reflexivity|].
  intros H.
  assert (Hn : nat_of_ascii c <> 32%nat).
  { intros E. apply Hne. rewrite <- (ascii_nat_embedding c), E. reflexivity. }
  destruct (Ascii.eqb_spec c "_") as [->|_]; [reflexivity|].
  destruct (Ascii.eqb_spec c "-") as [->|_]; [reflexivity|].
  rewrite !orb_false_r in H.
  apply Nat.eqb_neq in Hn. rewrite Hn. rewrite orb_false_r.
  destruct (nat_of_ascii c =? 160)%nat eqn:E160.
  - apply Nat.eqb_eq in E160. rewrite E160 in H. discriminate.
  - rewrite orb_false_r.
    destruct ((9 <=? nat_of_ascii c)%nat && (nat_of_ascii c <=? 13)%nat) eqn:E; [|reflexivity].
    apply andb_true_iff in E. destruct E as [E1 E2].
    apply Nat.leb_le in E1, E2.
    repeat (apply orb_true_iff in H; destruct H as [H|H]);
      apply andb_true_iff in H; destruct H as [H1 H2];
      apply Nat.leb_le in H1, H2; lia.
Qed.

Lemma trimStart_units s :
  string_forallb filename_unit s = true -> trimStart s = drop_spaces s.
Proof.
  induction s as [|c s IH]; simpl; [reflexivity|].
  intros H. apply andb_true_iff in H. destruct H as [Hc Hs].
  rewrite (filename_space _ Hc).
  destruct (Ascii.eqb_spec c " ") as [->|Hne]; [now apply IH|].
  destruct c as [[] [] [] [] [] [] [] []]; try reflexivity. now contradiction Hne.
Qed.

Lemma string_forallb_app p a b :
  string_forallb p (a ++ b) = string_forallb p a && string_forallb p b.
Proof.
  induction a as [|c a IH]; simpl; [reflexivity|]. now rewrite IH, andb_assoc.
Qed.

Lemma string_forallb_rev p s : string_forallb p (string_rev s) = string_forallb p s.
Proof.
  induction s as [|c s IH]; simpl; [reflexivity|].
  rewrite string_forallb_app, IH. simpl. rewrite andb_true_r. apply andb_comm.
Qed.

Lemma append_nil_r (s : string) : s ++ "" = s.
Proof. induction s as [|c s IH]; simpl; [reflexivity | now rewrite IH]. Qed.

Lemma append_assoc (a b c : string) : (a ++ b) ++ c = a ++ (b ++ c).
Proof. induction a as [|x a IH]; simpl; [reflexivity | now rewrite IH]. Qed.

Lemma string_rev_app a b : string_rev (a ++ b) = string_rev b ++ string_rev a.
Proof.
  induction a as [|c a IH]; simpl.
  - now rewrite append_nil_r.
  - now rewrite IH, append_assoc.
Qed.

(** [trimStart] of a string continued by one more unit. *)
Lemma trimStart_snoc s c :
  trimStart (s ++ String c "") =
  match trimStart s with
  | EmptyString => if is_space c then EmptyString else String c EmptyString
  | kept => kept ++ String c ""
  end.
Proof.
  induction s as [|x s IH]; simpl; [reflexivity|].
  destruct (is_space x); [exact IH | reflexivity].
Qed.

Lemma trimEnd_rev s : trimEnd s = string_rev (trimStart (string_rev s)).
Proof.
  induction s as [|c s IH]; simpl; [reflexivity|].
  rewrite trimStart_snoc, IH.
  destruct (trimStart (string_rev s)) as [|y kept] eqn:E.
  - simpl. destruct (is_space c); reflexivity.
  - rewrite string_rev_app. simpl.
    destruct (string_rev kept ++ String y "") eqn:E2; [|reflexivity].
    destruct (string_rev kept); discriminate.
Qed.

Lemma drop_spaces_forallb p s :
  string_forallb p s = true -> string_forallb p (drop_spaces s) = true.
Proof.
  induction s as [|c s IH]; simpl; [reflexivity|].
  intros H. pose proof H as H'. apply andb_true_iff in H. destruct H as [Hc Hs].
  destruct c as [[] [] [] [] [] [] [] []]; simpl; try exact H'. now apply IH.
Qed.

(** On text of the allowed class, [trim] removes the spaces at both ends. *)
Lemma trim_units s :
  string_forallb filename_unit s = true ->
  trim s = string_rev (drop_spaces (string_rev (drop_spaces s))).
Proof.
  intros H. unfold trim.
  rewrite trimEnd_rev, (trimStart_units _ H), trimStart_units; [reflexivity|].
  rewrite string_forallb_rev. now apply drop_spaces_forallb.
Qed.

Lemma suggested_filename_of_name result name :
  safeGet result "root.character.0.name.0" (VStr "") = Ok (VStr name) ->
  suggested_filename result = spec_filename name.
Proof.
  intros H. unfold suggested_filename, spec_filename. rewrite H.
  cbn [bind]. unfold js_or.
  destruct name as [|c name].
  - reflexivity.
  - cbn [truthy String.eqb negb toString bind].
    rewrite (trim_units _ (filter_string_forallb filename_unit (String c name))).
    set (stem := string_rev _).
    destruct stem; reflexivity.
Qed.

Lemma suggested_filename_absent result :
  absent_at result (split_on "." "root.character.0.name.0") ->
  suggested_filename result = default_filename.
Proof.
  intros H. unfold suggested_filename, safeGet.
  rewrite (safeGet_keys_absent _ _ (VStr "") H). reflexivity.
Qed.

(** C8, as the code has it: the suggested file name is the character name
    without the characters outside [A-Za-z0-9 _-] and without the spaces
    around the rest, followed by ".html" (the spaces inside the name are
    kept, so "Mira O'Brien!!" with a diaeresis on the i gives
    "Mra OBrien.html"); a name that is absent, empty, or empty once
    stripped gives "character_sheet.html". *)
Theorem suggested_filename_strips_and_trims :
  (forall result name,
      safeGet result "root.character.0.name.0" (VStr "") = Ok (VStr name) ->
      suggested_filename result = spec_filename name)
  /\ (forall result,
      absent_at result (split_on "." "root.character.0.name.0") ->
      suggested_filename result = default_filename)
  /\ suggested_filename (document_named mira_name) = "Mra OBrien.html"
  /\ suggested_filename (document_named "") = "character_sheet.html"
  /\ suggested_filename (document_named " !?! ") = "character_sheet.html".
Proof.
  split; [exact suggested_filename_of_name|].
  split; [exact suggested_filename_absent|].
  repeat split.
Qed.

End FilenameFacts.

(** The file name that C8 gives for "Mira O'Brien!!" is not the one the
    code derives: the space is in the allowed set and stays. *)
Lemma suggested_filename_keeps_inner_space :
  suggested_filename (host := plain_host) (document_named mira_name) = "Mra OBrien.html"
  /\ suggested_filename (host := plain_host) (document_named mira_name) <> "MraOBrien.html".
Proof. split; [reflexivity | discriminate]. Qed.

Lemma suggested_filename_strips_and_trims_witness :
  safeGet (host := plain_host) (document_named "Sir Roland") "root.character.0.name.0" (VStr "")
    = Ok (VStr "Sir Roland")
  /\ suggested_filename (host := plain_host) (document_named "Sir Roland")
     = spec_filename "Sir Roland".
Proof.
  split; [reflexivity|].
  exact (proj1 (suggested_filename_strips_and_trims (host := plain_host))
           (document_named "Sir Roland") "Sir Roland" eq_refl).
Defined.

(** ** Escaping *)

Section EscapeFacts.
Context {host : Host}.

(** The five replacements in a row amount to one pass over the text. *)
Lemma escape_units_cons c s : escape_units (String c s) = entity_of c ++ escape_units s.
Proof.
  unfold escape_units.
  destruct c as [[] [] [] [] [] [] [] []]; reflexivity.
Qed.

Lemma escape_units_escaped s : escaped (escape_units s).
Proof.
  induction s as [|c s IH].
  - apply escaped_empty.
  - rewrite escape_units_cons. unfold entity_of.
    destruct (Ascii.eqb c "&") eqn:E1; [apply escaped_entity; simpl; auto|].
    destruct (Ascii.eqb c "<") eqn:E2; [apply escaped_entity; simpl; auto|].
    destruct (Ascii.eqb c ">") eqn:E3; [apply escaped_entity; simpl; auto|].
    destruct (Ascii.eqb c dq) eqn:E4; [apply escaped_entity; simpl; auto 6|].
    destruct (Ascii.eqb c "'") eqn:E5; [apply escaped_entity; simpl; auto 6|].
    simpl. apply escaped_unit; [|exact IH].
    unfold html_special. now rewrite E1, E2, E3, E4, E5.
Qed.

(** X4: what [escapeHtml] returns, for every value and runtime, holds the
    five characters (ampersand, angle brackets, double and single quote)
    only inside the entities that replace them. *)
Lemma escapeHtml_escaped text s : escapeHtml text = Ok s -> escaped s.
Proof.
  unfold escapeHtml. destruct (truthy text); simpl.
  - destruct (toString text) as [t|e]; simpl; [|discriminate].
    intros H. injection H as <-. apply escape_units_escaped.
  - intros H. injection H as <-. apply escaped_empty.
Qed.

Lemma startsWith_app p s : startsWith p (p ++ s) = true.
Proof.
  induction p as [|c p IH]; simpl; [now destruct s|].
  now rewrite Ascii.eqb_refl.
Qed.

Lemma includes_app p a b : includes p (a ++ p ++ b) = true.
Proof.
  induction a as [|c a IH].
  - simpl append. destruct (p ++ b) eqn:E; simpl; rewrite <- E, startsWith_app; reflexivity.
  - simpl. rewrite IH. apply orb_true_r.
Qed.

Lemma includes_skip p a b : includes p b = true -> includes p (a ++ b) = true.
Proof.
  intros H. induction a as [|c a IH]; simpl; [exact H|].
  rewrite IH. apply orb_true_r.
Qed.

Lemma includes_inside p1 w p2 a b :
  includes (p1 ++ w ++ p2) (a ++ p1 ++ w ++ p2 ++ b) = true.
Proof.
  replace (a ++ p1 ++ w ++ p2 ++ b) with (a ++ (p1 ++ w ++ p2) ++ b)
    by now rewrite !append_assoc.
  apply includes_app.
Qed.

Lemma q_app a b : q (a ++ b) = q a ++ q b.
Proof. induction a as [|c a IH]; simpl; [reflexivity | now rewrite IH]. Qed.

(** A literal [t] seen as [front ++ tail], or as [head ++ back]. *)
Ltac cut_tail t tail :=
  let n := eval vm_compute in (String.length t - String.length tail)%nat in
  let front := eval vm_compute in (substring 0 n t) in
  replace t with (front ++ tail) by reflexivity.

Ltac cut_head t head :=
  let n := eval vm_compute in (String.length head) in
  let m := eval vm_compute in (String.length t - String.length head)%nat in
  let back := eval vm_compute in (substring n m t) in
  replace t with (head ++ back) by reflexivity.

Ltac cut_both t head tail :=
  let n := eval vm_compute in (String.length head) in
  let m := eval vm_compute in (String.length t - String.length head - String.length tail)%nat in
  let middle := eval vm_compute in (substring n m t) in
  replace t with (head ++ middle ++ tail) by reflexivity.

(** The wounds and the temporary hit points reach the markup as they are,
    whatever text they hold. *)
Lemma render_vitals_wounds_verbatim total wounds temp ac_ init speed_ prof melee html :
  render_vitals total (VStr wounds) (VStr temp) ac_ init speed_ prof melee = Ok html ->
  includes (q "value=`" ++ wounds ++ q "`") html = true
  /\ includes (q "value=`" ++ temp ++ q "`") html = true.
Proof.
  unfold render_vitals, bind.
  destruct (escapeHtml total) as [s1|]; [|discriminate].
  change (toString (VStr wounds)) with (Ok (A := string) wounds).
  change (toString (VStr temp)) with (Ok (A := string) temp).
  destruct (escapeHtml ac_) as [s4|]; [|discriminate].
  destruct (toString (formatModifier init)) as [s5|]; [|discriminate].
  destruct (escapeHtml speed_) as [s6|]; [|discriminate].
  destruct (toString (formatModifier (VNum prof))) as [s7|]; [|discriminate].
  destruct (toString (formatModifier (VNum melee))) as [s8|]; [|discriminate].
  intros H. match type of H with Ok ?x = _ => assert (E : html = x) by congruence end.
  clear H. rewrite E. clear E.
  match goal with
  | |- context [q ?t0 ++ s1 ++ q ?t1 ++ wounds ++ q ?t2 ++ temp ++ q ?t3 ++ ?rest] =>
      set (r := rest);
      cut_tail t1 "value=`"; cut_both t2 "`" "value=`"; cut_head t3 "`"
  end.
  rewrite !q_app, !append_assoc.
  split.
  - do 2 apply includes_skip. apply includes_inside.
  - do 6 apply includes_skip. apply includes_inside.
Qed.

End EscapeFacts.

(** C1 at a character whose wounds entry is a double quote followed by
    [><script>alert(1)</script>]: the hit point total goes through
    [escapeHtml], the wounds do not, and the markup holds the entry as it
    is, closing the [value] attribute and opening a [script] element; its
    escaped form is nowhere in the markup. *)
Theorem vitals_html_wounds_unescaped :
  exists html,
    vitals_html (host := plain_host) wounded_character = Ok html
    /\ includes (q "value=`" ++ wounds_payload ++ q "`") html = true
    /\ includes "<script>alert(1)</script>" html = true
    /\ escapeHtml (host := plain_host) (VStr wounds_payload)
       = Ok "&quot;&gt;&lt;script&gt;alert(1)&lt;/script&gt;"
    /\ includes "&quot;&gt;&lt;script&gt;alert(1)&lt;/script&gt;" html = false.
Proof.
  eexists. split; [vm_compute; reflexivity|].
  repeat split; vm_compute; reflexivity.
Qed.

(** ** The spellcasting ability and the figures derived from it *)

Section SpellcastingFacts.
Context {host : Host}.

Lemma spellcasting_body_named current cls name :
  cls_name cls = VStr name ->
  spellcasting_body current cls =
  Ok (match spec_ability_of_class name with
      | Some a => Some a
      | None => current
      end).
Proof.
  intros H. unfold spellcasting_body, pick_ability, spec_ability_of_class, mentions. rewrite H.
  destruct (includes "wizard" (toLowerCase name)); [reflexivity|].
  destruct (includes "druid" (toLowerCase name) || includes "cleric" (toLowerCase name)
            || includes "ranger" (toLowerCase name)); [reflexivity|].
  destruct (includes "paladin" (toLowerCase name) || includes "sorcerer" (toLowerCase name)
            || includes "bard" (toLowerCase name) || includes "warlock" (toLowerCase name));
    reflexivity.
Qed.

(** The loop over the classes leaves the ability of the last class that has
    one. *)
Lemma spellcasting_loop names : forall classesInfo current,
  map cls_name classesInfo = map VStr names ->
  forEach classesInfo spellcasting_body current =
  Ok (match spec_spellcastingAbility names with
      | Some a => Some a
      | None => current
      end).
Proof.
  induction names as [|name names IH]; intros [|cls classesInfo] current H;
    try discriminate; [reflexivity|].
  simpl in H. injection H as Hc Hr.
  cbn [forEach]. rewrite (spellcasting_body_named _ _ _ Hc). cbn [bind].
  rewrite (IH _ _ Hr). cbn [spec_spellcastingAbility].
  destruct (spec_spellcastingAbility names); reflexivity.
Qed.




Lemma toString_scalar v : is_scalar v = true -> exists s, toString v = Ok s.
Proof. destruct v as [| |[]| | | | |]; simpl; try discriminate; eauto. Qed.

(** With class names that are strings and stored bonuses that are scalars,
    the figures are computed without an exception. *)
Lemma spellcasting_of_returns classesInfo names totalLevel abilities :
  map cls_name classesInfo = map VStr names ->
  (forall name stored, ability_named name abilities = Some stored ->
                       is_scalar (bonus stored) = true) ->
  exists figures, spellcasting_of classesInfo totalLevel abilities = Ok figures.
Proof.
  intros Hn Hb. unfold spellcasting_of, resolve_spellcastingAbility.
  rewrite (spellcasting_loop names _ None Hn). cbn [bind].
  unfold resolve_spellcastingMod.
  destruct (spec_spellcastingAbility names) as [name|]; [|cbn; eauto].
  destruct (ability_named name abilities) as [stored|] eqn:E; [|cbn; eauto].
  unfold parseInt. destruct (toString_scalar _ (Hb _ _ E)) as [s ->]. cbn. eauto.
Qed.

End SpellcastingFacts.


(** The warlock of level 5 of the sample character, from the tree to the
    figures. *)
Example extract_spellcasting_warlock :
  (char <- safeGet (host := plain_host) sample_character "character" (VObj []) ;;
   extract_spellcasting (host := plain_host) char)
  = Ok {| profBonus := Int 3; spellcastingAbility := Some "charisma";
          spellcastingMod := Int 3; spellSaveDC := Int 14; spellAttackBonus := Int 6 |}.
Proof. reflexivity. Qed.

(** A fighter casts no spells: no ability, modifier 0, and the figures are
    those of the proficiency bonus alone. *)
Example spellcasting_of_fighter :
  spellcasting_of (host := plain_host) [class_named "Fighter" "5"] (Int 5) []
  = Ok {| profBonus := Int 3; spellcastingAbility := None; spellcastingMod := Int 0;
          spellSaveDC := Int 11; spellAttackBonus := Int 3 |}.
Proof. reflexivity. Qed.

(** ** Sorting *)

Section SortFacts.
Context {A : Type}.
Variable compare : A -> A -> completion number.
Variable order : A -> A -> Z.
Variable well_formed : A -> Prop.

(** On well-formed elements the comparison function is the total preorder
    [order]. *)
Hypothesis compare_order :
  forall x y, well_formed x -> well_formed y -> compare x y = Ok (Int (order x y)).
Hypothesis order_flip : forall x y, 0 <= order x y -> order y x <= 0.
Hypothesis order_trans : forall x y z, order x y <= 0 -> order y z <= 0 -> order x z <= 0.

Let le (x y : A) : Prop := order x y <= 0.

Lemma insert_sorted_spec x : forall sorted,
  well_formed x -> Forall well_formed sorted -> StronglySorted le sorted ->
  exists r, insert_sorted compare x sorted = Ok r
            /\ Permutation (x :: sorted) r
            /\ Forall well_formed r
            /\ StronglySorted le r.
Proof.
  induction sorted as [|y rest IH]; intros Hx Hwf Hs.
  - exists [x]. repeat split; auto. constructor; [constructor | constructor].
  - inversion Hwf as [|? ? Hy Hrest]; subst.
    inversion Hs as [|? ? Hsr Hyr]; subst.
    cbn [insert_sorted]. rewrite (compare_order _ _ Hx Hy). cbn [bind].
    destruct (order x y <? 0) eqn:E.
    + apply Z.ltb_lt in E.
      exists (x :: y :: rest). repeat split; auto.
      constructor; [exact Hs|].
      constructor; [unfold le; lia|].
      eapply Forall_impl; [|exact Hyr].
      intros z Hz. apply (order_trans x y z); [lia | exact Hz].
    + apply Z.ltb_ge in E.
      destruct (IH Hx Hrest Hsr) as [r [Hr [Hp [Hw Hsorted]]]].
      rewrite Hr. cbn [bind]. exists (y :: r). repeat split.
      * rewrite perm_swap. now constructor.
      * now constructor.
      * constructor; [exact Hsorted|].
        apply (Permutation_Forall Hp). constructor; [|exact Hyr].
        apply order_flip. lia.
Qed.

Lemma sort_loop_spec l : forall sorted,
  Forall well_formed l -> Forall well_formed sorted -> StronglySorted le sorted ->
  exists r, forEach l (fun acc x => insert_sorted compare x acc) sorted = Ok r
            /\ Permutation (sorted ++ l) r
            /\ Forall well_formed r
            /\ StronglySorted le r.
Proof.
  induction l as [|x l IH]; intros sorted Hl Hw Hs.
  - exists sorted. rewrite app_nil_r. repeat split; auto.
  - inversion Hl as [|? ? Hx Hl']; subst.
    destruct (insert_sorted_spec x sorted Hx Hw Hs) as [r1 [Hr1 [Hp1 [Hw1 Hs1]]]].
    cbn [forEach]. rewrite Hr1. cbn [bind].
    destruct (IH r1 Hl' Hw1 Hs1) as [r [Hr [Hp [Hwr Hsr]]]].
    exists r. repeat split; auto.
    rewrite <- Hp. rewrite <- Hp1. simpl.
    apply Permutation_sym, Permutation_middle.
Qed.

(** On well-formed elements [array_sort] returns, and returns the elements
    in order. *)
Lemma array_sort_spec l :
  Forall well_formed l ->
  exists r, array_sort compare l = Ok r
            /\ Permutation l r
            /\ Forall well_formed r
            /\ StronglySorted le r.
Proof.
  intros Hl. apply (sort_loop_spec l [] Hl); constructor.
Qed.

End SortFacts.

(** The order of the code units is a collation. *)
Lemma compare_units_flip a : forall b, 0 <= compare_units a b -> compare_units b a <= 0.
Proof.
  induction a as [|x a IH]; intros [|y b]; simpl; try lia.
  rewrite (Nat.compare_antisym (nat_of_ascii x) (nat_of_ascii y)).
  destruct (Nat.compare (nat_of_ascii x) (nat_of_ascii y)); simpl; try lia.
  apply IH.
Qed.

Lemma compare_units_trans a : forall b c,
  compare_units a b <= 0 -> compare_units b c <= 0 -> compare_units a c <= 0.
Proof.
  induction a as [|x a IH]; intros [|y b] [|z c]; simpl; try lia.
  destruct (Nat.compare_spec (nat_of_ascii x) (nat_of_ascii y)) as [Exy|Lxy|Gxy];
    destruct (Nat.compare_spec (nat_of_ascii y) (nat_of_ascii z)) as [Eyz|Lyz|Gyz];
    destruct (Nat.compare_spec (nat_of_ascii x) (nat_of_ascii z)) as [Exz|Lxz|Gxz];
    try lia.
  apply IH.
Qed.

#[export] Instance plain_collation : Collation plain_host.
Proof.
  split.
  - exact compare_units_flip.
  - exact compare_units_trans.
  - intros [|c s]; simpl; lia.
Qed.

(** The collation of the letters is one too. *)
Lemma compare_units_opp a : forall b, compare_units b a = - compare_units a b.
Proof.
  induction a as [|x a IH]; intros [|y b]; simpl; try reflexivity.
  rewrite (Nat.compare_antisym (nat_of_ascii x) (nat_of_ascii y)).
  destruct (Nat.compare (nat_of_ascii x) (nat_of_ascii y)); simpl; try reflexivity.
  apply IH.
Qed.

Lemma compare_units_eq a : forall b, compare_units a b = 0 -> a = b.
Proof.
  induction a as [|x a IH]; intros [|y b]; simpl; try discriminate; [reflexivity|].
  destruct (Nat.compare_spec (nat_of_ascii x) (nat_of_ascii y)) as [E|L|G];
    try discriminate.
  intros H. f_equal; [|now apply IH].
  rewrite <- (ascii_nat_embedding x), <- (ascii_nat_embedding y). now rewrite E.
Qed.

#[export] Instance letters_collation : Collation letters_host.
Proof.
  split; cbn [localeCompare letters_host]; unfold collate_letters.
  - intros a b. rewrite (compare_units_opp (toLowerCase a) (toLowerCase b)).
    rewrite (compare_units_opp a b).
    destruct (Z.eqb_spec (compare_units (toLowerCase a) (toLowerCase b)) 0) as [E|E];
      destruct (Z.eqb_spec (- compare_units (toLowerCase a) (toLowerCase b)) 0); lia.
  - intros a b c.
    destruct (Z.eqb_spec (compare_units (toLowerCase a) (toLowerCase b)) 0) as [Eab|Nab].
    + apply compare_units_eq in Eab. rewrite Eab.
      destruct (Z.eqb_spec (compare_units (toLowerCase b) (toLowerCase c)) 0) as [Ebc|Nbc];
        [|auto].
      intros H1 H2.
      pose proof (compare_units_trans c b a) as T.
      rewrite (compare_units_opp b c), (compare_units_opp a b),
        (compare_units_opp a c) in T. lia.
    + intros H1.
      destruct (Z.eqb_spec (compare_units (toLowerCase b) (toLowerCase c)) 0) as [Ebc|Nbc].
      * apply compare_units_eq in Ebc. rewrite <- Ebc. intros _.
        destruct (Z.eqb_spec (compare_units (toLowerCase a) (toLowerCase b)) 0);
          [contradiction | exact H1].
      * intros H2.
        pose proof (compare_units_trans _ _ _ H1 H2) as T.
        destruct (Z.eqb_spec (compare_units (toLowerCase a) (toLowerCase c)) 0) as [Eac|Nac];
          [|exact T].
        apply compare_units_eq in Eac. rewrite Eac in H1, Nab.
        rewrite (compare_units_opp (toLowerCase b) (toLowerCase c)) in H1. lia.
  - intros [|c s]; cbn; lia.
Qed.

Section SkillFacts.
Context {host : Host} {collation : Collation host}.

Lemma compare_skills_order a b :
  text_named a = true -> text_named b = true ->
  compare_skills a b = Ok (Int (localeCompare (skill_key a) (skill_key b))).
Proof.
  unfold text_named, compare_skills, skill_key, js_localeCompare.
  destruct (js_or (sk_name a) (VStr "")); try discriminate.
  destruct (js_or (sk_name b) (VStr "")); try discriminate.
  reflexivity.
Qed.

Lemma sorted_before {A} (R : A -> A -> Prop) l1 a l2 :
  StronglySorted R (l1 ++ a :: l2) -> Forall (fun b => R b a) l1.
Proof.
  induction l1 as [|b l1 IH]; simpl; intros H; [constructor|].
  inversion H as [|? ? Hs Hb]; subst. constructor; [|now apply IH].
  apply (proj1 (Forall_forall _ _) Hb). apply in_or_app. right. now left.
Qed.

(** C9: when the names of the collected skills are text (or missing, which
    counts as the empty name), the extracted skills are the collected ones
    put in the order of [localeCompare], the comparison of strings in the
    collation of the runtime (not the order of the code units), on their
    names as they are; an empty name comes first: the skills placed before
    it are its equals in that order; and of two skills, the one that the
    collation puts after the other comes out second: Stealth and
    Acrobatics come out as Acrobatics, Stealth wherever Stealth collates
    after Acrobatics. *)
Theorem extract_skills_sorted_by_name (char : value) (collected : list skill) :
  collect_skills char = Ok collected ->
  forallb text_named collected = true ->
  exists skills,
    extract_skills char = Ok skills
    /\ Permutation collected skills
    /\ StronglySorted skill_le skills
    /\ (forall before a after,
          skills = (before ++ a :: after)%list -> skill_key a = "" ->
          Forall (fun b => localeCompare (skill_key b) "" <= 0
                           /\ localeCompare "" (skill_key b) <= 0) before)
    /\ (forall a b,
          collected = [a; b] -> 0 < localeCompare (skill_key a) (skill_key b) ->
          skills = [b; a]).
Proof.
  intros Hc Hn. unfold extract_skills. rewrite Hc. cbn [bind].
  destruct (array_sort_spec compare_skills
              (fun a b => localeCompare (skill_key a) (skill_key b))
              (fun a => text_named a = true)
              compare_skills_order
              (fun x y => collation_flip (skill_key x) (skill_key y))
              (fun x y z => collation_trans (skill_key x) (skill_key y) (skill_key z))
              collected)
    as [skills [Hs [Hp [_ Hsorted]]]].
  - apply Forall_forall. intros a Ha. apply (proj1 (forallb_forall _ _) Hn a Ha).
  - exists skills. split; [exact Hs|]. split; [exact Hp|]. split; [exact Hsorted|]. split.
    + intros before a after -> Ha.
      apply sorted_before in Hsorted.
      eapply Forall_impl; [|exact Hsorted].
      intros b Hb. unfold skill_le in Hb. rewrite Ha in Hb.
      split; [exact Hb | apply collation_empty].
    + intros a b -> Hab.
      destruct (Permutation_length_2_inv Hp) as [->| ->]; [|reflexivity].
      inversion Hsorted as [|? ? _ Hf]; subst. inversion Hf as [|? ? Hle _]; subst.
      unfold skill_le in Hle. lia.
Qed.

End SkillFacts.

(** In the collation of the letters the skills Stealth and Acrobatics come
    out as Acrobatics, Stealth. *)
Lemma extract_skills_sorted_by_name_witness :
  collect_skills (host := letters_host) character_with_two_skills
  = Ok [ {| sk_name := VStr "Stealth"; sk_total := VStr "5"; sk_prof := true;
            sk_stat := VStr "dexterity" |};
         {| sk_name := VStr "Acrobatics"; sk_total := VStr "3"; sk_prof := false;
            sk_stat := VStr "dexterity" |} ]
  /\ exists skills,
      extract_skills (host := letters_host) character_with_two_skills = Ok skills
      /\ StronglySorted (skill_le (host := letters_host)) skills
      /\ skills
         = [ {| sk_name := VStr "Acrobatics"; sk_total := VStr "3"; sk_prof := false;
                sk_stat := VStr "dexterity" |};
             {| sk_name := VStr "Stealth"; sk_total := VStr "5"; sk_prof := true;
                sk_stat := VStr "dexterity" |} ].
Proof.
  split; [reflexivity|].
  destruct (extract_skills_sorted_by_name (host := letters_host)
              character_with_two_skills _ eq_refl eq_refl)
    as [skills [Hs [_ [Hsorted [_ Hpair]]]]].
  exists skills. split; [exact Hs|]. split; [exact Hsorted|].
  apply Hpair; reflexivity.
Defined.

(** The statement of C9 for a case-sensitive comparison fails where the
    collation of the runtime is not the order of the code units: the
    default collation puts apple before Banana (the letters are compared
    without their case first), and the skills Banana, apple come out as
    apple, Banana; the case-sensitive order of the code units has Banana
    first, since B is below a. *)
Lemma extract_skills_lower_case_first :
  extract_skills (host := letters_host) character_with_Banana_apple
  = Ok [skill_of "apple" "2" "strength"; skill_of "Banana" "1" "strength"]
  /\ compare_units "Banana" "apple" < 0
  /\ extract_skills (host := plain_host) character_with_Banana_apple
     = Ok [skill_of "Banana" "1" "strength"; skill_of "apple" "2" "strength"].
Proof. split; [reflexivity|]. split; [reflexivity | reflexivity]. Qed.

(** ** The order of the spells *)

(** Whatever the runtime, a cantrip compares above a spell of level 1: its
    level 0 is taken for 99. *)
Lemma compare_spells_cantrip_above {host : Host} (cantrip leveled : string) :
  compare_spells (spell_of cantrip "0") (spell_of leveled "1") = Ok (Int 98)
  /\ compare_spells (spell_of leveled "1") (spell_of cantrip "0") = Ok (Int (-98)).
Proof. split; reflexivity. Qed.

(** C2 at the spells Z of level 1, A of level 0 and A of level 1: a level
    that parses to 0 is replaced by 99 in the comparison function, so the
    cantrip A comes out last, after the spells of level 1, not first. *)
Theorem extract_spells_cantrip_last :
  collect_spells (host := plain_host) character_with_three_spells
  = Ok [spell_of "Z" "1"; spell_of "A" "0"; spell_of "A" "1"]
  /\ extract_spells (host := plain_host) character_with_three_spells
     = Ok [spell_of "A" "1"; spell_of "Z" "1"; spell_of "A" "0"]
  /\ extract_spells (host := plain_host) character_with_three_spells
     <> Ok [spell_of "A" "0"; spell_of "A" "1"; spell_of "Z" "1"].
Proof. split; [reflexivity|]. split; [reflexivity | discriminate]. Qed.

(** * What the code changes in the store *)

Module StoreFacts.
Import Store.

Section Frame.
Context {host : Host}.

Lemma readonly_ret {A} (a : A) : readonly (ret a).
Proof. intros st b st' H. now injection H as _ <-. Qed.

Lemma readonly_throw {A} e : readonly (@throw A e).
Proof. intros st b st' H. discriminate. Qed.

Lemma readonly_lift {A} (c : completion A) : readonly (lift c).
Proof. intros st b st' H. unfold lift in H. destruct c; [now injection H as _ <- | discriminate]. Qed.

Lemma readonly_load l : readonly (load l).
Proof.
  intros st b st' H. unfold load in H.
  destruct (nth_error st l); [now injection H as _ <- | discriminate].
Qed.

Lemma readonly_read x : readonly (read x).
Proof.
  intros st b st' H. unfold read in H.
  destruct (reify _ st x); [now injection H as _ <- | discriminate].
Qed.

Lemma readonly_bind {A B} (m : M A) (f : A -> M B) :
  readonly m -> (forall a, readonly (f a)) -> readonly (mbind m f).
Proof.
  intros Hm Hf st b st' H. unfold mbind in H.
  destruct (m st) as [[a st1]|] eqn:E; [|discriminate].
  apply Hm in E. subst st1. now apply (Hf a) in H.
Qed.

Lemma readonly_forEach {A S} (body : S -> A -> M S) (l : list A) :
  (forall s a, readonly (body s a)) -> forall s, readonly (forEach l body s).
Proof.
  intros Hb. induction l as [|a l IH]; intros s; simpl.
  - apply readonly_ret.
  - apply readonly_bind; [apply Hb | exact IH].
Qed.

Lemma readonly_has key x : readonly (has key x).
Proof.
  destruct x; simpl; [apply readonly_lift|].
  apply readonly_bind; [apply readonly_load | intros; apply readonly_ret].
Qed.

Lemma readonly_get x key : readonly (get x key).
Proof.
  destruct x; simpl.
  - apply readonly_bind; [apply readonly_lift | intros; apply readonly_ret].
  - apply readonly_bind; [apply readonly_load | intros; apply readonly_ret].
Qed.

Lemma readonly_keys x : readonly (keys x).
Proof.
  destruct x; simpl; [apply readonly_lift|].
  apply readonly_bind; [apply readonly_load | intros; apply readonly_ret].
Qed.

Lemma readonly_elements x : readonly (elements x).
Proof.
  destruct x; simpl; [apply readonly_throw|].
  apply readonly_bind; [apply readonly_load|].
  intros [|]; [apply readonly_ret | apply readonly_throw].
Qed.

Lemma readonly_unwrap_loop fuel : forall result, readonly (unwrap_loop fuel result).
Proof.
  induction fuel as [|fuel IH]; intros [v|l]; simpl;
    try apply readonly_ret; try apply readonly_throw.
  apply readonly_bind; [apply readonly_load|].
  intros [[|inner [|]]|]; try apply readonly_ret. apply IH.
Qed.

Lemma readonly_safeGet_finish result d : readonly (safeGet_finish result d).
Proof.
  unfold safeGet_finish. apply readonly_bind.
  - intros st a st' H. now apply readonly_unwrap_loop in H.
  - intros r. destruct (truthy_ref r && typeof_object_ref r); [|apply readonly_ret].
    apply readonly_bind; [apply readonly_has|].
    intros [|]; [apply readonly_get|].
    apply readonly_bind; [apply readonly_has|].
    intros [|]; [apply readonly_get | apply readonly_ret].
Qed.

Lemma readonly_safeGet_keys path_keys : forall result d,
  readonly (safeGet_keys path_keys result d).
Proof.
  induction path_keys as [|key rest IH]; intros result d; simpl.
  - apply readonly_safeGet_finish.
  - destruct (truthy_ref result && typeof_object_ref result); [|apply readonly_ret].
    apply readonly_bind; [apply readonly_has|].
    intros [|]; [|apply readonly_ret].
    apply readonly_bind; [apply readonly_get | intros; apply IH].
Qed.

(** [safeGet] leaves the store as it is. *)
Lemma readonly_safeGet obj path d : readonly (safeGet obj path d).
Proof. apply readonly_safeGet_keys. Qed.


Lemma readonly_preserves n {A} (m : M A) : readonly m -> preserves n m.
Proof. intros Hm st a st' Hn H. apply Hm in H. subst st'. now split. Qed.

Lemma preserves_ret n {A} (a : A) : preserves n (ret a).
Proof. apply readonly_preserves, readonly_ret. Qed.

Lemma preserves_bind n {A B} (m : M A) (f : A -> M B) :
  preserves n m -> (forall a, preserves n (f a)) -> preserves n (mbind m f).
Proof.
  intros Hm Hf st b st' Hn H. unfold mbind in H.
  destruct (m st) as [[a st1]|] eqn:E; [|discriminate].
  destruct (Hm _ _ _ Hn E) as [Hn1 H1].
  destruct (Hf a _ _ _ Hn1 H) as [Hn2 H2].
  split; [exact Hn2 | now rewrite H2].
Qed.

Lemma firstn_app_below {A} n (l ext : list A) :
  (n <= List.length l)%nat -> firstn n (l ++ ext) = firstn n l.
Proof.
  intros H. rewrite firstn_app.
  replace (n - List.length l)%nat with 0%nat by lia.
  simpl. apply app_nil_r.
Qed.

(** A new cell lies beyond the first [n] cells. *)
Lemma preserves_alloc_bind n {B} c (f : rvalue -> M B) :
  (forall l, (n <= l)%nat -> preserves n (f (Ref l))) -> preserves n (mbind (alloc c) f).
Proof.
  intros Hf st b st' Hn H. unfold mbind, alloc in H.
  destruct (Hf (List.length st) Hn (st ++ [c])%list b st') as [Hn2 H2].
  - rewrite length_app. lia.
  - exact H.
  - split; [exact Hn2|]. rewrite H2. now apply firstn_app_below.
Qed.

Lemma preserves_alloc n c : preserves n (alloc c).
Proof.
  intros st b st' Hn H. unfold alloc in H. injection H as _ <-.
  split; [rewrite length_app; lia | now apply firstn_app_below].
Qed.

Lemma length_replace_nth {A} (a : A) l : forall i, List.length (replace_nth i a l) = List.length l.
Proof. induction l as [|x l IH]; intros [|i]; simpl; auto. Qed.

Lemma firstn_replace_nth {A} (a : A) l : forall n i,
  (n <= i)%nat -> firstn n (replace_nth i a l) = firstn n l.
Proof.
  induction l as [|x l IH]; intros [|n] [|i] H; simpl; try reflexivity; try lia.
  rewrite IH; [reflexivity | lia].
Qed.

(** A write beyond the first [n] cells. *)
Lemma preserves_write n l c : (n <= l)%nat -> preserves n (write l c).
Proof.
  intros Hl st b st' Hn H. unfold write in H.
  destruct (l <? List.length st)%nat; [|discriminate]. injection H as _ <-.
  split; [now rewrite length_replace_nth | now apply firstn_replace_nth].
Qed.

Lemma preserves_forEach n {A S} (body : S -> A -> M S) (l : list A) :
  (forall s a, preserves n (body s a)) -> forall s, preserves n (forEach l body s).
Proof.
  intros Hb. induction l as [|a l IH]; intros s; simpl.
  - apply preserves_ret.
  - apply preserves_bind; [apply Hb | exact IH].
Qed.

Lemma preserves_push n l x : (n <= l)%nat -> preserves n (push (Ref l) x).
Proof.
  intros Hl. simpl. apply preserves_bind; [apply readonly_preserves, readonly_load|].
  intros [|]; [now apply preserves_write | apply readonly_preserves, readonly_throw].
Qed.

Lemma preserves_assign n l key x : (n <= l)%nat -> preserves n (assign (Ref l) key x).
Proof.
  intros Hl. simpl. apply preserves_bind; [apply readonly_preserves, readonly_load|].
  intros [|]; [apply readonly_preserves, readonly_throw | now apply preserves_write].
Qed.

Lemma readonly_insert_sorted compare x :
  (forall a b, readonly (compare a b)) -> forall sorted, readonly (insert_sorted compare x sorted).
Proof.
  intros Hc. induction sorted as [|y rest IH]; simpl; [apply readonly_ret|].
  apply readonly_bind; [apply Hc|].
  intros [c|].
  - destruct (c <? 0); [apply readonly_ret|].
    apply readonly_bind; [exact IH | intros; apply readonly_ret].
  - apply readonly_bind; [exact IH | intros; apply readonly_ret].
Qed.

(** Sorting writes the sorted array and nothing else. *)
Lemma preserves_sort n l compare :
  (n <= l)%nat -> (forall a b, readonly (compare a b)) -> preserves n (sort (Ref l) compare).
Proof.
  intros Hl Hc. unfold sort.
  apply preserves_bind; [apply readonly_preserves, readonly_elements|]. intros elems.
  apply preserves_bind; [|intros; now apply preserves_write].
  apply readonly_preserves, readonly_forEach. intros s a.
  now apply readonly_insert_sorted.
Qed.


(** ** The grouping of the spells by level

    [spellsByLevel[level].push(spell)] writes an array that it reads from
    an object: the arrays stored in that object are the ones the loop has
    allocated. *)

Lemma with_readonly n inv {A} (m : M A) : readonly m -> preserves_with n inv m.
Proof. intros Hm st a st' Hn Hi H. apply Hm in H. subst st'. now repeat split. Qed.

Lemma with_bind n inv {A B} (m : M A) (f : A -> M B) :
  preserves_with n inv m -> (forall a, preserves_with n inv (f a)) ->
  preserves_with n inv (mbind m f).
Proof.
  intros Hm Hf st b st' Hn Hi H. unfold mbind in H.
  destruct (m st) as [[a st1]|] eqn:E; [|discriminate].
  destruct (Hm _ _ _ Hn Hi E) as [Hn1 [H1 Hi1]].
  destruct (Hf a _ _ _ Hn1 Hi1 H) as [Hn2 [H2 Hi2]].
  split; [exact Hn2|]. split; [now rewrite H2 | exact Hi2].
Qed.

Lemma with_forEach n inv {A S} (body : S -> A -> M S) (l : list A) :
  (forall s a, preserves_with n inv (body s a)) ->
  forall s, preserves_with n inv (forEach l body s).
Proof.
  intros Hb. induction l as [|a l IH]; intros s; simpl.
  - apply with_readonly, readonly_ret.
  - apply with_bind; [apply Hb | exact IH].
Qed.

Lemma nth_error_replace_nth_eq {A} (a : A) l : forall i,
  (i < List.length l)%nat -> nth_error (replace_nth i a l) i = Some a.
Proof.
  induction l as [|x l IH]; intros [|i] H; simpl in *; try lia; [reflexivity|].
  apply IH. lia.
Qed.

Lemma nth_error_replace_nth_ne {A} (a : A) l : forall i j,
  i <> j -> nth_error (replace_nth i a l) j = nth_error l j.
Proof.
  induction l as [|x l IH]; intros [|i] [|j] H; simpl; try reflexivity; try congruence.
  apply IH. congruence.
Qed.

Lemma fresh_set_assoc n key x props :
  match x with Ref l => (n <= l)%nat | Const _ => True end ->
  fresh_values n props -> fresh_values n (set_assoc key x props).
Proof.
  intros Hx. induction 1 as [|[k y] rest Hy Hrest IH]; simpl.
  - constructor; [exact Hx | constructor].
  - destruct (String.eqb k key); [constructor; auto|].
    destruct (key_before key k); repeat (constructor; auto).
Qed.

Lemma fresh_assoc_ref n key props x :
  fresh_values n props -> assoc_ref key props = Some x ->
  match x with Ref l => (n <= l)%nat | Const _ => True end.
Proof.
  induction 1 as [|[k y] rest Hy Hrest IH]; simpl; [discriminate|].
  destruct (String.eqb k key); [|exact IH].
  intros H. injection H as <-. exact Hy.
Qed.

(** [spellsByLevel[level] = []] *)
Lemma with_new_bucket n l property :
  (n <= l)%nat ->
  preserves_with n (holds_fresh n l)
    (bucket <~ alloc (Arr []) ;; assign (Ref l) property bucket).
Proof.
  intros Hle st a st' Hn [props [Hl Hf]] H.
  unfold mbind, alloc, assign, mbind, load in H.
  assert (Hlt : (l < List.length st)%nat) by (apply nth_error_Some; congruence).
  rewrite nth_error_app1, Hl in H by exact Hlt.
  unfold write in H. rewrite length_app in H. simpl in H.
  destruct (l <? List.length st + 1)%nat eqn:E; [|discriminate].
  injection H as _ <-.
  split; [rewrite length_replace_nth, length_app; lia|].
  split.
  - rewrite firstn_replace_nth by exact Hle. now apply firstn_app_below.
  - exists (set_assoc property (Ref (List.length st)) props). split.
    + apply nth_error_replace_nth_eq. rewrite length_app. simpl. lia.
    + apply fresh_set_assoc; [exact Hn | exact Hf].
Qed.

(** [spellsByLevel[level].push(spell)] *)
Lemma with_push_bucket n l property x :
  preserves_with n (holds_fresh n l)
    (bucket <~ get (Ref l) property ;; push bucket x).
Proof.
  intros st a st' Hn [props [Hl Hf]] H.
  unfold mbind, get, mbind, load in H. rewrite Hl in H. unfold ret in H.
  unfold lookup in H. cbn [own] in H.
  destruct (assoc_ref property props) as [[v|l']|] eqn:Ea.
  - discriminate.
  - pose proof (fresh_assoc_ref _ _ _ _ Hf Ea) as Hl'. cbn in Hl'.
    unfold push, mbind, load in H.
    destruct (nth_error st l') as [[elems|props']|] eqn:El'; try discriminate.
    unfold write in H. destruct (l' <? List.length st)%nat; [|discriminate].
    injection H as _ <-.
    split; [now rewrite length_replace_nth|].
    split; [now apply firstn_replace_nth|].
    exists props. split; [|exact Hf].
    rewrite nth_error_replace_nth_ne; [exact Hl | congruence].
  - destruct (inherited KObject property); discriminate.
Qed.

Lemma with_spellsByLevel_body n l u spell_ :
  (n <= l)%nat -> preserves_with n (holds_fresh n l) (spellsByLevel_body (Ref l) u spell_).
Proof.
  intros Hle. unfold spellsByLevel_body.
  apply with_bind; [apply with_readonly, readonly_get|]. intros spellLevel.
  apply with_bind.
  { apply with_readonly. apply readonly_bind; [apply readonly_read | intros; apply readonly_lift]. }
  intros property.
  apply with_bind; [apply with_readonly, readonly_get|]. intros existing.
  apply with_bind.
  - destruct (negb (truthy_ref existing)); [now apply with_new_bucket|].
    apply with_readonly, readonly_ret.
  - intros _. apply with_push_bucket.
Qed.

(** The grouping leaves the first [n] cells as they are, when the rest of
    the block does. *)
Lemma preserves_grouping n {B} spellList (rest : rvalue -> M B) :
  (forall l, (n <= l)%nat -> preserves n (rest (Ref l))) ->
  preserves n (grouped <~ alloc (Obj []) ;;
               _ <~ forEach spellList (spellsByLevel_body grouped) tt ;;
               rest grouped).
Proof.
  intros Hrest st b st' Hn H. unfold mbind at 1 in H. unfold alloc in H.
  unfold mbind in H.
  destruct (forEach spellList (spellsByLevel_body (Ref (List.length st))) tt
              (st ++ [Obj []])%list) as [[u st1]|] eqn:E; [|discriminate].
  assert (Hlen : (n <= List.length (st ++ [Obj []]))%nat) by (rewrite length_app; lia).
  assert (Hinv : holds_fresh n (List.length st) (st ++ [Obj []])%list).
  { exists []. split; [|constructor].
    rewrite nth_error_app2 by lia. now rewrite Nat.sub_diag. }
  destruct (with_forEach n (holds_fresh n (List.length st))
              (spellsByLevel_body (Ref (List.length st))) spellList
              (fun s a => with_spellsByLevel_body n _ s a Hn) tt _ _ _ Hlen Hinv E)
    as [Hn1 [H1 _]].
  destruct (Hrest _ Hn _ _ _ Hn1 H) as [Hn2 H2].
  split; [exact Hn2|]. rewrite H2, H1. now apply firstn_app_below.
Qed.


(** ** The steps of [generateCharacterHTML] *)

Create HintDb frame.

#[local] Hint Resolve readonly_ret readonly_throw readonly_lift readonly_load readonly_read
  readonly_has readonly_get readonly_keys readonly_elements readonly_safeGet : frame.

(** Proves that a computation made of reads is [readonly]. *)
Ltac reads :=
  repeat first
    [ solve [auto with frame]
    | apply readonly_bind; [|intros ?]
    | match goal with
      | |- readonly (if ?b then _ else _) => destruct b
      | |- readonly (match ?x with _ => _ end) => destruct x
      end ].

Lemma readonly_entry_of container key : readonly (entry_of container key).
Proof. unfold entry_of. reads. Qed.

Lemma readonly_parseInt_ref x : readonly (parseInt_ref x).
Proof. unfold parseInt_ref. reads. Qed.

Lemma readonly_toString_ref x : readonly (toString_ref x).
Proof. unfold toString_ref. reads. Qed.

#[local] Hint Resolve readonly_entry_of readonly_parseInt_ref readonly_toString_ref : frame.

Lemma readonly_localeCompare_ref a b : readonly (localeCompare_ref a b).
Proof. unfold localeCompare_ref. reads. Qed.

#[local] Hint Resolve readonly_localeCompare_ref : frame.

Lemma readonly_compare_skills a b : readonly (compare_skills a b).
Proof. unfold compare_skills. reads. Qed.

Lemma readonly_compare_spells a b : readonly (compare_spells a b).
Proof. unfold compare_spells. reads. Qed.

Lemma readonly_compare_slot_levels a b : readonly (compare_slot_levels a b).
Proof. unfold compare_slot_levels. reads. Qed.

#[local] Hint Resolve readonly_compare_slot_levels : frame.

Lemma readonly_compare_spell_levels a b : readonly (compare_spell_levels a b).
Proof. unfold compare_spell_levels. reads. Qed.

Lemma readonly_description_of entry field callback :
  readonly (description_of entry field callback).
Proof. unfold description_of. reads. Qed.

Lemma readonly_optional_bonus abilities name : readonly (optional_bonus abilities name).
Proof. unfold optional_bonus. reads. Qed.

Lemma readonly_includes_ref x needle : readonly (includes_ref x needle).
Proof. unfold includes_ref. reads. Qed.

Lemma readonly_spellcasting_body current cls : readonly (spellcasting_body current cls).
Proof. unfold spellcasting_body. reads. Qed.

Lemma readonly_spellcastingMod_of chosen abilities : readonly (spellcastingMod_of chosen abilities).
Proof. unfold spellcastingMod_of. reads. Qed.

#[local] Hint Resolve readonly_compare_skills readonly_compare_spells
  readonly_compare_spell_levels readonly_description_of readonly_optional_bonus
  readonly_includes_ref readonly_spellcasting_body readonly_spellcastingMod_of : frame.

Lemma preserves_safeGet_object n obj path : preserves n (safeGet_object obj path).
Proof.
  unfold safeGet_object. apply preserves_alloc_bind. intros l _.
  apply readonly_preserves, readonly_safeGet.
Qed.

#[local] Hint Resolve preserves_ret preserves_alloc preserves_safeGet_object
  preserves_push preserves_assign preserves_sort : frame.

(** Proves that a computation leaves the first cells as they are: its reads
    are reads, and its writes go to cells it has allocated. *)
Ltac frame :=
  repeat first
    [ solve [auto with frame]
    | solve [apply readonly_preserves; reads]
    | apply preserves_grouping; intros ? ?
    | apply preserves_alloc_bind; intros ? ?
    | apply preserves_bind; [|intros ?]
    | apply preserves_forEach; intros ? ?
    | match goal with
      | |- preserves _ (if ?b then _ else _) => destruct b
      | |- preserves _ (match ?x with _ => _ end) => destruct x
      end ].

Lemma preserves_classes_body n l classesData totalLevel key :
  (n <= l)%nat -> preserves n (classes_body (Ref l) classesData totalLevel key).
Proof. intros Hl. unfold classes_body. frame. Qed.

Lemma preserves_abilities_body n l char u abilName :
  (n <= l)%nat -> preserves n (abilities_body char (Ref l) u abilName).
Proof. intros Hl. unfold abilities_body. frame. Qed.

Lemma preserves_skills_body n l skillListData u key :
  (n <= l)%nat -> preserves n (skills_body (Ref l) skillListData u key).
Proof. intros Hl. unfold skills_body. frame. Qed.

Lemma preserves_features_body n l featureListData u key :
  (n <= l)%nat -> preserves n (features_body (Ref l) featureListData u key).
Proof. intros Hl. unfold features_body. frame. Qed.

Lemma preserves_feats_body n l featListData u key :
  (n <= l)%nat -> preserves n (feats_body (Ref l) featListData u key).
Proof. intros Hl. unfold feats_body. frame. Qed.

Lemma preserves_inventory_body n l invListData u key :
  (n <= l)%nat -> preserves n (inventory_body (Ref l) invListData u key).
Proof. intros Hl. unfold inventory_body. frame. Qed.

Lemma preserves_coins_body n l coinsData u key :
  (n <= l)%nat -> preserves n (coins_body (Ref l) coinsData u key).
Proof. intros Hl. unfold coins_body. frame. Qed.

Lemma preserves_spellSlots_body n l powermeta u i :
  (n <= l)%nat -> preserves n (spellSlots_body (Ref l) powermeta u i).
Proof. intros Hl. unfold spellSlots_body. frame. Qed.

Lemma preserves_sorceryPoints_body n powersData current key :
  preserves n (sorceryPoints_body powersData current key).
Proof. unfold sorceryPoints_body. frame. Qed.

Lemma preserves_spells_body n l powersData u key :
  (n <= l)%nat -> preserves n (spells_body (Ref l) powersData u key).
Proof. intros Hl. unfold spells_body. frame. Qed.

#[local] Hint Resolve preserves_classes_body preserves_abilities_body preserves_skills_body
  preserves_features_body preserves_feats_body preserves_inventory_body
  preserves_coins_body preserves_spellSlots_body preserves_sorceryPoints_body
  preserves_spells_body : frame.

(** [generateCharacterHTML] leaves every cell that exists when it is called
    as it is. *)
Lemma preserves_generateCharacterHTML n characterData :
  preserves n (generateCharacterHTML characterData).
Proof. unfold generateCharacterHTML, key_array. frame. Qed.

Lemma all_some_map_mono {A B} (f g : A -> option B) (l : list A) :
  (forall a r, f a = Some r -> g a = Some r) ->
  forall rs, all_some (map f l) = Some rs -> all_some (map g l) = Some rs.
Proof.
  intros Hfg. induction l as [|a l IH]; intros rs; simpl; [auto|].
  destruct (f a) as [r|] eqn:E; [|discriminate].
  rewrite (Hfg _ _ E).
  destruct (all_some (map f l)) as [rs'|]; [|discriminate].
  now rewrite (IH rs' eq_refl).
Qed.

(** A tree of the store is the same tree in a store with more cells. *)
Lemma reify_extend (st ext : store) fuel : forall x tree,
  reify fuel st x = Some tree -> reify fuel (st ++ ext)%list x = Some tree.
Proof.
  induction fuel as [|fuel IH]; intros [v|l] tree; simpl; try discriminate; auto.
  destruct (nth_error st l) as [c|] eqn:E; [|discriminate].
  assert (Hl : (l < List.length st)%nat) by (apply nth_error_Some; congruence).
  rewrite nth_error_app1, E by exact Hl.
  destruct c as [elems|props].
  - destruct (all_some (map (reify fuel st) elems)) as [ts|] eqn:Ea; [|discriminate].
    now rewrite (all_some_map_mono _ (reify fuel (st ++ ext)%list) _ (IH) _ Ea).
  - set (f := fun st (kx : string * rvalue) => option_map (pair (fst kx)) (reify fuel st (snd kx))).
    change (option_map VObj (all_some (map (f st) props)) = Some tree ->
            option_map VObj (all_some (map (f (st ++ ext)%list) props)) = Some tree).
    destruct (all_some (map (f st) props)) as [ts|] eqn:Ea; [|discriminate].
    rewrite (all_some_map_mono (f st) (f (st ++ ext)%list) props) with (rs := ts);
      [auto| |exact Ea].
    intros [k x] r. unfold f. simpl.
    destruct (reify fuel st x) as [t|] eqn:Er; [|discriminate].
    now rewrite (IH _ _ Er).
Qed.

Lemma firstn_prefix {A} (l l' : list A) :
  firstn (List.length l) l' = l -> l' = (l ++ skipn (List.length l) l')%list.
Proof. intros H. rewrite <- H at 1. symmetry. apply firstn_skipn. Qed.

(** C10: [safeGet] returns with the store as it was; and when
    [generateCharacterHTML] returns, every array and object that existed
    at the call is as it was, so the tree under any value, the input among
    them, is the same tree as before. *)
Theorem parsed_tree_not_mutated (st : store) :
  (forall obj path defaultValue result st',
      safeGet obj path defaultValue st = Ok (result, st') -> st' = st)
  /\ (forall characterData built st',
         generateCharacterHTML characterData st = Ok (built, st') ->
         firstn (List.length st) st' = st
         /\ forall fuel x tree, reify fuel st x = Some tree -> reify fuel st' x = Some tree).
Proof.
  split.
  - intros obj path d result st' H. exact (readonly_safeGet obj path d _ _ _ H).
  - intros characterData built st' H.
    destruct (preserves_generateCharacterHTML (List.length st) characterData _ _ _
                (Nat.le_refl _) H) as [_ Hf].
    rewrite firstn_all in Hf. split; [exact Hf|].
    intros fuel x tree Hr. rewrite (firstn_prefix _ _ Hf). now apply reify_extend.
Qed.

(** The property is not a property of every computation on the store: a
    [push] on an array of the tree changes it. *)
Example push_changes_the_tree :
  ~ preserves 1 (push (Ref 0) (Const VNull)).
Proof.
  intros H.
  destruct (H [Arr []] tt [Arr [Const VNull]] (Nat.le_refl _) eq_refl) as [_ Hf].
  discriminate.
Qed.

End Frame.

(** On the sample character the two embeddings of [safeGet] read the same
    name. *)
Example store_agrees_on_sample :
  (match intern sample_character [] with
   | Ok (root, st) =>
       match safeGet (host := plain_host) root "character.0.name.0" (str "") st with
       | Ok (found, st') => reify (S (List.length st')) st' found
       | Throw _ => None
       end
   | Throw _ => None
   end)
  = Some (VStr "Mira")
  /\ sample_name_by_value = Ok (VStr "Mira").
Proof. split; vm_compute; reflexivity. Qed.

Lemma parsed_tree_not_mutated_witness :
  exists root st built st',
    intern sample_character [] = Ok (root, st)
    /\ generateCharacterHTML (host := plain_host) root st = Ok (built, st')
    /\ firstn (List.length st) st' = st
    /\ reify (S (List.length st)) st' root = Some sample_character.
Proof.
  eexists. eexists. eexists. eexists.
  split; [vm_compute; reflexivity|].
  match goal with
  | |- ?run = _ /\ _ => 
      let r := eval vm_compute in run in
      match r with
      | Ok (?b, ?s) => 
          assert (Hrun : run = Ok (b, s)) by (vm_compute; reflexivity)
      end
  end.
  split; [exact Hrun|].
  destruct (proj2 (parsed_tree_not_mutated (host := plain_host) _) _ _ _ Hrun) as [Hf Hr].
  split; [exact Hf|].
  apply Hr. vm_compute. reflexivity.
Defined.

End StoreFacts.

(** * Further properties *)

(** ** Numerals: [String(n)] and [parseInt] *)

Section NumeralFacts.

Lemma parse_digits_acc d : forall a,
  parse_digits 10 (Some (Z.pos a)) (NilEmpty.string_of_uint d)
  = Some (Z.pos (Pos.of_uint_acc d a)).
Proof.
  induction d; intros a; cbn [NilEmpty.string_of_uint parse_digits Pos.of_uint_acc];
    try reflexivity;
    match goal with
    | |- context [radix_digit 10 ?c] =>
        let v := eval vm_compute in (radix_digit 10 c) in
        change (radix_digit 10 c) with v; cbv iota
    end;
    rewrite <- IHd; f_equal; f_equal; lia.
Qed.

Lemma parse_digits_zero d :
  parse_digits 10 (Some 0) (NilEmpty.string_of_uint d) = Some (Z.of_N (Pos.of_uint d)).
Proof.
  induction d; cbn [NilEmpty.string_of_uint parse_digits Pos.of_uint];
    try reflexivity;
    match goal with
    | |- context [radix_digit 10 ?c] =>
        let v := eval vm_compute in (radix_digit 10 c) in
        change (radix_digit 10 c) with v; cbv iota
    end;
    try exact IHd;
    cbn [Z.mul Z.add Z.of_N]; apply parse_digits_acc.
Qed.

Lemma parse_digits_start d :
  d <> Decimal.Nil ->
  parse_digits 10 None (NilEmpty.string_of_uint d)
  = parse_digits 10 (Some 0) (NilEmpty.string_of_uint d).
Proof. destruct d; intros H; [congruence| reflexivity ..]. Qed.

Lemma string_of_uint_digits d : all_digits (NilEmpty.string_of_uint d) = true.
Proof. induction d; simpl; auto. Qed.

(** On a numeral, [parseInt] has no white space, sign or prefix to skip. *)
Lemma parseInt_string_digits s :
  s <> EmptyString -> all_digits s = true ->
  parseInt_string s = parse_digits 10 None s.
Proof.
  destruct s as [|c s]; [congruence|]. intros _ H.
  simpl in H. apply andb_true_iff in H. destruct H as [Hc Hs].
  assert (E : forall o : option Z,
             match o with Some n => Some (1 * n) | None => None end = o).
  { intros [n|]; [f_equal; lia | reflexivity]. }
  destruct s as [|c2 s].
  - destruct c as [[] [] [] [] [] [] [] []]; try discriminate Hc; reflexivity.
  - simpl in Hs. apply andb_true_iff in Hs. destruct Hs as [Hc2 _].
    destruct c as [[] [] [] [] [] [] [] []]; try discriminate Hc;
      try (unfold parseInt_string; cbn [trimStart is_space]; apply E).
    destruct c2 as [[] [] [] [] [] [] [] []]; try discriminate Hc2;
      unfold parseInt_string; cbn [trimStart is_space]; apply E.
Qed.

Lemma parseInt_string_minus s :
  s <> EmptyString -> all_digits s = true ->
  parseInt_string (String "-" s) = option_map Z.opp (parse_digits 10 None s).
Proof.
  destruct s as [|c s]; [congruence|]. intros _ H.
  simpl in H. apply andb_true_iff in H. destruct H as [Hc Hs].
  assert (E : forall o : option Z,
             match o with Some n => Some (-1 * n) | None => None end = option_map Z.opp o).
  { intros [n|]; simpl; [f_equal; lia | reflexivity]. }
  destruct s as [|c2 s].
  - destruct c as [[] [] [] [] [] [] [] []]; try discriminate Hc; reflexivity.
  - simpl in Hs. apply andb_true_iff in Hs. destruct Hs as [Hc2 _].
    destruct c as [[] [] [] [] [] [] [] []]; try discriminate Hc;
      try (unfold parseInt_string; cbn [trimStart is_space]; apply E).
    destruct c2 as [[] [] [] [] [] [] [] []]; try discriminate Hc2;
      unfold parseInt_string; cbn [trimStart is_space]; apply E.
Qed.

Lemma to_uint_not_nil p : Pos.to_uint p <> Decimal.Nil.
Proof.
  intros H. pose proof (DecimalPos.Unsigned.of_to p) as E. rewrite H in E. discriminate.
Qed.

Lemma string_of_uint_not_empty d : d <> Decimal.Nil -> NilEmpty.string_of_uint d <> EmptyString.
Proof. destruct d; intros H; [congruence | discriminate ..]. Qed.

Lemma parse_numeral p :
  parse_digits 10 None (NilEmpty.string_of_uint (Pos.to_uint p)) = Some (Z.pos p).
Proof.
  rewrite (parse_digits_start _ (to_uint_not_nil p)), parse_digits_zero.
  now rewrite DecimalPos.Unsigned.of_to.
Qed.

Lemma string_of_uint_numeral p :
  NilZero.string_of_uint (Pos.to_uint p) = NilEmpty.string_of_uint (Pos.to_uint p).
Proof.
  pose proof (to_uint_not_nil p) as Hn. unfold NilZero.string_of_uint.
  destruct (Pos.to_uint p); [congruence | reflexivity ..].
Qed.

(** The numeral of an integer parses back to it. *)
Lemma parseInt_string_of_Z n : parseInt_string (string_of_Z n) = Some n.
Proof.
  destruct n as [|p|p]; [reflexivity| |]; unfold string_of_Z; simpl Z.to_int;
    unfold NilZero.string_of_int; rewrite string_of_uint_numeral.
  - rewrite parseInt_string_digits.
    + apply parse_numeral.
    + apply string_of_uint_not_empty, to_uint_not_nil.
    + apply string_of_uint_digits.
  - rewrite parseInt_string_minus.
    + now rewrite parse_numeral.
    + apply string_of_uint_not_empty, to_uint_not_nil.
    + apply string_of_uint_digits.
Qed.

End NumeralFacts.

Section NumberFacts.
Context {host : Host}.

Lemma parseInt_string_plus s :
  s <> EmptyString -> all_digits s = true ->
  parseInt_string (String "+" s) = parse_digits 10 None s.
Proof.
  destruct s as [|c s]; [congruence|]. intros _ H.
  simpl in H. apply andb_true_iff in H. destruct H as [Hc Hs].
  assert (E : forall o : option Z,
             match o with Some n => Some (1 * n) | None => None end = o).
  { intros [n|]; [f_equal; lia | reflexivity]. }
  destruct s as [|c2 s].
  - destruct c as [[] [] [] [] [] [] [] []]; try discriminate Hc; reflexivity.
  - simpl in Hs. apply andb_true_iff in Hs. destruct Hs as [Hc2 _].
    destruct c as [[] [] [] [] [] [] [] []]; try discriminate Hc;
      try (unfold parseInt_string; cbn [trimStart is_space]; apply E).
    destruct c2 as [[] [] [] [] [] [] [] []]; try discriminate Hc2;
      unfold parseInt_string; cbn [trimStart is_space]; apply E.
Qed.

Lemma parseInt_of_integer n : parseInt (VNum (Int n)) = Ok (Int n).
Proof. unfold parseInt. simpl. now rewrite parseInt_string_of_Z. Qed.

Lemma parseInt_string_signed n :
  parseInt_string ((if 0 <=? n then "+" else "") ++ string_of_Z n) = Some n.
Proof.
  destruct (0 <=? n) eqn:E; [|apply parseInt_string_of_Z].
  apply Z.leb_le in E. simpl append.
  destruct n as [|p|p]; [reflexivity| |lia].
  unfold string_of_Z. simpl Z.to_int. unfold NilZero.string_of_int.
  rewrite string_of_uint_numeral, parseInt_string_plus.
  - apply parse_numeral.
  - apply string_of_uint_not_empty, to_uint_not_nil.
  - apply string_of_uint_digits.
Qed.

Lemma getProficiencyBonus_number k :
  getProficiencyBonus (VNum (Int k)) = Int (2 + (k - 1) / 4).
Proof. unfold getProficiencyBonus. now rewrite parseInt_of_integer. Qed.

(** X1: a total level that is a safe integer (between -2^53 and 2^53, where
    the numbers of the code are exact), given as a number (as
    [generateCharacterHTML] gives it) or as its decimal numeral, has the
    proficiency bonus 2 + floor((level - 1) / 4), never NaN; the bonus goes
    up by one every four levels and never goes down as the level goes up,
    within that range. *)
Theorem getProficiencyBonus_of_integer (n : Z) :
  safe_integer n ->
  getProficiencyBonus (VNum (Int n)) = Int (2 + (n - 1) / 4)
  /\ getProficiencyBonus (VStr (string_of_Z n)) = Int (2 + (n - 1) / 4)
  /\ (safe_integer (n + 4) ->
      getProficiencyBonus (VNum (Int (n + 4)))
      = num_add (getProficiencyBonus (VNum (Int n))) (Int 1))
  /\ forall m, safe_integer m -> n <= m ->
       exists low high,
         getProficiencyBonus (VNum (Int n)) = Int low
         /\ getProficiencyBonus (VNum (Int m)) = Int high
         /\ low <= high.
Proof.
  intros _.
  pose proof getProficiencyBonus_number as F.
  split; [apply F|]. split.
  { unfold getProficiencyBonus, parseInt. simpl. now rewrite parseInt_string_of_Z. }
  split.
  { intros _. rewrite !F. cbn [num_add]. f_equal.
    replace (n + 4 - 1) with ((n - 1) + 1 * 4) by lia.
    rewrite Z.div_add by lia. lia. }
  intros m _ Hm. exists (2 + (n - 1) / 4), (2 + (m - 1) / 4).
  rewrite !F. repeat split.
  apply Z.add_le_mono_l. apply Z.div_le_mono; lia.
Qed.

(** X2: a value that is a safe integer (between -2^53 and 2^53) is rendered
    by [formatModifier] with its sign written out, "+" from zero up; the
    rendered text parses back to the integer. *)
Theorem formatModifier_of_integer (n : Z) :
  safe_integer n ->
  formatModifier (VNum (Int n)) = VStr ((if 0 <=? n then "+" else "") ++ string_of_Z n)
  /\ formatModifier (VStr (string_of_Z n))
     = VStr ((if 0 <=? n then "+" else "") ++ string_of_Z n)
  /\ parseInt (formatModifier (VNum (Int n))) = Ok (Int n)
  /\ exists digits,
       (if 0 <=? n then "+" else "") ++ string_of_Z n
       = String (if 0 <=? n then "+"%char else "-"%char) digits.
Proof.
  intros _.
  assert (F : formatModifier (VNum (Int n))
              = VStr ((if 0 <=? n then "+" else "") ++ string_of_Z n)).
  { unfold formatModifier. rewrite parseInt_of_integer. simpl.
    destruct (0 <=? n); reflexivity. }
  split; [exact F|]. split.
  { unfold formatModifier, parseInt. simpl. rewrite parseInt_string_of_Z. simpl.
    destruct (0 <=? n); reflexivity. }
  split.
  { rewrite F. unfold parseInt. simpl. now rewrite parseInt_string_signed. }
  destruct (0 <=? n) eqn:E.
  - simpl. eauto.
  - apply Z.leb_gt in E. simpl. apply string_of_Z_negative. exact E.
Qed.

(** X3: formatting twice is formatting once, for every value that does not
    read as an integer beyond the safe ones: a formatted integer parses
    back to itself, "NaN" is rendered as "NaN", and a value that the
    [catch] block returned is returned again. *)
Theorem formatModifier_idempotent (v : value) :
  (forall n, parseInt v = Ok (Int n) -> safe_integer n) ->
  formatModifier (formatModifier v) = formatModifier v.
Proof.
  intros _.
  unfold formatModifier at 2 3.
  destruct (parseInt v) as [[n|]|e] eqn:E.
  - simpl num_ge0. simpl string_of_number.
    assert (P : parseInt (VStr ((if 0 <=? n then "+" else "") ++ string_of_Z n))
                = Ok (Int n)).
    { unfold parseInt. simpl. now rewrite parseInt_string_signed. }
    destruct (0 <=? n) eqn:G; cbn [append] in P |- *; unfold formatModifier; rewrite P;
      cbn [num_ge0 string_of_number append]; rewrite G; reflexivity.
  - reflexivity.
  - unfold formatModifier. now rewrite E.
Qed.

End NumberFacts.

Lemma getProficiencyBonus_of_integer_witness :
  safe_integer 5 /\ safe_integer 17 /\ 5 <= 17
  /\ getProficiencyBonus (host := plain_host) (VStr "5") = Int 3
  /\ exists low high,
      getProficiencyBonus (host := plain_host) (VNum (Int 5)) = Int low
      /\ getProficiencyBonus (host := plain_host) (VNum (Int 17)) = Int high
      /\ low <= high.
Proof.
  assert (S5 : safe_integer 5) by (unfold safe_integer; lia).
  assert (S17 : safe_integer 17) by (unfold safe_integer; lia).
  assert (L : 5 <= 17) by lia.
  split; [exact S5|]. split; [exact S17|]. split; [exact L|].
  destruct (getProficiencyBonus_of_integer (host := plain_host) 5 S5) as [_ [Ht [_ Hm]]].
  split; [exact Ht|]. exact (Hm 17 S17 L).
Defined.

Lemma formatModifier_of_integer_witness :
  safe_integer (-2)
  /\ formatModifier (host := plain_host) (VNum (Int (-2))) = VStr "-2"
  /\ parseInt (host := plain_host) (formatModifier (host := plain_host) (VNum (Int (-2))))
     = Ok (Int (-2)).
Proof.
  assert (S : safe_integer (-2)) by (unfold safe_integer; lia).
  destruct (formatModifier_of_integer (host := plain_host) (-2) S) as [Hf [_ [Hp _]]].
  split; [exact S|]. split; [exact Hf | exact Hp].
Defined.

Lemma formatModifier_idempotent_witness :
  formatModifier (host := plain_host) (VStr "3") = VStr "+3"
  /\ formatModifier (host := plain_host) (formatModifier (host := plain_host) (VStr "3"))
     = formatModifier (host := plain_host) (VStr "3").
Proof.
  split; [reflexivity|].
  apply (formatModifier_idempotent (host := plain_host) (VStr "3")).
  intros n H. injection H as <-. unfold safe_integer. lia.
Defined.

(** ** Escaping *)

Lemma escapeHtml_escaped_witness :
  escapeHtml (host := plain_host) (VStr "Tom & <Jerry>") = Ok "Tom &amp; &lt;Jerry&gt;"
  /\ escaped "Tom &amp; &lt;Jerry&gt;".
Proof.
  split; [reflexivity|].
  exact (escapeHtml_escaped (host := plain_host) (VStr "Tom & <Jerry>") _ eq_refl).
Defined.

Section EscapeInjective.
Context {host : Host}.

Lemma entity_of_split c c' x y :
  entity_of c ++ x = entity_of c' ++ y -> c = c' /\ x = y.
Proof.
  unfold entity_of.
  repeat match goal with
         | |- context [if Ascii.eqb ?a ?k then _ else _] =>
             destruct (Ascii.eqb_spec a k); subst
         end;
    cbn [append]; intros H; try discriminate H;
    try (injection H; intros; subst; split; congruence).
Qed.

Lemma entity_of_not_empty c x : entity_of c ++ x <> EmptyString.
Proof.
  unfold entity_of.
  repeat match goal with
         | |- context [if Ascii.eqb ?a ?k then _ else _] => destruct (Ascii.eqb a k)
         end; discriminate.
Qed.

Lemma escape_units_injective a : forall b, escape_units a = escape_units b -> a = b.
Proof.
  induction a as [|c a IH]; intros [|c' b] H.
  - reflexivity.
  - rewrite escape_units_cons in H. symmetry in H. now apply entity_of_not_empty in H.
  - rewrite escape_units_cons in H. now apply entity_of_not_empty in H.
  - rewrite !escape_units_cons in H. apply entity_of_split in H.
    destruct H as [-> H]. now rewrite (IH _ H).
Qed.

(** X5: [escapeHtml] keeps texts apart: two strings with the same escaped
    form are the same string, so the escaped text can be decoded; and a
    string without any of the five characters is returned as it is. *)
Theorem escapeHtml_injective_on_strings (a b : string) :
  (escapeHtml (VStr a) = escapeHtml (VStr b) -> a = b)
  /\ (string_forallb (fun c => negb (html_special c)) a = true ->
      escapeHtml (VStr a) = Ok a).
Proof.
  split.
  - unfold escapeHtml.
    destruct a as [|x a], b as [|y b]; cbn [truthy String.eqb negb toString bind];
      intros H; try reflexivity.
    + injection H as H. change (escape_units "" = escape_units (String y b)) in H.
      now apply escape_units_injective in H.
    + injection H as H. change (escape_units (String x a) = escape_units "") in H.
      now apply escape_units_injective in H.
    + injection H as H.
      change (escape_units (String x a) = escape_units (String y b)) in H.
      now apply escape_units_injective in H.
  - intros H. unfold escapeHtml.
    destruct a as [|x a]; [reflexivity|].
    cbn [truthy String.eqb negb toString bind]. f_equal.
    change (escape_units (String x a) = String x a).
    revert H. generalize (String x a). clear. intros s.
    induction s as [|c s IH]; [reflexivity|].
    cbn [string_forallb]. intros H. apply andb_true_iff in H. destruct H as [Hc Hs].
    rewrite escape_units_cons, (IH Hs). unfold entity_of.
    unfold html_special in Hc. apply negb_true_iff in Hc.
    repeat (apply orb_false_iff in Hc; destruct Hc as [Hc ?]).
    repeat match goal with
           | H : Ascii.eqb _ _ = false |- _ => rewrite H; clear H
           end.
    reflexivity.
Qed.

End EscapeInjective.

Lemma escapeHtml_injective_on_strings_witness :
  escapeHtml (host := plain_host) (VStr "a<b") = escapeHtml (host := plain_host) (VStr "a<b")
  /\ string_forallb (fun c => negb (html_special c)) "Longsword +1" = true
  /\ escapeHtml (host := plain_host) (VStr "Longsword +1") = Ok "Longsword +1".
Proof.
  split; [reflexivity|]. split; [reflexivity|].
  exact (proj2 (escapeHtml_injective_on_strings (host := plain_host)
                  "Longsword +1" "Longsword +1") eq_refl).
Defined.

(** ** [trim] and the suggested file name *)

Section TrimFacts.

Lemma trimStart_forallb p s : string_forallb p s = true -> string_forallb p (trimStart s) = true.
Proof.
  induction s as [|c s IH]; simpl; [reflexivity|].
  intros H. destruct (is_space c); [|exact H].
  apply andb_true_iff in H. now apply IH.
Qed.

Lemma trimEnd_forallb p s : string_forallb p s = true -> string_forallb p (trimEnd s) = true.
Proof.
  induction s as [|c s IH]; simpl; [reflexivity|].
  intros H. apply andb_true_iff in H. destruct H as [Hc Hs].
  specialize (IH Hs).
  destruct (trimEnd s) as [|d kept].
  - destruct (is_space c); simpl; [reflexivity | now rewrite Hc].
  - cbn [string_forallb] in *. now rewrite Hc.
Qed.

Lemma trimStart_first s c : first_unit (trimStart s) = Some c -> is_space c = false.
Proof.
  induction s as [|x s IH]; simpl; [discriminate|].
  destruct (is_space x) eqn:E; [exact IH|].
  simpl. intros H. now injection H as <-.
Qed.

Lemma trimEnd_first s : forall c,
  first_unit (trimEnd s) = Some c -> first_unit s = Some c.
Proof.
  destruct s as [|x s]; simpl; [discriminate|].
  intros c. destruct (trimEnd s); [destruct (is_space x); [discriminate|] |]; auto.
Qed.

Lemma trimEnd_last s : forall c, last_unit (trimEnd s) = Some c -> is_space c = false.
Proof.
  induction s as [|x s IH]; simpl; [discriminate|].
  intros c. destruct (trimEnd s) as [|d kept] eqn:E.
  - destruct (is_space x) eqn:Ex; simpl; [discriminate|].
    intros H. now injection H as <-.
  - cbn [last_unit]. specialize (IH c). cbn [last_unit] in IH.
    destruct (last_unit kept); exact IH.
Qed.

(** What [trim] returns has no white space at either end. *)
Lemma trim_trimmed s : trimmed (trim s) = true.
Proof.
  unfold trimmed, trim.
  destruct (first_unit (trimEnd (trimStart s))) as [a|] eqn:Ea; [|reflexivity].
  destruct (last_unit (trimEnd (trimStart s))) as [b|] eqn:Eb; [|reflexivity].
  apply trimEnd_first in Ea. apply trimStart_first in Ea.
  apply trimEnd_last in Eb. now rewrite Ea, Eb.
Qed.

End TrimFacts.

Section FilenameSafety.
Context {host : Host}.

(** X6: whatever the parsed document and the runtime, the suggested file
    name is a non-empty stem followed by ".html", where the stem is made
    of letters, digits, spaces, underscores and hyphens only (so it holds
    no dot, slash or backslash) and has no space at either end. *)
Theorem suggested_filename_safe (result : value) :
  exists stem,
    suggested_filename result = stem ++ ".html"
    /\ stem <> EmptyString
    /\ string_forallb filename_unit stem = true
    /\ trimmed stem = true.
Proof.
  unfold suggested_filename.
  destruct (safeGet result "root.character.0.name.0" (VStr "")) as [found|e];
    [|exists "character_sheet"; repeat split; discriminate].
  cbn [bind].
  destruct (truthy (js_or found (VStr "")));
    [|exists "character_sheet"; repeat split; discriminate].
  destruct (toString (js_or found (VStr ""))) as [s|e];
    [|exists "character_sheet"; repeat split; discriminate].
  cbn [bind].
  destruct (truthy (VStr (trim (filter_string filename_unit s)))) eqn:E;
    [|exists "character_sheet"; repeat split; discriminate].
  exists (trim (filter_string filename_unit s)). split; [reflexivity|].
  split.
  { intros H. rewrite H in E. discriminate. }
  split.
  { apply trimEnd_forallb, trimStart_forallb, filter_string_forallb. }
  apply trim_trimmed.
Qed.

End FilenameSafety.

(** ** The upload filter *)

Section UploadFacts.

Lemma endsWith_iff suffix s : endsWith suffix s = true <-> exists front, s = front ++ suffix.
Proof.
  induction s as [|c s IH]; cbn [endsWith].
  - rewrite orb_false_r. split.
    + intros H. apply String.eqb_eq in H. subst. now exists "".
    + intros [[|x front] H]; simpl in H; [subst; apply String.eqb_refl | discriminate].
  - split.
    + intros H. apply orb_true_iff in H. destruct H as [H|H].
      * apply String.eqb_eq in H. subst. now exists "".
      * apply IH in H. destruct H as [front ->]. now exists (String c front).
    + intros [[|x front] H]; simpl in H.
      * subst suffix. now rewrite String.eqb_refl.
      * injection H as -> ->. apply orb_true_iff. right. apply IH. eauto.
Qed.

Lemma toLowerCase_app a b : toLowerCase (a ++ b) = toLowerCase a ++ toLowerCase b.
Proof. induction a as [|c a IH]; simpl; [reflexivity | now rewrite IH]. Qed.

Lemma toLowerCase_split a : forall s b,
  toLowerCase s = a ++ b ->
  exists s1 s2, s = s1 ++ s2 /\ toLowerCase s1 = a /\ toLowerCase s2 = b.
Proof.
  induction a as [|x a IH]; intros s b H.
  - exists "", s. auto.
  - destruct s as [|c s]; simpl in H; [discriminate|].
    injection H as Hc Hs. destruct (IH _ _ Hs) as [s1 [s2 [-> [H1 H2]]]].
    exists (String c s1), s2. simpl. now rewrite Hc, H1.
Qed.

(** X7: the upload filter accepts a file exactly when its name ends with
    ".xml" in any mix of upper and lower case, whatever comes before, and
    otherwise answers with the error "Only XML files are allowed". *)
Theorem fileFilter_accepts_xml_names (originalname : string) :
  (fileFilter originalname = Ok true
   <-> exists stem ext, originalname = stem ++ ext /\ toLowerCase ext = ".xml")
  /\ (fileFilter originalname = Ok true
      \/ fileFilter originalname = Throw "Only XML files are allowed")
  /\ fileFilter (toLowerCase originalname) = fileFilter originalname.
Proof.
  unfold fileFilter. split; [|split].
  - destruct (endsWith ".xml" (toLowerCase originalname)) eqn:E.
    + split; [intros _ | reflexivity].
      apply endsWith_iff in E. destruct E as [front E].
      destruct (toLowerCase_split _ _ _ E) as [s1 [s2 [-> [_ H2]]]]. eauto.
    + split; [discriminate|].
      intros [stem [ext [-> H]]]. rewrite toLowerCase_app, H in E.
      assert (T : endsWith ".xml" (toLowerCase stem ++ ".xml") = true)
        by (apply endsWith_iff; eauto).
      congruence.
  - destruct (endsWith ".xml" (toLowerCase originalname)); auto.
  - replace (toLowerCase (toLowerCase originalname)) with (toLowerCase originalname);
      [reflexivity|].
    induction originalname as [|c s IH]; simpl; [reflexivity|]. rewrite <- IH. f_equal.
    destruct c as [[] [] [] [] [] [] [] []]; reflexivity.
Qed.

End UploadFacts.

Lemma fileFilter_accepts_xml_names_witness :
  (exists stem ext, "Mira.XML" = stem ++ ext /\ toLowerCase ext = ".xml")
  /\ fileFilter "Mira.XML" = Ok true.
Proof.
  assert (H : exists stem ext, "Mira.XML" = stem ++ ext /\ toLowerCase ext = ".xml")
    by (exists "Mira", ".XML"; split; reflexivity).
  split; [exact H|].
  exact (proj2 (proj1 (fileFilter_accepts_xml_names "Mira.XML")) H).
Defined.

(** ** More on [safeGet] *)

Section SafeGetMore.
Context {host : Host}.

Lemma split_on_index_zero key :
  has_dot key = false -> split_on "." (key ++ ".0") = [key; "0"].
Proof.
  induction key as [|c key IH]; simpl; [reflexivity|].
  destruct (Ascii.eqb c "."); simpl; [discriminate|].
  intros H. now rewrite (IH H).
Qed.

(** X8: for a field that holds a one-element sequence, as the parser wraps
    every element that occurs once, the path [field.0] reads the same as
    the path [field]: the final unwrapping makes the index redundant. *)
Theorem safeGet_index_zero_redundant
    (props : list (string * value)) (key : string) (x defaultValue : value) :
  has_dot key = false ->
  assoc key props = Some (VArr [x]) ->
  safeGet (VObj props) (key ++ ".0") defaultValue = safeGet (VObj props) key defaultValue.
Proof.
  intros Hk Hp. unfold safeGet.
  rewrite (split_on_index_zero _ Hk), (split_on_single _ Hk).
  cbn [safeGet_keys truthy typeof_object andb js_in bind].
  unfold has_property, lookup_property. cbn [own_property]. rewrite Hp.
  cbn [js_get bind]. unfold lookup_property. cbn [own_property]. rewrite Hp.
  cbn [truthy typeof_object andb js_in bind].
  unfold has_property, lookup_property.
  change (own_property (VArr [x]) "0") with (Some x).
  cbn [js_get bind]. unfold lookup_property.
  change (own_property (VArr [x]) "0") with (Some x).
  reflexivity.
Qed.

(** X9: when the walk ends, under any number of one-element sequences, at
    an object that has the text marker [_], [safeGet] returns the text held
    there as it is: it is not replaced by the default when it is empty, and
    it wins over a [$t] marker of the same object. *)
Theorem safeGet_text_marker
    (props fields : list (string * value)) (key : string) (n : nat)
    (text defaultValue : value) :
  has_dot key = false ->
  assoc key props = Some (wrap n (VObj fields)) ->
  assoc "_" fields = Some text ->
  safeGet (VObj props) key defaultValue = Ok text.
Proof.
  intros Hk Hp Ht. unfold safeGet. rewrite (split_on_single _ Hk).
  cbn [safeGet_keys truthy typeof_object andb js_in bind].
  unfold has_property, lookup_property. cbn [own_property]. rewrite Hp.
  cbn [js_get bind]. unfold lookup_property. cbn [own_property]. rewrite Hp.
  unfold safeGet_finish. rewrite unwrap_wrap. cbn [unwrap truthy typeof_object andb js_in bind].
  unfold has_property, lookup_property. cbn [own_property]. rewrite Ht.
  cbn [js_get]. unfold lookup_property. cbn [own_property]. now rewrite Ht.
Qed.

End SafeGetMore.

Lemma safeGet_index_zero_redundant_witness :
  has_dot "name" = false
  /\ assoc "name" [("name", VArr [VStr "Mira"]); ("race", VArr [VStr "Elf"])]
     = Some (VArr [VStr "Mira"])
  /\ safeGet (host := plain_host)
       (VObj [("name", VArr [VStr "Mira"]); ("race", VArr [VStr "Elf"])]) "name.0" (VStr "")
     = safeGet (host := plain_host)
         (VObj [("name", VArr [VStr "Mira"]); ("race", VArr [VStr "Elf"])]) "name" (VStr "").
Proof.
  split; [reflexivity|]. split; [reflexivity|].
  exact (safeGet_index_zero_redundant (host := plain_host)
           [("name", VArr [VStr "Mira"]); ("race", VArr [VStr "Elf"])] "name"
           (VStr "Mira") (VStr "") eq_refl eq_refl).
Defined.

Lemma safeGet_text_marker_witness :
  has_dot "total" = false
  /\ assoc "total" [("total", wrap 1 (VObj [("_", VStr ""); ("$t", VStr "7")]))]
     = Some (wrap 1 (VObj [("_", VStr ""); ("$t", VStr "7")]))
  /\ assoc "_" [("_", VStr ""); ("$t", VStr "7")] = Some (VStr "")
  /\ safeGet (host := plain_host)
       (VObj [("total", wrap 1 (VObj [("_", VStr ""); ("$t", VStr "7")]))]) "total" (VStr "0")
     = Ok (VStr "").
Proof.
  split; [reflexivity|]. split; [reflexivity|]. split; [reflexivity|].
  exact (safeGet_text_marker (host := plain_host)
           [("total", wrap 1 (VObj [("_", VStr ""); ("$t", VStr "7")]))]
           [("_", VStr ""); ("$t", VStr "7")] "total" 1 (VStr "") (VStr "0")
           eq_refl eq_refl eq_refl).
Defined.

(** ** Loops of the extraction *)

Section LoopFacts.
Context {A S : Type}.

(** What every step of a loop keeps, the loop keeps. *)
Lemma forEach_invariant (P : S -> Prop) (body : S -> A -> completion S) (l : list A) :
  (forall s a s', P s -> body s a = Ok s' -> P s') ->
  forall s r, P s -> forEach l body s = Ok r -> P r.
Proof.
  intros Hb. induction l as [|a l IH]; intros s r Hs H; simpl in H.
  - now injection H as <-.
  - destruct (body s a) as [s'|] eqn:E; [|discriminate].
    cbn [bind] in H. exact (IH _ _ (Hb _ _ _ Hs E) H).
Qed.

(** The same with a count of the steps. *)
Lemma forEach_counted (P : nat -> S -> Prop) (body : S -> A -> completion S) :
  forall l : list A,
  (forall i s a s', In a l -> P i s -> body s a = Ok s' -> P (Datatypes.S i) s') ->
  forall i s r, P i s -> forEach l body s = Ok r -> P (i + List.length l)%nat r.
Proof.
  induction l as [|a l IH]; intros Hb i s r Hs H; simpl in H.
  - injection H as <-. now rewrite Nat.add_0_r.
  - destruct (body s a) as [s'|] eqn:E; [|discriminate]. cbn [bind] in H.
    cbn [List.length]. rewrite <- Nat.add_succ_comm.
    apply (IH (fun i s a s' Hin => Hb i s a s' (or_intror Hin)) _ s' r); [|exact H].
    exact (Hb _ _ _ _ (or_introl eq_refl) Hs E).
Qed.

End LoopFacts.

(** A loop whose steps add at most one entry, named after the element,
    adds entries in the order of the elements. *)
Lemma forEach_appends {A K V : Type} (key : A -> K)
    (body : list (K * V) -> A -> completion (list (K * V))) (l : list A) :
  (forall acc a r, body acc a = Ok r -> r = acc \/ exists v, r = (acc ++ [(key a, v)])%list) ->
  forall acc r, forEach l body acc = Ok r ->
  exists added, r = (acc ++ added)%list /\ subseq (map fst added) (map key l).
Proof.
  intros Hb. induction l as [|a l IH]; intros acc r H; simpl in H.
  - injection H as <-. exists []. rewrite app_nil_r. split; [reflexivity | constructor].
  - destruct (body acc a) as [acc'|] eqn:E; [|discriminate]. cbn [bind] in H.
    destruct (IH _ _ H) as [added [-> Hs]].
    destruct (Hb _ _ _ E) as [->|[v ->]].
    + exists added. split; [reflexivity|]. simpl. now constructor.
    + exists ((key a, v) :: added). rewrite <- app_assoc. split; [reflexivity|].
      simpl. now constructor.
Qed.

Section ClassFacts.
Context {host : Host}.

Lemma classes_body_within classesData bound i st key st' :
  0 <= bound ->
  (startsWith "id-" key = true ->
   forall k, class_level classesData key = Ok (Int k) -> Z.abs k <= bound) ->
  classes_within bound i st ->
  classes_body classesData st key = Ok st' ->
  classes_within bound (S i) st'.
Proof.
  destruct st as [total infos]. intros Hb Hk [[n [Hn Hle]] Hf] H. simpl in Hn. subst total.
  unfold classes_body in H.
  destruct (startsWith "id-" key).
  2:{ injection H as <-. split; [|exact Hf]. exists n. split; [reflexivity|]. nia. }
  specialize (Hk eq_refl). unfold class_level in Hk.
  destruct (entry_of classesData key) as [cls|]; [|discriminate]. cbn [bind] in H, Hk.
  destruct (safeGet cls "name.0" (VStr "")) as [className|]; [|discriminate]. cbn [bind] in H.
  destruct (safeGet cls "level.0" (VStr "")) as [classLevel|]; [|discriminate].
  cbn [bind] in H, Hk.
  destruct (safeGet cls "specialization.0" (VStr "")) as [classSpec|]; [|discriminate].
  cbn [bind] in H.
  destruct (parseInt classLevel) as [parsed|]; [|discriminate]. cbn [bind] in H.
  assert (Hlevel : exists k, num_or parsed (Int 0) = Int k /\ Z.abs k <= bound).
  { destruct parsed as [k|]; unfold num_or; cbn [truthy].
    - destruct (k =? 0); cbn [negb]; [exists 0; split; [reflexivity | lia]|].
      exists k. split; [reflexivity | now apply Hk].
    - exists 0. split; [reflexivity | lia]. }
  destruct Hlevel as [k [Ek Hkb]]. rewrite Ek in H. cbn [num_add] in H.
  assert (Hsum : Z.abs (n + k) <= Z.of_nat (S i) * bound) by nia.
  destruct (truthy className) eqn:Et; injection H as <-; split; cbn [fst snd]; eauto.
  apply Forall_app. split; [exact Hf|]. constructor; [exact Et | constructor].
Qed.

(** With class levels within a bound, the total level is a safe integer. *)
Lemma extract_classes_within bound char totalLevel classesInfo :
  levels_within bound char ->
  extract_classes char = Ok (totalLevel, classesInfo) ->
  exists n, totalLevel = Int n
            /\ safe_integer n
            /\ Forall (fun c => truthy (cls_name c) = true) classesInfo.
Proof.
  intros [Hb Hl] H. unfold extract_classes in H.
  destruct (safeGet char "classes.0" (VObj [])) as [classesData|]; [|discriminate].
  cbn [bind] in H.
  destruct (object_keys classesData) as [keys|] eqn:Ek; [|discriminate]. cbn [bind] in H.
  destruct (Hl classesData keys eq_refl Ek) as [Hsafe Hkeys].
  destruct (forEach_counted (classes_within bound) (classes_body classesData) keys) with
    (i := O) (s := (Int 0, @nil classInfo)) (r := (totalLevel, classesInfo))
    as [[n [Hn Hle]] Hf].
  - intros i s a s' Hin. apply classes_body_within; [exact Hb|].
    exact (proj1 (Forall_forall _ _) Hkeys a Hin).
  - split; [|constructor]. exists 0. split; [reflexivity | simpl; lia].
  - exact H.
  - cbn [fst snd] in Hn, Hf. exists n. split; [exact Hn|]. split; [|exact Hf].
    cbn [Nat.add] in Hle. unfold safe_integer. lia.
Qed.

(** X10: when the class levels that are integers are within a bound that
    keeps their sum a safe integer, the total level of the extracted
    classes is an integer of that range (a level that does not parse counts
    as 0), so the proficiency bonus is 2 + floor((total - 1) / 4) and not
    NaN, and every listed class has a name; a character without any class
    entry gets the total level 0 and the proficiency bonus 1. *)
Theorem extract_classes_total (char : value) (bound : Z) :
  levels_within bound char ->
  (forall totalLevel classesInfo,
      extract_classes char = Ok (totalLevel, classesInfo) ->
      exists n, totalLevel = Int n
                /\ safe_integer n
                /\ getProficiencyBonus (VNum totalLevel) = Int (2 + (n - 1) / 4)
                /\ Forall (fun c => truthy (cls_name c) = true) classesInfo)
  /\ (missing_at char (split_on "." "classes.0") ->
      Forall (fun key => forall k, inherited k key = None) ["classes"; "0"] ->
      extract_classes char = Ok (Int 0, [])
      /\ getProficiencyBonus (VNum (Int 0)) = Int 1).
Proof.
  intros Hl. split.
  - intros totalLevel classesInfo H.
    destruct (extract_classes_within _ _ _ _ Hl H) as [n [-> [Hs Hf]]].
    exists n. split; [reflexivity|]. split; [exact Hs|]. split; [|exact Hf].
    apply getProficiencyBonus_number.
  - intros Hm Hk. unfold extract_classes, safeGet.
    rewrite (safeGet_keys_absent _ _ (VObj [])); [split; reflexivity|].
    apply missing_absent; [exact Hm|].
    inversion Hk as [|? ? H1 Hk']; subst. inversion Hk' as [|? ? H2 _]; subst.
    repeat (constructor; [split; [discriminate | assumption]|]). constructor.
Qed.

End ClassFacts.

Lemma levels_within_rogue :
  levels_within (host := plain_host) 20
    (VObj [("classes", VArr [VObj [("id-00001",
       VArr [VObj [("name", leaf "Rogue"); ("level", leaf "3")]]);
                                    ("id-00002",
       VArr [VObj [("name", leaf "Bard"); ("level", leaf "two")]])]])]).
Proof.
  split; [lia|]. intros classesData keys Hd Hk.
  injection Hd as <-. injection Hk as <-. split; [reflexivity|].
  repeat (constructor; [intros _ k H; try discriminate H; injection H as <-; lia|]).
  constructor.
Defined.

Lemma extract_classes_total_witness :
  extract_classes (host := plain_host)
    (VObj [("classes", VArr [VObj [("id-00001",
       VArr [VObj [("name", leaf "Rogue"); ("level", leaf "3")]]);
                                    ("id-00002",
       VArr [VObj [("name", leaf "Bard"); ("level", leaf "two")]])]])])
  = Ok (Int 3, [class_named "Rogue" "3"; class_named "Bard" "two"])
  /\ exists n, Int 3 = Int n
               /\ safe_integer n
               /\ getProficiencyBonus (host := plain_host) (VNum (Int 3))
                  = Int (2 + (n - 1) / 4).
Proof.
  split; [reflexivity|].
  destruct (proj1 (extract_classes_total (host := plain_host)
              (VObj [("classes", VArr [VObj [("id-00001",
                 VArr [VObj [("name", leaf "Rogue"); ("level", leaf "3")]]);
                                              ("id-00002",
                 VArr [VObj [("name", leaf "Bard"); ("level", leaf "two")]])]])])
              20 levels_within_rogue)
              _ _ eq_refl) as [n [Hn [Hs [Hb _]]]].
  exists n. split; [exact Hn|]. split; [exact Hs | exact Hb].
Defined.

Section AbilityFacts.
Context {host : Host}.

Lemma forEach_total {A S : Type} (body : S -> A -> completion S) (l : list A) :
  (forall s a, exists s', body s a = Ok s') -> forall s, exists r, forEach l body s = Ok r.
Proof.
  intros Hb. induction l as [|a l IH]; intros s; simpl; [eauto|].
  destruct (Hb s a) as [s' ->]. cbn [bind]. apply IH.
Qed.

Lemma safeGet_returns obj path d : exists v, safeGet obj path d = Ok v.
Proof. apply safeGet_keys_returns. Qed.

Lemma abilities_body_cases char acc abilName :
  exists r, abilities_body char acc abilName = Ok r
            /\ (r = acc \/ exists a, r = (acc ++ [(abilName, a)])%list).
Proof.
  unfold abilities_body.
  destruct (safeGet_returns char ("abilities.0." ++ abilName ++ ".0") (VStr "")) as [abil ->].
  cbn [bind]. destruct (truthy abil); [|eauto].
  destruct (safeGet_returns abil "score.0" (VStr "")) as [v1 ->]. cbn [bind].
  destruct (safeGet_returns abil "bonus.0" (VStr "")) as [v2 ->]. cbn [bind].
  destruct (safeGet_returns abil "save.0" (VStr "")) as [v3 ->]. cbn [bind].
  destruct (safeGet_returns abil "saveprof.0" (VStr "")) as [v4 ->]. cbn [bind].
  eauto.
Qed.

End AbilityFacts.

(** ** Sorting keeps the entries *)

Section SortKeeps.
Context {A : Type}.
Variable compare : A -> A -> completion number.

Lemma insert_sorted_permutation x : forall sorted r,
  insert_sorted compare x sorted = Ok r -> Permutation (x :: sorted) r.
Proof.
  induction sorted as [|y rest IH]; intros r H; simpl in H.
  - now injection H as <-.
  - destruct (compare x y) as [[c|]|]; [| |discriminate]; cbn [bind] in H.
    + destruct (c <? 0); [now injection H as <-|].
      destruct (insert_sorted compare x rest) as [rest'|]; [|discriminate].
      cbn [bind] in H. injection H as <-.
      rewrite perm_swap. constructor. now apply IH.
    + destruct (insert_sorted compare x rest) as [rest'|]; [|discriminate].
      cbn [bind] in H. injection H as <-.
      rewrite perm_swap. constructor. now apply IH.
Qed.

Lemma sort_loop_permutation l : forall sorted r,
  forEach l (fun acc x => insert_sorted compare x acc) sorted = Ok r ->
  Permutation (sorted ++ l) r.
Proof.
  induction l as [|x l IH]; intros sorted r H; simpl in H.
  - injection H as <-. now rewrite app_nil_r.
  - destruct (insert_sorted compare x sorted) as [s1|] eqn:E; [|discriminate].
    cbn [bind] in H. apply insert_sorted_permutation in E.
    rewrite <- (IH _ _ H), <- E. simpl. apply Permutation_sym, Permutation_middle.
Qed.

(** Whatever the comparison function, a sort that returns returns the same
    elements. *)
Lemma array_sort_permutation l r : array_sort compare l = Ok r -> Permutation l r.
Proof. intros H. exact (sort_loop_permutation l [] r H). Qed.

End SortKeeps.

Section SpellFacts.
Context {host : Host}.

Lemma spells_body_keeps powersData spells key spells' :
  Forall (fun s => truthy (sp_level s) = true) spells ->
  spells_body powersData spells key = Ok spells' ->
  Forall (fun s => truthy (sp_level s) = true) spells'.
Proof.
  intros Hf H. unfold spells_body in H.
  destruct (startsWith "id-" key); [|now injection H as <-].
  destruct (entry_of powersData key) as [power|]; [|discriminate]. cbn [bind] in H.
  destruct (safeGet power "group.0" (VStr "")) as [group|]; [|discriminate]. cbn [bind] in H.
  destruct (safeGet power "level.0" (VStr "")) as [level|]; [|discriminate]. cbn [bind] in H.
  destruct (safeGet power "school.0" (VStr "")) as [school|]; [|discriminate]. cbn [bind] in H.
  destruct (js_includes group "Spells") as [in_group|]; [|discriminate]. cbn [bind] in H.
  destruct ((in_group || truthy school) && truthy level) eqn:E; [|now injection H as <-].
  apply andb_true_iff in E. destruct E as [_ El].
  destruct (spell_description power) as [description|]; [|discriminate]. cbn [bind] in H.
  destruct (safeGet power "name.0" (VStr "")) as [name_|]; [|discriminate]. cbn [bind] in H.
  destruct (safeGet power "prepared.0" (VStr "0")) as [prepared_|]; [|discriminate].
  cbn [bind] in H. injection H as <-.
  apply Forall_app. split; [exact Hf|]. constructor; [exact El | constructor].
Qed.

(** X12: the sort neither drops nor repeats an entry, whatever the names:
    when the skills (the spells) are extracted, they are the collected
    skills (spells) in some order; and every extracted spell has a level: a
    power without one is never listed as a spell. *)
Theorem sorted_entries_are_the_collected (char : value) :
  (forall skills, extract_skills char = Ok skills ->
     exists collected, collect_skills char = Ok collected /\ Permutation collected skills)
  /\ (forall spells, extract_spells char = Ok spells ->
     exists collected, collect_spells char = Ok collected
                       /\ Permutation collected spells
                       /\ Forall (fun s => truthy (sp_level s) = true) spells).
Proof.
  split.
  - intros skills H. unfold extract_skills in H.
    destruct (collect_skills char) as [collected|]; [|discriminate]. cbn [bind] in H.
    exists collected. split; [reflexivity|]. exact (array_sort_permutation _ _ _ H).
  - intros spells H. unfold extract_spells in H.
    destruct (collect_spells char) as [collected|] eqn:Ec; [|discriminate]. cbn [bind] in H.
    pose proof (array_sort_permutation _ _ _ H) as Hp.
    exists collected. split; [reflexivity|]. split; [exact Hp|].
    apply (Permutation_Forall Hp).
    unfold collect_spells in Ec.
    destruct (safeGet char "powers.0" (VObj [])) as [powersData|]; [|discriminate].
    cbn [bind] in Ec.
    destruct (object_keys powersData) as [keys|]; [|discriminate]. cbn [bind] in Ec.
    exact (forEach_invariant _ _ keys (spells_body_keeps powersData) [] _ (Forall_nil _) Ec).
Qed.

End SpellFacts.

Lemma sorted_entries_are_the_collected_witness :
  extract_spells (host := plain_host) character_with_three_spells
  = Ok [spell_of "A" "1"; spell_of "Z" "1"; spell_of "A" "0"]
  /\ exists collected,
      collect_spells (host := plain_host) character_with_three_spells = Ok collected
      /\ Permutation collected [spell_of "A" "1"; spell_of "Z" "1"; spell_of "A" "0"].
Proof.
  split; [reflexivity|].
  destruct (proj2 (sorted_entries_are_the_collected (host := plain_host)
                     character_with_three_spells) _ eq_refl) as [collected [Hc [Hp _]]].
  exists collected. split; [exact Hc | exact Hp].
Defined.

(** ** The order of the extracted spells *)

Section SpellOrderFacts.
Context {host : Host} {collation : Collation host}.







End SpellOrderFacts.


(** ** The check boxes of the spell slots and the sorcery points *)

Section BubbleFacts.

Lemma repeat_text_app s a b :
  repeat_text s (a + b) = repeat_text s a ++ repeat_text s b.
Proof.
  induction a as [|a IH]; simpl; [reflexivity|].
  now rewrite IH, append_assoc.
Qed.

Lemma bubbles_from_spec indent u : forall turns i html,
  bubbles_from indent (Int u) turns i html
  = html ++ repeat_text (checkbox indent true) (Nat.min (Z.to_nat (u - i)) turns)
         ++ repeat_text (checkbox indent false) (turns - Nat.min (Z.to_nat (u - i)) turns).
Proof.
  induction turns as [|k IH]; intros i html.
  - simpl. rewrite Nat.min_0_r. simpl. now rewrite append_nil_r.
  - cbn [bubbles_from num_lt]. rewrite IH.
    destruct (Z.ltb_spec i u) as [L|L].
    + replace (Z.to_nat (u - i)) with (S (Z.to_nat (u - (i + 1)))) by lia.
      rewrite <- Nat.succ_min_distr. cbn [repeat_text Nat.sub].
      now rewrite <- !append_assoc.
    + replace (Z.to_nat (u - i)) with O by lia.
      replace (Z.to_nat (u - (i + 1))) with O by lia.
      cbn [Nat.min repeat_text]. rewrite Nat.sub_0_r. cbn [append Nat.sub repeat_text].
      now rewrite <- !append_assoc.
Qed.

Lemma bubbles_from_unchecked indent : forall turns i html,
  bubbles_from indent NaN turns i html = html ++ repeat_text (checkbox indent false) turns.
Proof.
  induction turns as [|k IH]; intros i html.
  - simpl. now rewrite append_nil_r.
  - cbn [bubbles_from num_lt repeat_text]. rewrite IH. now rewrite <- !append_assoc.
Qed.

(** X14: the check boxes of a level of spell slots, and of the sorcery
    points, are as many as the maximum says (none when it is not a number
    or is negative); the first ones are checked, as many as are used, and
    never more than there are boxes; when the used count is not a number
    none is checked. *)
Theorem bubbles_checked_first (indent : string) (max used : number) (html : string) :
  bubbles indent max used html
  = html ++ repeat_text (checkbox indent true) (checked_count max used)
         ++ repeat_text (checkbox indent false) (iterations max - checked_count max used).
Proof.
  unfold bubbles, checked_count. destruct used as [u|].
  - rewrite bubbles_from_spec. rewrite Z.sub_0_r. reflexivity.
  - rewrite bubbles_from_unchecked. cbn [iterations Nat.min]. now rewrite Nat.sub_0_r.
Qed.

End BubbleFacts.

(** ** The spell slots *)

Section SortedStays.
Context {A : Type}.
Variable compare : A -> A -> completion number.

(** [x] compares at or above [y]. *)
Let above (y x : A) : Prop := exists c, compare x y = Ok (Int c) /\ 0 <= c.

Lemma insert_sorted_last x : forall sorted,
  Forall (fun y => above y x) sorted -> insert_sorted compare x sorted = Ok (sorted ++ [x])%list.
Proof.
  induction sorted as [|y rest IH]; intros H; [reflexivity|].
  inversion H as [|? ? [c [Hc Hpos]] Hrest]; subst.
  cbn [insert_sorted]. rewrite Hc. cbn [bind].
  destruct (Z.ltb_spec c 0); [lia|].
  rewrite (IH Hrest). reflexivity.
Qed.

Lemma sort_loop_stays l : forall sorted,
  StronglySorted above (sorted ++ l) ->
  forEach l (fun acc x => insert_sorted compare x acc) sorted = Ok (sorted ++ l)%list.
Proof.
  induction l as [|x l IH]; intros sorted H.
  - now rewrite app_nil_r.
  - cbn [forEach]. rewrite (insert_sorted_last x sorted (sorted_before _ _ _ _ H)).
    cbn [bind]. rewrite IH; rewrite <- app_assoc; [reflexivity | exact H].
Qed.

(** An array whose later elements compare at or above the earlier ones is
    left as it is. *)
Lemma array_sort_stays l : StronglySorted above l -> array_sort compare l = Ok l.
Proof. intros H. exact (sort_loop_stays l [] H). Qed.

End SortedStays.

Section SlotFacts.
Context {host : Host}.

Lemma compare_slot_levels_keys (i j : nat) :
  compare_slot_levels (level_key i) (level_key j) = Ok (Int (Z.of_nat i - Z.of_nat j)).
Proof.
  unfold compare_slot_levels, level_key, parseInt. cbn [toString bind].
  now rewrite !parseInt_string_of_Z.
Qed.

Lemma subseq_sorted (R : nat -> nat -> Prop) (xs ys : list nat) :
  subseq xs ys -> StronglySorted R ys -> StronglySorted R xs.
Proof.
  induction 1 as [|y xs ys Hs IH|y xs ys Hs IH]; intros H.
  - constructor.
  - inversion H; subst. now apply IH.
  - inversion H as [|? ? Hys Hy]; subst. constructor; [now apply IH|].
    clear - Hs Hy. induction Hs as [|z xs ys Hs IH|z xs ys Hs IH].
    + constructor.
    + inversion Hy; subst. now apply IH.
    + inversion Hy; subst. constructor; [assumption | now apply IH].
Qed.

Lemma spellSlots_body_adds powermeta acc i r :
  spellSlots_body powermeta acc i = Ok r ->
  r = acc \/ exists slot, r = (acc ++ [(i, slot)])%list /\ slot_max slot <> VStr "0".
Proof.
  unfold spellSlots_body. intros H.
  destruct (js_get powermeta _) as [entries|]; [|discriminate]. cbn [bind] in H.
  destruct (if truthy entries then js_get entries "0" else Ok entries) as [slot|];
    [|discriminate]. cbn [bind] in H.
  destruct (truthy slot); [|left; now injection H as <-].
  destruct (safeGet slot "max.0" (VStr "0")) as [maxSlots|]; [|discriminate]. cbn [bind] in H.
  destruct (safeGet slot "used.0" (VStr "0")) as [usedSlots|]; [|discriminate].
  cbn [bind] in H.
  destruct (negb (is_string "0" maxSlots)) eqn:E; [|left; now injection H as <-].
  right. injection H as <-. eexists. split; [reflexivity|]. cbn [slot_max].
  intros ->. discriminate.
Qed.

(** X15: the extracted spell slots are those of some of the levels 1 to 9,
    in increasing order and each level once; none of them has the text 0
    as its maximum; and the sort of the rendering leaves their levels in
    that order. *)
Theorem extract_spellSlots_levels (char : value) (spellSlots : list (nat * slotInfo)) :
  extract_spellSlots char = Ok spellSlots ->
  subseq (map fst spellSlots) (seq 1 9)
  /\ Forall (fun e => slot_max (snd e) <> VStr "0") spellSlots
  /\ array_sort compare_slot_levels (map (fun e => level_key (fst e)) spellSlots)
     = Ok (map (fun e => level_key (fst e)) spellSlots).
Proof.
  unfold extract_spellSlots. intros H.
  destruct (safeGet char "powermeta.0" (VObj [])) as [powermeta|]; [|discriminate].
  cbn [bind] in H.
  assert (Hsub : subseq (map fst spellSlots) (seq 1 9)).
  { destruct (forEach_appends (fun i => i) (spellSlots_body powermeta) (seq 1 9)) with
      (acc := @nil (nat * slotInfo)) (r := spellSlots) as [added [-> Hs]]; [|exact H|].
    - intros acc a r Hr. destruct (spellSlots_body_adds _ _ _ _ Hr) as [->|[slot [-> _]]];
        [now left | right; now exists slot].
    - simpl. now rewrite map_id in Hs. }
  split; [exact Hsub|]. split.
  - apply (forEach_invariant
             (fun slots => Forall (fun e => slot_max (snd e) <> VStr "0") slots)
             (spellSlots_body powermeta) (seq 1 9)) with (s := []); [|constructor|exact H].
    intros s a s' Hs Hr. destruct (spellSlots_body_adds _ _ _ _ Hr) as [->|[slot [-> Hm]]];
      [exact Hs|]. apply Forall_app. split; [exact Hs|]. now constructor.
  - apply array_sort_stays.
    assert (Hlt : StronglySorted (fun i j => (i <= j)%nat) (map fst spellSlots)).
    { apply (subseq_sorted _ _ _ Hsub). cbv [seq].
      repeat (constructor; [|repeat (constructor; try lia)]). constructor. }
    clear - Hlt. induction spellSlots as [|[i slot] rest IH]; [constructor|].
    cbn [map fst] in Hlt |- *. inversion Hlt as [|? ? Hs Hf]; subst.
    constructor; [now apply IH|].
    clear - Hf. induction rest as [|[j slot'] rest IH]; [constructor|].
    cbn [map fst] in Hf |- *. inversion Hf; subst. constructor; [|now apply IH].
    exists (Z.of_nat j - Z.of_nat i). split; [apply compare_slot_levels_keys | lia].
Qed.

End SlotFacts.

(** Of the levels 1, 2 and 3 of the sample, the levels 1 and 3 are kept. *)
Lemma extract_spellSlots_levels_witness :
  extract_spellSlots (host := plain_host) character_with_slots
  = Ok [(1%nat, {| slot_max := VStr "4"; slot_used := VStr "1" |});
        (3%nat, {| slot_max := VStr "2"; slot_used := VStr "0" |})]
  /\ subseq [1%nat; 3%nat] (seq 1 9).
Proof.
  split; [reflexivity|].
  exact (proj1 (extract_spellSlots_levels (host := plain_host) character_with_slots _ eq_refl)).
Defined.

(** ** The spells by level *)

Section KeyFacts.
Context {B : Type}.

Lemma get_set_key (key : string) (x : B) : forall props,
  get_key key (set_key key x props) = Some x.
Proof.
  induction props as [|[k y] rest IH]; cbn [set_key get_key].
  - now rewrite String.eqb_refl.
  - destruct (String.eqb k key) eqn:E; cbn [get_key]; [now rewrite E|].
    destruct (Store.key_before key k); cbn [get_key].
    + now rewrite String.eqb_refl.
    + now rewrite E.
Qed.

Lemma get_set_other (key key' : string) (x : B) : key <> key' -> forall props,
  get_key key' (set_key key x props) = get_key key' props.
Proof.
  intros Hne. induction props as [|[k y] rest IH]; cbn [set_key get_key].
  - destruct (String.eqb_spec key key'); [contradiction | reflexivity].
  - destruct (String.eqb_spec k key) as [->|Hk]; cbn [get_key].
    + destruct (String.eqb_spec key key'); [contradiction | reflexivity].
    + destruct (Store.key_before key k); cbn [get_key].
      * destruct (String.eqb_spec key key'); [contradiction | reflexivity].
      * now rewrite IH.
Qed.


End KeyFacts.

Section GroupFacts.
Context {host : Host}.

(** The array of a level, from the spells seen so far. *)
Let bucket_of (level : string) (seen : list spell) : option (list spell) :=
  match filter (has_label level) seen with
  | [] => None
  | bucket => Some bucket
  end.

Lemma spellsByLevel_body_groups seen groups s groups' :
  (forall level, get_key level groups = bucket_of level seen) ->
  spellsByLevel_body groups s = Ok groups' ->
  forall level, get_key level groups' = bucket_of level (seen ++ [s]).
Proof.
  intros Hinv H level. unfold spellsByLevel_body in H.
  destruct (level_label s) as [l|] eqn:El; [|discriminate]. cbn [bind] in H.
  assert (Hnew : forall bucket,
            get_key level (set_key l bucket groups)
            = if String.eqb l level then Some bucket else get_key level groups).
  { intros bucket. destruct (String.eqb_spec l level) as [->|Hne].
    - apply get_set_key.
    - now apply get_set_other. }
  assert (Hlast : bucket_of level (seen ++ [s])
                  = if String.eqb l level
                    then Some (filter (has_label level) seen ++ [s])%list
                    else bucket_of level seen).
  { unfold bucket_of. rewrite filter_app. cbn [filter]. unfold has_label at 2.
    rewrite El. destruct (String.eqb l level).
    - now destruct (filter (has_label level) seen).
    - now rewrite app_nil_r. }
  rewrite Hlast.
  assert (Hl : get_key l groups = bucket_of l seen) by apply Hinv.
  destruct (get_key l groups) as [bucket|] eqn:Eg.
  - injection H as <-. rewrite Hnew.
    destruct (String.eqb_spec l level) as [->|_]; [|apply Hinv].
    unfold bucket_of in Hl. destruct (filter (has_label level) seen); [discriminate|].
    now injection Hl as ->.
  - assert (Hempty : filter (has_label l) seen = []).
    { unfold bucket_of in Hl. now destruct (filter (has_label l) seen). }
    assert (groups' = set_key l [s] groups) as ->.
    { destruct (inherited KObject l) as [member|]; [|now injection H as <-].
      destruct (truthy member); [discriminate | now injection H as <-]. }
    rewrite Hnew. destruct (String.eqb_spec l level) as [->|_]; [|apply Hinv].
    now rewrite Hempty.
Qed.

Lemma group_spells_groups_from spells : forall seen groups groups',
  (forall level, get_key level groups = bucket_of level seen) ->
  forEach spells spellsByLevel_body groups = Ok groups' ->
  forall level, get_key level groups' = bucket_of level (seen ++ spells).
Proof.
  induction spells as [|s spells IH]; intros seen groups groups' Hinv H; cbn [forEach] in H.
  - injection H as <-. now rewrite app_nil_r.
  - destruct (spellsByLevel_body groups s) as [groups1|] eqn:E; [|discriminate].
    cbn [bind] in H. intros level.
    replace (seen ++ s :: spells)%list with ((seen ++ [s]) ++ spells)%list
      by now rewrite <- app_assoc.
    apply (IH _ groups1 _); [|exact H].
    exact (spellsByLevel_body_groups _ _ _ _ Hinv E).
Qed.

(** X16: the grouping of the spells by level files every spell once, under
    its level (Cantrip for a level that is empty or the text 0), and keeps
    the order of the spells inside a level: the array of a level holds the
    spells of that level, in the order of the list, and a level without
    spells has no array. *)
Theorem group_spells_by_level (spells : list spell) (groups : list (string * list spell)) :
  group_spells spells = Ok groups ->
  forall level,
    get_key level groups
    = match filter (has_label level) spells with
      | [] => None
      | bucket => Some bucket
      end.
Proof.
  intros H level.
  exact (group_spells_groups_from spells [] [] groups (fun _ => eq_refl) H level).
Qed.

End GroupFacts.

(** The sorted spells of the sample are grouped as the levels 1 and
    Cantrip. *)
Lemma group_spells_by_level_witness :
  group_spells (host := plain_host) [spell_of "A" "1"; spell_of "Z" "1"; spell_of "A" "0"]
  = Ok [("1", [spell_of "A" "1"; spell_of "Z" "1"]); ("Cantrip", [spell_of "A" "0"])]
  /\ get_key "Cantrip" [("1", [spell_of "A" "1"; spell_of "Z" "1"]);
                        ("Cantrip", [spell_of "A" "0"])]
     = Some [spell_of "A" "0"].
Proof.
  split; [reflexivity|].
  exact (group_spells_by_level (host := plain_host)
           [spell_of "A" "1"; spell_of "Z" "1"; spell_of "A" "0"]
           [("1", [spell_of "A" "1"; spell_of "Z" "1"]); ("Cantrip", [spell_of "A" "0"])]
           eq_refl "Cantrip").
Defined.

Section LevelOrderFacts.
Context {host : Host}.










End LevelOrderFacts.


(** ** The paragraphs of a description, joined and split again *)

Section ParagraphFacts.

Lemma startsWith_blank_line a b s :
  startsWith blank_line (String a (String b s)) = Ascii.eqb a lf && Ascii.eqb b lf.
Proof.
  unfold blank_line, nl, lf. cbn [append startsWith].
  rewrite (Ascii.eqb_sym "010" a), (Ascii.eqb_sym "010" b). now rewrite andb_true_r.
Qed.

Lemma includes_blank_line_cons a b s :
  includes blank_line (String a (String b s)) = false ->
  Ascii.eqb a lf && Ascii.eqb b lf = false /\ includes blank_line (String b s) = false.
Proof.
  intros H. change (includes blank_line (String a (String b s)))
    with (startsWith blank_line (String a (String b s)) || includes blank_line (String b s)) in H.
  apply orb_false_iff in H. now rewrite startsWith_blank_line in H.
Qed.

Lemma split_blank_piece rest : forall p,
  includes blank_line p = false -> last_unit p <> Some lf ->
  split_blank (p ++ blank_line ++ rest) = p :: split_blank rest.
Proof.
  induction p as [|a p IH]; intros Hi Hl; [reflexivity|].
  destruct p as [|b p].
  - assert (Ha : Ascii.eqb a lf = false).
    { destruct (Ascii.eqb_spec a lf) as [->|]; [|reflexivity]. now contradiction Hl. }
    cbn [append blank_line nl]. cbn [split_blank]. rewrite Ha. cbn [andb].
    unfold lf. now rewrite Ascii.eqb_refl.
  - apply includes_blank_line_cons in Hi. destruct Hi as [Hab Hi].
    assert (Hl' : last_unit (String b p) <> Some lf).
    { intros E. apply Hl. cbn [last_unit] in E |- *.
      destruct (last_unit p); [exact E|]. exact E. }
    specialize (IH Hi Hl').
    change ((String a (String b p)) ++ blank_line ++ rest)
      with (String a (String b (p ++ blank_line ++ rest))).
    change (String b (p ++ blank_line ++ rest)) with (String b p ++ blank_line ++ rest) in *.
    cbn [split_blank append]. cbn [append] in IH. rewrite Hab.
    change (match p ++ blank_line ++ rest with
            | EmptyString => [String b EmptyString]
            | String b0 rest' =>
                if Ascii.eqb b lf && Ascii.eqb b0 lf then EmptyString :: split_blank rest'
                else match split_blank (p ++ blank_line ++ rest) with
                     | piece :: pieces => String b piece :: pieces
                     | [] => [String b EmptyString]
                     end
            end) with (split_blank (String b (p ++ blank_line ++ rest))).
    now rewrite IH.
Qed.

Lemma split_blank_whole : forall p,
  includes blank_line p = false -> split_blank p = [p].
Proof.
  induction p as [|a p IH]; intros Hi; [reflexivity|].
  destruct p as [|b p]; [reflexivity|].
  apply includes_blank_line_cons in Hi. destruct Hi as [Hab Hi].
  specialize (IH Hi).
  change (split_blank (String a (String b p)))
    with (if Ascii.eqb a lf && Ascii.eqb b lf then EmptyString :: split_blank p
          else match split_blank (String b p) with
               | piece :: pieces => String a piece :: pieces
               | [] => [String a EmptyString]
               end).
  now rewrite Hab, IH.
Qed.

Lemma trimmed_last p : trimmed p = true -> last_unit p <> Some lf.
Proof.
  unfold trimmed. destruct (first_unit p) as [a|] eqn:Ea.
  - destruct (last_unit p) as [b|]; [|discriminate].
    intros H E. injection E as ->. apply andb_true_iff in H. destruct H as [_ H].
    discriminate.
  - destruct p; [discriminate | discriminate].
Qed.

Lemma split_blank_join pieces :
  Forall (fun p => trimmed p = true /\ includes blank_line p = false) pieces ->
  pieces <> [] -> split_blank (join blank_line pieces) = pieces.
Proof.
  induction pieces as [|p pieces IH]; intros Hf Hne; [congruence|].
  inversion Hf as [|? ? [Ht Hi] Hf']; subst.
  destruct pieces as [|p2 pieces].
  - cbn [join]. now apply split_blank_whole.
  - change (join blank_line (p :: p2 :: pieces))
      with (p ++ blank_line ++ join blank_line (p2 :: pieces)).
    rewrite split_blank_piece; [|exact Hi | now apply trimmed_last].
    rewrite IH; [reflexivity | exact Hf' | discriminate].
Qed.

End ParagraphFacts.

Section TooltipFacts.
Context {host : Host}.

Lemma paragraph_text_trimmed p t : paragraph_text p = Ok t -> trimmed t = true.
Proof.
  assert (Htrim : forall v, js_trim v = Ok t -> trimmed t = true).
  { intros v H. destruct v; try discriminate. injection H as <-. apply trim_trimmed. }
  unfold paragraph_text.
  destruct p as [| | | |s| | |];
    try (cbn [truthy]; intros H; now injection H as <-).
  - destruct b; cbn [truthy js_get bind].
    + destruct (truthy _); [apply Htrim | intros H; now injection H as <-].
    + intros H; now injection H as <-.
  - destruct (truthy (VNum x)); [|intros H; now injection H as <-].
    cbn [js_get bind]. destruct (truthy _); [apply Htrim | intros H; now injection H as <-].
  - intros H. injection H as <-. apply trim_trimmed.
  - cbn [truthy js_get bind].
    destruct (truthy _); [apply Htrim | intros H; now injection H as <-].
  - cbn [truthy js_get bind].
    destruct (truthy _); [apply Htrim | intros H; now injection H as <-].
  - cbn [truthy js_get bind].
    destruct (truthy _); [apply Htrim | intros H; now injection H as <-].
Qed.

Lemma map_completion_Forall {A B} (f : A -> completion B) (P : B -> Prop) :
  (forall a b, f a = Ok b -> P b) ->
  forall l r, map_completion f l = Ok r -> Forall P r.
Proof.
  intros Hf. induction l as [|a l IH]; intros r H; cbn [map_completion] in H.
  - injection H as <-. constructor.
  - destruct (f a) as [b|] eqn:E; [|discriminate]. cbn [bind] in H.
    destruct (map_completion f l) as [bs|]; [|discriminate]. cbn [bind] in H.
    injection H as <-. constructor; [exact (Hf _ _ E) | now apply IH].
Qed.

(** X18: the paragraphs of a description survive the way through the
    description text: when no paragraph holds a blank line of its own,
    splitting the description that the extraction joined gives back the
    paragraphs, trimmed, the empty ones left out, in their order. *)
Theorem tooltip_paragraphs_round_trip (elems : list value) (texts : list string) :
  map_completion paragraph_text elems = Ok texts ->
  forallb (fun t => negb (includes blank_line t)) texts = true ->
  exists description,
    paragraphs_text (VArr elems) = Ok description
    /\ tooltip_paragraphs description = filter (fun t => negb (String.eqb t "")) texts.
Proof.
  intros Hm Hb. unfold paragraphs_text, paragraphs_with. rewrite Hm. cbn [bind].
  eexists. split; [reflexivity|].
  pose proof (map_completion_Forall _ _ paragraph_text_trimmed _ _ Hm) as Ht.
  set (pieces := filter (fun t => negb (String.eqb t "")) texts).
  assert (Hp : Forall (fun p => trimmed p = true /\ includes blank_line p = false) pieces).
  { apply Forall_forall. intros p Hin. apply filter_In in Hin. destruct Hin as [Hin _].
    split; [exact (proj1 (Forall_forall _ _) Ht p Hin)|].
    apply negb_true_iff. exact (proj1 (forallb_forall _ _) Hb p Hin). }
  assert (Hn : filter (fun t => negb (String.eqb t "")) pieces = pieces).
  { unfold pieces. clear. induction texts as [|t texts IH]; [reflexivity|].
    cbn [filter]. destruct (negb (String.eqb t "")) eqn:E; [|exact IH].
    cbn [filter]. now rewrite E, IH. }
  unfold tooltip_paragraphs. destruct pieces as [|p pieces'] eqn:E; [reflexivity|].
  rewrite split_blank_join; [exact Hn | exact Hp | discriminate].
Qed.

End TooltipFacts.

(** Two paragraphs, one of them an element with text, and an empty one. *)
Lemma tooltip_paragraphs_round_trip_witness :
  paragraphs_text (host := plain_host)
    (VArr [VStr " You gain darkvision. "; VStr "  "; VObj [("_", VStr "Range 60 ft.")]])
  = Ok ("You gain darkvision." ++ blank_line ++ "Range 60 ft.")
  /\ exists description,
      paragraphs_text (host := plain_host)
        (VArr [VStr " You gain darkvision. "; VStr "  "; VObj [("_", VStr "Range 60 ft.")]])
      = Ok description
      /\ tooltip_paragraphs description = ["You gain darkvision."; "Range 60 ft."].
Proof.
  split; [reflexivity|].
  exact (tooltip_paragraphs_round_trip (host := plain_host)
           [VStr " You gain darkvision. "; VStr "  "; VObj [("_", VStr "Range 60 ft.")]]
           ["You gain darkvision."; ""; "Range 60 ft."] eq_refl eq_refl).
Defined.

(** ** The spellcasting figures are numbers *)

Section FigureFacts.
Context {host : Host}.

(** X19: from the character to the spellcasting figures: when the class
    levels are within a bound that keeps their sum a safe integer and the
    ability bonuses are below 2^52, the figures that are computed are safe
    integers, not NaN (a level or a bonus that does not parse counts as 0),
    and the save DC is the attack bonus plus 8. *)
Theorem extract_spellcasting_integers (char : value) (bound : Z) (figures : spellcasting) :
  levels_within bound char ->
  bonuses_within char ->
  extract_spellcasting char = Ok figures ->
  exists p m,
    profBonus figures = Int p
    /\ spellcastingMod figures = Int m
    /\ spellAttackBonus figures = Int (p + m)
    /\ spellSaveDC figures = Int (8 + (p + m))
    /\ safe_integer p /\ safe_integer m /\ safe_integer (8 + (p + m)).
Proof.
  unfold extract_spellcasting. intros Hl Hb H.
  destruct (extract_classes char) as [[totalLevel classesInfo]|] eqn:Ec; [|discriminate].
  cbn [bind] in H.
  destruct (extract_abilities char) as [abilities|] eqn:Ea; [|discriminate].
  cbn [bind] in H.
  destruct (extract_classes_within _ _ _ _ Hl Ec) as [n [-> [Hn _]]].
  unfold spellcasting_of in H. rewrite getProficiencyBonus_number in H.
  destruct (resolve_spellcastingAbility classesInfo) as [ability_|]; [|discriminate].
  cbn [bind] in H.
  destruct (resolve_spellcastingMod ability_ abilities) as [m|] eqn:Em; [|discriminate].
  cbn [bind] in H.
  assert (Hm : exists k, m = Int k /\ Z.abs k < 2 ^ 52).
  { unfold resolve_spellcastingMod in Em.
    destruct ability_ as [name|]; [|injection Em as <-; exists 0; split; [reflexivity|lia]].
    destruct (ability_named name abilities) as [a|] eqn:En;
      [|injection Em as <-; exists 0; split; [reflexivity|lia]].
    destruct (parseInt (bonus a)) as [parsed|] eqn:Ep; [|discriminate]. cbn [bind] in Em.
    injection Em as <-. destruct parsed as [k|]; unfold num_or; cbn [truthy].
    - destruct (k =? 0); cbn [negb]; [exists 0; split; [reflexivity|lia]|].
      exists k. split; [reflexivity|]. exact (Hb abilities name a k Ea En Ep).
    - exists 0. split; [reflexivity|lia]. }
  destruct Hm as [k [-> Hk]]. injection H as <-. exists (2 + (n - 1) / 4), k.
  cbn [profBonus spellcastingMod spellAttackBonus spellSaveDC num_add].
  split; [reflexivity|]. split; [reflexivity|]. split; [reflexivity|].
  split; [now rewrite Z.add_assoc|].
  unfold safe_integer in *. change (2 ^ 53) with 9007199254740992 in *.
  change (2 ^ 52) with 4503599627370496 in *.
  pose proof (Z.div_mod (n - 1) 4 ltac:(lia)) as D.
  pose proof (Z.mod_pos_bound (n - 1) 4 ltac:(lia)) as B.
  lia.
Qed.

End FigureFacts.

Lemma levels_within_warlock : levels_within (host := plain_host) 20 warlock_character.
Proof.
  split; [lia|]. intros classesData keys Hd Hk.
  injection Hd as <-. injection Hk as <-. split; [reflexivity|].
  repeat (constructor; [intros _ k H; try discriminate H; injection H as <-; lia|]).
  constructor.
Defined.

Lemma bonuses_within_warlock : bonuses_within (host := plain_host) warlock_character.
Proof.
  intros abilities name a k He Hn Hp. injection He as <-.
  cbn [ability_named] in Hn. destruct (String.eqb "charisma" name); [|discriminate].
  injection Hn as <-. injection Hp as <-. reflexivity.
Defined.

(** A warlock of level 5 with the charisma bonus 3: proficiency bonus 3,
    attack bonus 6, save DC 14. *)
Lemma extract_spellcasting_integers_witness :
  extract_spellcasting (host := plain_host) warlock_character
  = Ok {| profBonus := Int 3; spellcastingAbility := Some "charisma";
          spellcastingMod := Int 3; spellSaveDC := Int 14; spellAttackBonus := Int 6 |}
  /\ exists p m, Int 6 = Int (p + m) /\ Int 14 = Int (8 + (p + m))
                 /\ safe_integer (8 + (p + m)).
Proof.
  split; [reflexivity|].
  destruct (extract_spellcasting_integers (host := plain_host) warlock_character 20
              {| profBonus := Int 3; spellcastingAbility := Some "charisma";
                 spellcastingMod := Int 3; spellSaveDC := Int 14; spellAttackBonus := Int 6 |}
              levels_within_warlock bonuses_within_warlock eq_refl)
    as [p [m [_ [_ [Ha [Hd [_ [_ Hs]]]]]]]].
  exists p, m. split; [exact Ha|]. split; [exact Hd | exact Hs].
Defined.

(** ** A path read in two steps *)

Section WalkFacts.
Context {host : Host}.

Lemma split_on_app (p1 p2 : string) :
  split_on "." (p1 ++ "." ++ p2) = (split_on "." p1 ++ split_on "." p2)%list.
Proof.
  induction p1 as [|c p1 IH]; [reflexivity|].
  cbn [append split_on]. cbn [append] in IH. rewrite IH.
  destruct (Ascii.eqb c "."); [reflexivity|].
  destruct (split_on "." p1) as [|piece pieces] eqn:E; [|reflexivity].
  exfalso. clear - E. destruct p1 as [|a p1]; [discriminate|].
  cbn [split_on] in E. destruct (Ascii.eqb a "."); [discriminate|].
  destruct (split_on "." p1); discriminate.
Qed.

Lemma safeGet_keys_reaches obj keys mid :
  reaches obj keys mid ->
  forall keys' d, safeGet_keys (keys ++ keys') obj d = safeGet_keys keys' mid d.
Proof.
  induction 1 as [v | v key keys next r Hc Hl _ IH]; intros keys' d; [reflexivity|].
  cbn [app safeGet_keys].
  rewrite (container_walks _ Hc), (js_in_container _ _ Hc). cbn [bind].
  unfold has_property. rewrite Hl.
  rewrite (js_get_container _ _ Hc), Hl. cbn [bind]. apply IH.
Qed.

(** X20: a path may be read in two steps, as the code does for the hit
    points and the abilities: when the walk of the first path ends at a
    mapping without text markers, [safeGet] returns that mapping, and a
    second path read from it gives what the joined path gives from the
    start. *)
Theorem safeGet_in_two_steps (obj mid : value) (path1 : string) :
  reaches obj (split_on "." path1) mid ->
  plain_mapping mid = true ->
  forall d1,
    safeGet obj path1 d1 = Ok mid
    /\ forall path2 d, safeGet mid path2 d = safeGet obj (path1 ++ "." ++ path2) d.
Proof.
  intros Hr Hm d1. split.
  - unfold safeGet.
    rewrite <- (app_nil_r (split_on "." path1)), (safeGet_keys_reaches _ _ _ Hr).
    destruct mid as [| | | | | |props|]; try discriminate.
    cbn [plain_mapping] in Hm. apply andb_true_iff in Hm. destruct Hm as [H1 H2].
    apply negb_true_iff in H1, H2.
    cbn [safeGet_keys]. unfold safeGet_finish. cbn [unwrap truthy typeof_object andb js_in bind].
    rewrite H1. cbn [bind]. rewrite H2. reflexivity.
  - intros path2 d. unfold safeGet. rewrite split_on_app.
    now rewrite (safeGet_keys_reaches _ _ _ Hr).
Qed.

End WalkFacts.

(** The hit points: [hp.0] is read first, then [total.0] from the result. *)
Lemma safeGet_in_two_steps_witness :
  safeGet (host := plain_host) (VObj [("hp", VArr [hp_record])]) "hp.0" (VObj [])
  = Ok hp_record
  /\ safeGet (host := plain_host) hp_record "total.0" (VStr "0") = Ok (VStr "27")
  /\ safeGet (host := plain_host) hp_record "total.0" (VStr "0")
     = safeGet (host := plain_host) (VObj [("hp", VArr [hp_record])]) "hp.0.total.0" (VStr "0").
Proof.
  assert (Hr : reaches (host := plain_host) (VObj [("hp", VArr [hp_record])])
                 (split_on "." "hp.0") hp_record).
  { eapply reaches_below; [reflexivity | reflexivity|].
    eapply reaches_below; [reflexivity | reflexivity|]. apply reaches_here. }
  destruct (safeGet_in_two_steps (host := plain_host) _ hp_record "hp.0" Hr eq_refl (VObj []))
    as [H1 H2].
  split; [exact H1|]. split; [reflexivity|]. exact (H2 "total.0" (VStr "0")).
Defined.

(** ** The abilities *)

Section AbilityOrder.
Context {host : Host}.

Lemma safeGet_reaches_mapping obj mid path d :
  reaches obj (split_on "." path) mid -> plain_mapping mid = true ->
  safeGet obj path d = Ok mid.
Proof.
  intros Hr Hm. unfold safeGet.
  rewrite <- (app_nil_r (split_on "." path)), (safeGet_keys_reaches _ _ _ Hr).
  destruct mid as [| | | | | |props|]; try discriminate.
  cbn [plain_mapping] in Hm. apply andb_true_iff in Hm. destruct Hm as [H1 H2].
  apply negb_true_iff in H1, H2.
  cbn [safeGet_keys]. unfold safeGet_finish. cbn [unwrap truthy typeof_object andb js_in bind].
  rewrite H1. cbn [bind]. rewrite H2. reflexivity.
Qed.

(** The record stored under [name] was read from the element that the
    tree holds for the ability. *)
Let stored (char : value) (e : string * ability) : Prop :=
  exists abil,
    safeGet char ("abilities.0." ++ fst e ++ ".0") (VStr "") = Ok abil
    /\ ability_of abil (snd e).

Lemma abilities_body_step char acc name r :
  abilities_body char acc name = Ok r ->
  (has_ability char name = false /\ r = acc)
  \/ (has_ability char name = true
      /\ exists a, stored char (name, a) /\ r = (acc ++ [(name, a)])%list).
Proof.
  unfold abilities_body, has_ability, stored. intros H.
  destruct (safeGet char ("abilities.0." ++ name ++ ".0") (VStr "")) as [abil|] eqn:Eg;
    [|discriminate]. cbn [bind] in H.
  destruct (truthy abil); [|left; split; [reflexivity | now injection H as <-]].
  destruct (safeGet abil "score.0" (VStr "")) as [v1|] eqn:E1; [|discriminate].
  cbn [bind] in H.
  destruct (safeGet abil "bonus.0" (VStr "")) as [v2|] eqn:E2; [|discriminate].
  cbn [bind] in H.
  destruct (safeGet abil "save.0" (VStr "")) as [v3|] eqn:E3; [|discriminate].
  cbn [bind] in H.
  destruct (safeGet abil "saveprof.0" (VStr "")) as [v4|] eqn:E4; [|discriminate].
  cbn [bind] in H. injection H as <-.
  right. split; [reflexivity|]. eexists. split; [|reflexivity].
  exists abil. split; [exact Eg|]. unfold ability_of. cbn [fst snd score bonus save saveprof].
  rewrite E1, E2, E3, E4. repeat split. now exists v4.
Qed.

Lemma abilities_loop char names : forall acc r,
  forEach names (abilities_body char) acc = Ok r ->
  map fst r = (map fst acc ++ filter (has_ability char) names)%list
  /\ (Forall (stored char) acc -> Forall (stored char) r).
Proof.
  induction names as [|name names IH]; intros acc r H; cbn [forEach] in H.
  - injection H as <-. cbn [filter]. now rewrite app_nil_r.
  - destruct (abilities_body char acc name) as [acc'|] eqn:E; [|discriminate].
    cbn [bind] in H. destruct (IH _ _ H) as [Hnames Hstored].
    destruct (abilities_body_step _ _ _ _ E) as [[Hh ->]|[Hh [a [Hs ->]]]];
      cbn [filter]; rewrite Hh.
    + split; assumption.
    + split.
      * rewrite Hnames, map_app, <- app_assoc. reflexivity.
      * intros Hacc. apply Hstored. apply Forall_app. split; [exact Hacc|]. now constructor.
Qed.

Lemma filter_subseq {A} (f : A -> bool) (l : list A) : subseq (filter f l) l.
Proof.
  induction l as [|x l IH]; cbn [filter]; [constructor|].
  destruct (f x); now constructor.
Qed.

Lemma ability_named_some name : forall abilities,
  In name (map fst abilities) -> exists a, ability_named name abilities = Some a.
Proof.
  induction abilities as [|[k a] rest IH]; cbn [map fst In ability_named]; [tauto|].
  intros [->|H]; [rewrite String.eqb_refl; eauto|].
  destruct (String.eqb k name); eauto.
Qed.

Lemma ability_named_in name a : forall abilities,
  ability_named name abilities = Some a -> In (name, a) abilities.
Proof.
  induction abilities as [|[k b] rest IH]; cbn [ability_named]; [discriminate|].
  destruct (String.eqb_spec k name) as [->|_]; intros H.
  - injection H as <-. now left.
  - right. now apply IH.
Qed.

(** X11: the abilities are extracted without an exception from every tree;
    the stored names are the fixed list strength, dexterity, constitution,
    intelligence, wisdom, charisma with exactly the abilities left out
    whose element the read of the tree does not find, whatever the order
    of the document; an ability whose element the tree holds is stored,
    and every stored record holds the score, bonus and save and the save
    proficiency read from the element of its ability. *)
Theorem extract_abilities_in_fixed_order (char : value) :
  exists abilities,
    extract_abilities char = Ok abilities
    /\ map fst abilities = filter (has_ability char) abilityNames
    /\ subseq (map fst abilities) abilityNames
    /\ (forall name entry,
          In name abilityNames ->
          reaches char (split_on "." ("abilities.0." ++ name ++ ".0")) entry ->
          plain_mapping entry = true ->
          exists a, ability_named name abilities = Some a /\ ability_of entry a)
    /\ (forall name a,
          ability_named name abilities = Some a ->
          exists abil,
            safeGet char ("abilities.0." ++ name ++ ".0") (VStr "") = Ok abil
            /\ ability_of abil a).
Proof.
  unfold extract_abilities.
  assert (Hreturns : forall s a, exists s', abilities_body char s a = Ok s').
  { intros s a. destruct (abilities_body_cases char s a) as [r [E _]]. eauto. }
  destruct (forEach_total _ abilityNames Hreturns []) as [abilities H].
  exists abilities. split; [exact H|].
  destruct (abilities_loop _ _ _ _ H) as [Hnames Hstored]. cbn [map app] in Hnames.
  specialize (Hstored (Forall_nil _)).
  assert (Hfrom : forall name a,
            ability_named name abilities = Some a ->
            exists abil,
              safeGet char ("abilities.0." ++ name ++ ".0") (VStr "") = Ok abil
              /\ ability_of abil a).
  { intros name a Hn. apply ability_named_in in Hn.
    exact (proj1 (Forall_forall _ _) Hstored _ Hn). }
  split; [exact Hnames|]. split; [rewrite Hnames; apply filter_subseq|].
  split; [|exact Hfrom].
  intros name entry Hin Hr Hm.
  pose proof (safeGet_reaches_mapping _ _ _ (VStr "") Hr Hm) as Hget.
  assert (Hh : has_ability char name = true).
  { unfold has_ability. rewrite Hget. destruct entry; try discriminate. reflexivity. }
  destruct (ability_named_some name abilities) as [a Ha].
  { rewrite Hnames. apply filter_In. now split. }
  exists a. split; [exact Ha|].
  destruct (Hfrom _ _ Ha) as [abil [Hget' Hof]].
  rewrite Hget in Hget'. now injection Hget' as <-.
Qed.

End AbilityOrder.

(** The warlock has the charisma alone, with the score 16 and the bonus 3. *)
Lemma extract_abilities_in_fixed_order_witness :
  extract_abilities (host := plain_host) warlock_character
  = Ok [("charisma", {| score := VStr "16"; bonus := VStr "3"; save := VStr "";
                        saveprof := false |})]
  /\ exists abilities a,
      extract_abilities (host := plain_host) warlock_character = Ok abilities
      /\ ability_named "charisma" abilities = Some a
      /\ ability_of (host := plain_host) (VObj [("score", leaf "16"); ("bonus", leaf "3")]) a.
Proof.
  split; [reflexivity|].
  destruct (extract_abilities_in_fixed_order (host := plain_host) warlock_character)
    as [abilities [He [_ [_ [Hheld _]]]]].
  destruct (Hheld "charisma" (VObj [("score", leaf "16"); ("bonus", leaf "3")]))
    as [a [Ha Hof]].
  - cbn. tauto.
  - eapply reaches_below; [reflexivity | reflexivity|].
    eapply reaches_below; [reflexivity | reflexivity|].
    eapply reaches_below; [reflexivity | reflexivity|].
    eapply reaches_below; [reflexivity | reflexivity|]. apply reaches_here.
  - reflexivity.
  - exists abilities, a. split; [exact He|]. split; [exact Ha | exact Hof].
Defined.
